(** * RagBot: orchestration and credential-pool layer

    A shallow embedding of the Python sources

      - src/utils/config.py               (module [Config])
      - src/utils/gemini_api_manager.py   (module [GeminiApiManager])
      - src/services/ai_service.py        (module [AIService])
      - src/services/session_service.py,
        src/utils/session_manager.py,
        src/services/usage_service.py     (module [SessionStore])
      - src/services/chat_orchestrator.py (module [ChatOrchestrator])
      - src/api/chat_routes.py            (module [ChatRoutes])
      - src/utils/meta_rag_processor_fixed.py
                                          (module [MetaRAGProcessor])

    The status summary of the pool is in [PoolStatus], the reading of the
    usage table in [UsageService], and the retrieval pipeline of the RAG
    strategy in [RagPipeline].

    Fallible code returns a [result]; code that mutates the credential
    pool, the clock or the database passes the state explicitly; what the
    program does not decide itself (the LLM providers, the retriever, the
    random generator, which task is done when a time-out expires) is a
    parameter.  The properties of the specification follow, module by
    module. *)

From Stdlib Require Import List String Ascii Bool ZArith QArith Qround Lia Lqa.
From Stdlib Require Import DecimalString.
From Stdlib Require Import Permutation.
Import ListNotations.

Local Open Scope string_scope.
Local Open Scope Z_scope.

(* ================================================================== *)
(** * Python values, exceptions and string primitives *)
(* ================================================================== *)

Module Py.

(** Exceptions carry their class and their message; [str(e)] is the
    message. *)
Inductive exn : Type :=
| ValueError (msg : string)
| TypeError (msg : string)
| AttributeError (msg : string)
| ImportError (msg : string)
| IndexError (msg : string)
| UnboundLocalError (msg : string)
| OtherError (msg : string).

Definition str_exn (e : exn) : string :=
  match e with
  | ValueError m | TypeError m | AttributeError m
  | ImportError m | IndexError m | UnboundLocalError m | OtherError m => m
  end.

Definition is_ImportError (e : exn) : bool :=
  match e with ImportError _ => true | _ => false end.

(** A computation that either returns or raises. *)
Inductive result (A : Type) : Type :=
| Ok (a : A)
| Raise (e : exn).
Arguments Ok {A} a.
Arguments Raise {A} e.

Definition bind {A B} (m : result A) (k : A -> result B) : result B :=
  match m with
  | Ok a => k a
  | Raise e => Raise e
  end.

(** [try m except Exception as e: h e] *)
Definition try_except {A} (m : result A) (h : exn -> A) : A :=
  match m with
  | Ok a => a
  | Raise e => h e
  end.

Notation "x <- m ;; k" := (bind m (fun x => k))
  (at level 61, m at next level, right associativity).

(** The values that flow through the untyped parts of the code ([Any] in
    the annotations): the scalars a JSON document can hold. *)
Inductive pyval : Type :=
| PNone
| PStr (s : string)
| PInt (z : Z).

(** [a == b] *)
Definition pyval_eqb (a b : pyval) : bool :=
  match a, b with
  | PNone, PNone => true
  | PStr s, PStr t => String.eqb s t
  | PInt x, PInt y => Z.eqb x y
  | _, _ => false
  end.

(** [str(z)] for an integer. *)
Definition str_of_Z (z : Z) : string := NilZero.string_of_int (Z.to_int z).

(** [str(v)] *)
Definition str (v : pyval) : string :=
  match v with
  | PNone => "None"
  | PStr s => s
  | PInt z => str_of_Z z
  end.

(** [type(v).__name__] *)
Definition type_name_of (v : pyval) : string :=
  match v with
  | PNone => "NoneType"
  | PStr _ => "str"
  | PInt _ => "int"
  end.

(** Truth value of an object: [None], [""] and [0] are false. *)
Definition truthy (v : pyval) : bool :=
  match v with
  | PNone => false
  | PStr s => negb (String.eqb s "")
  | PInt z => negb (Z.eqb z 0)
  end.

Definition truthy_str (s : string) : bool := negb (String.eqb s "").

(** [s[:n]] for a literal [n >= 0]. *)
Fixpoint slice_to (n : nat) (s : string) : string :=
  match n, s with
  | O, _ => ""
  | _, EmptyString => ""
  | S n', String c s' => String c (slice_to n' s')
  end.

(** [len(s)] *)
Definition len (s : string) : Z := Z.of_nat (String.length s).

(** [s.startswith(p)] *)
Fixpoint startswith (p s : string) : bool :=
  match p, s with
  | EmptyString, _ => true
  | String _ _, EmptyString => false
  | String a p', String b s' => Ascii.eqb a b && startswith p' s'
  end.

(** [sub in s] on strings. *)
Fixpoint contains (sub s : string) : bool :=
  startswith sub s ||
  match s with
  | EmptyString => false
  | String _ s' => contains sub s'
  end.

(** [s.lower()], on the ASCII letters. *)
Definition lower_ascii (c : ascii) : ascii :=
  let n := nat_of_ascii c in
  if (Nat.leb 65 n && Nat.leb n 90)%bool then ascii_of_nat (n + 32) else c.

Fixpoint lower (s : string) : string :=
  match s with
  | EmptyString => EmptyString
  | String c s' => String (lower_ascii c) (lower s')
  end.

(** [s.split(sep)[-1]] for a one-character separator: what follows the last
    occurrence of [sep], or the whole string when there is none. *)
Fixpoint split_last_aux (sep : ascii) (s acc : string) : string :=
  match s with
  | EmptyString => acc
  | String c s' =>
      if Ascii.eqb c sep then split_last_aux sep s' s'
      else split_last_aux sep s' acc
  end.

Definition split_last (sep : ascii) (s : string) : string :=
  split_last_aux sep s s.

(** [s.strip()], on the ASCII white space. *)
Definition is_space (c : ascii) : bool :=
  let n := nat_of_ascii c in
  (Nat.eqb n 32 || (Nat.leb 9 n && Nat.leb n 13) || (Nat.leb 28 n && Nat.leb n 31))%bool.

Fixpoint lstrip (s : string) : string :=
  match s with
  | EmptyString => EmptyString
  | String c s' => if is_space c then lstrip s' else s
  end.

Fixpoint rstrip (s : string) : string :=
  match s with
  | EmptyString => EmptyString
  | String c s' =>
      match rstrip s' with
      | EmptyString => if is_space c then EmptyString else String c EmptyString
      | r => String c r
      end
  end.

Definition strip (s : string) : string := rstrip (lstrip s).

(** [c * n]: the character [c], [n] times. *)
Fixpoint str_mul (c : ascii) (n : nat) : string :=
  match n with
  | O => EmptyString
  | S m => String c (str_mul c m)
  end.

(** [l[i]] on a list: negative indices count from the end, anything out of
    range raises [IndexError]. *)
Definition getitem {A} (l : list A) (i : Z) : result A :=
  let n := Z.of_nat (List.length l) in
  let j := if i <? 0 then i + n else i in
  if (0 <=? j) && (j <? n) then
    match nth_error l (Z.to_nat j) with
    | Some a => Ok a
    | None => Raise (IndexError "list index out of range")
    end
  else Raise (IndexError "list index out of range").

(** [x in l] on a list. *)
Definition mem {A} (eqb : A -> A -> bool) (x : A) (l : list A) : bool :=
  existsb (eqb x) l.

End Py.

Import Py.

(* ================================================================== *)
(** * src/utils/config.py *)
(* ================================================================== *)

Module Config.

Definition AI_MODES : list string := ["RAG"; "Gemini"; "Meta"; "MetaRAG"].

(** [ApiKeys.google_api_keys] is what the environment configured; it is a
    parameter of everything that reads it. *)

(** [ApiKeys.get_all_keys] *)
Definition get_all_keys (google_api_keys : list string) : list string :=
  filter (fun key => truthy_str key && truthy_str (strip key)) google_api_keys.

(** [get_api_key(index)] *)
Definition get_api_key (google_api_keys : list string) (index : Z) : result string :=
  let valid_keys := filter truthy_str google_api_keys in
  match valid_keys with
  | [] => Raise (ValueError "No valid Google API keys found")
  | _ :: _ => getitem valid_keys (index mod Z.of_nat (List.length valid_keys))
  end.

End Config.

(* ================================================================== *)
(** * src/utils/gemini_api_manager.py *)
(* ================================================================== *)

Module GeminiApiManager.

(** Time stamps ([time.time()], seconds) are exact rationals here; the
    rounding of the source's floats is not modelled. *)
Definition time := Q.

Definition Qltb (x y : Q) : bool := negb (Qle_bool y x).

(** [max(a, b)] of Python: the first argument unless the second is larger. *)
Definition py_max (a b : Q) : Q := if Qltb a b then b else a.

(** [int(x)] on a float: truncation towards zero. *)
Definition int_of_float (x : Q) : Z :=
  if Qltb x 0%Q then Z.opp (Qfloor (Qopp x)) else Qfloor x.

Record ApiKeyStatus : Type := mkApiKeyStatus {
  index : Z;
  key : string;
  last_used : time;
  quota_exhausted_at : option time;
  consecutive_failures : Z;
  is_available : bool
}.

(** [ApiKeyStatus.is_quota_exhausted], at clock reading [now]. *)
Definition is_quota_exhausted (now : time) (s : ApiKeyStatus) : bool :=
  match quota_exhausted_at s with
  | None => false
  | Some t => Qltb (now - t)%Q 60%Q
  end.

(** [ApiKeyStatus.mark_quota_exhausted] *)
Definition mark_quota_exhausted (now : time) (s : ApiKeyStatus) : ApiKeyStatus :=
  {| index := index s;
     key := key s;
     last_used := last_used s;
     quota_exhausted_at := Some now;
     consecutive_failures := consecutive_failures s + 1;
     is_available := is_available s |}.

(** [ApiKeyStatus.mark_success] *)
Definition mark_success (now : time) (s : ApiKeyStatus) : ApiKeyStatus :=
  {| index := index s;
     key := key s;
     last_used := now;
     quota_exhausted_at := None;
     consecutive_failures := 0;
     is_available := true |}.

(** [ApiKeyStatus.mark_failure] *)
Definition mark_failure (s : ApiKeyStatus) : ApiKeyStatus :=
  let failures := consecutive_failures s + 1 in
  {| index := index s;
     key := key s;
     last_used := last_used s;
     quota_exhausted_at := quota_exhausted_at s;
     consecutive_failures := failures;
     is_available := if 3 <=? failures then false else is_available s |}.

(** [GeminiApiManager.api_statuses].  The dictionary is filled once, by
    [_initialize_api_keys], with the keys [0 .. n-1] in that order, and no
    entry is ever added or removed: it is the list of its values, the key
    of an entry being its position. *)
Definition Pool := list ApiKeyStatus.

(** [self.api_statuses.items()] *)
Definition items (pool : Pool) : list (Z * ApiKeyStatus) :=
  combine (map Z.of_nat (seq 0 (List.length pool))) pool.

(** [api_index in self.api_statuses] *)
Definition has_key (pool : Pool) (api_index : Z) : bool :=
  (0 <=? api_index) && (api_index <? Z.of_nat (List.length pool)).

(** [self.api_statuses[api_index]], [None] standing for [KeyError]. *)
Definition lookup (pool : Pool) (api_index : Z) : option ApiKeyStatus :=
  if has_key pool api_index then nth_error pool (Z.to_nat api_index) else None.

(** In-place mutation of the status stored under [api_index]. *)
Fixpoint update_nth (n : nat) (f : ApiKeyStatus -> ApiKeyStatus) (pool : Pool) : Pool :=
  match pool, n with
  | [], _ => []
  | s :: rest, O => f s :: rest
  | s :: rest, S n' => s :: update_nth n' f rest
  end.

Definition update (pool : Pool) (api_index : Z) (f : ApiKeyStatus -> ApiKeyStatus) : Pool :=
  if has_key pool api_index then update_nth (Z.to_nat api_index) f pool else pool.

(** [GeminiApiManager._initialize_api_keys], from [api_keys.get_all_keys()]. *)
Definition masked (k : string) : string :=
  if 8 <? len k then slice_to 8 k ++ "..." else k.

Definition _initialize_api_keys (valid_keys : list string) : Pool :=
  map (fun '(i, k) =>
         {| index := i; key := masked k; last_used := 0%Q;
            quota_exhausted_at := None; consecutive_failures := 0;
            is_available := true |})
      (combine (map Z.of_nat (seq 0 (List.length valid_keys))) valid_keys).

(** [GeminiApiManager.get_available_keys] *)
Definition eligible (now : time) (s : ApiKeyStatus) : bool :=
  is_available s && negb (is_quota_exhausted now s).

Definition get_available_keys (now : time) (pool : Pool) : list Z :=
  map fst (filter (fun e => eligible now (snd e)) (items pool)).

(** The replication weight of one key in [select_random_api_key]:
    [int(max(1.0, time_since_use / 10.0))]. *)
Definition replication_weight (now : time) (s : ApiKeyStatus) : Z :=
  let time_since_use := (now - last_used s)%Q in
  let weight := py_max 1%Q (time_since_use / 10)%Q in
  int_of_float weight.

(** [[key_index] * n] *)
Definition replicate (n : Z) (key_index : Z) : list Z := repeat key_index (Z.to_nat n).

Definition weighted_keys (now : time) (pool : Pool) (available_keys : list Z) : list Z :=
  flat_map
    (fun key_index =>
       match lookup pool key_index with
       | Some status => replicate (replication_weight now status) key_index
       | None => [] (* KeyError: the indices are the dictionary's own *)
       end)
    available_keys.

(** [random.choice(seq)]: [rnd] is the number the generator draws. *)
Definition choice (rnd : nat) (l : list Z) : option Z :=
  nth_error l (rnd mod List.length l).

(** [GeminiApiManager.select_random_api_key] *)
Definition select_random_api_key (now : time) (rnd : nat) (pool : Pool) : option Z :=
  let available_keys := get_available_keys now pool in
  match available_keys with
  | [] => None
  | _ :: _ =>
      match weighted_keys now pool available_keys with
      | [] => choice rnd available_keys
      | w => choice rnd w
      end
  end.

(** [GeminiApiManager._find_earliest_quota_recovery]; the running minimum
    [earliest_time] starts at infinity, which is [None] here. *)
Definition earliest_step (acc : option (Z * time)) (e : Z * ApiKeyStatus) : option (Z * time) :=
  match quota_exhausted_at (snd e) with
  | None => acc
  | Some t =>
      let recovery_time := (t + 60)%Q in
      match acc with
      | None => Some (fst e, recovery_time)
      | Some (_, earliest_time) =>
          if Qltb recovery_time earliest_time then Some (fst e, recovery_time) else acc
      end
  end.

Definition _find_earliest_quota_recovery (pool : Pool) : option (Z * time) :=
  fold_left earliest_step (items pool) None.

(** What a call of [get_api_key_with_fallback] leaves behind: the index and
    the fallback flag it returns, the pool, and the clock at return (the
    call may sleep). *)
Record Selection : Type := mkSelection {
  sel_index : Z;
  sel_fallback : bool;
  sel_pool : Pool;
  sel_now : time
}.

(** [self.api_statuses[i].quota_exhausted_at = None] *)
Definition clear_quota_exhaustion (s : ApiKeyStatus) : ApiKeyStatus :=
  {| index := index s; key := key s; last_used := last_used s;
     quota_exhausted_at := None;
     consecutive_failures := consecutive_failures s;
     is_available := is_available s |}.

(** [GeminiApiManager.get_api_key_with_fallback], entered at [now]; every
    [time.time()] of the call before the sleep reads [now].
    [asyncio.sleep(wait_time)] advances the clock by [wait_time], the
    earliest instant at which the call can resume. *)
Definition get_api_key_with_fallback (now : time) (rnd : nat) (pool : Pool) : result Selection :=
  match select_random_api_key now rnd pool with
  | Some selected_index => Ok (mkSelection selected_index false pool now)
  | None =>
      match _find_earliest_quota_recovery pool with
      | Some (i, recovery_time) =>
          let wait_time := py_max 0%Q (recovery_time - now)%Q in
          let now' := if Qltb 0%Q wait_time then (now + wait_time)%Q else now in
          let pool' := update pool i clear_quota_exhaustion in
          Ok (mkSelection i true pool' now')
      | None =>
          match items pool with
          | (fallback_index, _) :: _ => Ok (mkSelection fallback_index true pool now)
          | [] => Raise (ValueError "No API keys available")
          end
      end
  end.

(** [GeminiApiManager.mark_api_result] *)
Definition mark_api_result (now : time) (pool : Pool)
           (api_index : Z) (success is_quota_error : bool) : Pool :=
  if negb (has_key pool api_index) then pool
  else if success then update pool api_index (mark_success now)
  else if is_quota_error then update pool api_index (mark_quota_exhausted now)
  else update pool api_index mark_failure.

(** [GeminiApiManager.reset_api_key] *)
Definition reset_status (s : ApiKeyStatus) : ApiKeyStatus :=
  {| index := index s; key := key s; last_used := last_used s;
     quota_exhausted_at := None;
     consecutive_failures := 0;
     is_available := true |}.

Definition reset_api_key (pool : Pool) (api_index : Z) : Pool :=
  if has_key pool api_index then update pool api_index reset_status else pool.

(** [GeminiApiManager.get_next_recovery_time] *)
Definition get_next_recovery_time (pool : Pool) : option time :=
  match _find_earliest_quota_recovery pool with
  | Some earliest => Some (snd earliest)
  | None => None
  end.

(** The operations through which the rest of the program acts on the
    pool, and a run of them at successive clock readings. *)
Inductive pool_op : Type :=
| Report (api_index : Z) (success is_quota_error : bool) (* [mark_api_result] *)
| Reset (api_index : Z)                                  (* [reset_api_key] *)
| Select (rnd : nat).                                    (* [get_api_key_with_fallback] *)

Definition apply_op (now : time) (op : pool_op) (pool : Pool) : Pool :=
  match op with
  | Report api_index success is_quota_error =>
      mark_api_result now pool api_index success is_quota_error
  | Reset api_index => reset_api_key pool api_index
  | Select rnd =>
      match get_api_key_with_fallback now rnd pool with
      | Ok sel => sel_pool sel
      | Raise _ => pool
      end
  end.

Fixpoint run (trace : list (time * pool_op)) (pool : Pool) : Pool :=
  match trace with
  | [] => pool
  | (now, op) :: rest => run rest (apply_op now op pool)
  end.

(** The two operations that write [is_available = True] for key [k]; they
    are also the two that clear its quota stamp without waiting. *)
Definition reenables (k : Z) (op : pool_op) : bool :=
  match op with
  | Report api_index true _ => api_index =? k
  | Reset api_index => api_index =? k
  | _ => false
  end.

(** [self.api_statuses[k].is_available], when the key exists. *)
Definition availability (pool : Pool) (k : Z) : option bool :=
  option_map is_available (lookup pool k).

(** [n] reports of a non-quota failure for key [k] in a row. *)
Definition report_failures (n : nat) (k : Z) (now : time) (pool : Pool) : Pool :=
  Nat.iter n (fun p => mark_api_result now p k false false) pool.

End GeminiApiManager.

(* ================================================================== *)
(** * Raw sources, as the strategies hand them to the orchestrator *)
(* ================================================================== *)

Module Sources.

(** A flat mapping with string keys, in insertion order. *)
Definition mapping := list (string * pyval).

(** [d.get(k)], [None] when the key is absent. *)
Fixpoint get (d : mapping) (k : string) : option pyval :=
  match d with
  | [] => None
  | (k', v) :: rest => if String.eqb k k' then Some v else get rest k
  end.

(** [d.get(k, default)] *)
Definition get_default (o : option pyval) (default : pyval) : pyval :=
  match o with
  | Some v => v
  | None => default
  end.

(** A dictionary source, through the three keys the code reads from it;
    [None] is an absent key. *)
Record RawDict : Type := mkRawDict {
  rd_name : option pyval;
  rd_content : option pyval;
  rd_metadata : option mapping
}.

(** The shapes [_format_single_source] tells apart. *)
Inductive raw_source : Type :=
| RDoc (page_content : string) (metadata : option mapping)
    (* has [page_content] and [metadata]; the latter is [None] when it is
       not a dict *)
| RDict (d : RawDict)
| RStr (s : string)
| ROther (str_form : string) (* any other object, by its [str()] *)
| RFaulty (e : exn).
    (* an object whose inspection raises [e]: a property or a [__str__]
       that fails *)

(** The dictionary [_format_single_source] builds. *)
Record SourceDict : Type := mkSourceDict {
  name : pyval;
  content : string;
  preview : string;
  document_type : string;
  metadata : mapping
}.

(** [SourceItem] of src/models/schemas.py; every field is [Optional]. *)
Record SourceItem : Type := mkSourceItem {
  si_name : pyval;
  si_content : option string;
  si_preview : option string;
  si_document_type : option string;
  si_metadata : option mapping
}.

End Sources.

Import Sources.

(* ================================================================== *)
(** * src/utils/meta_rag_processor_fixed.py *)
(* ================================================================== *)

Module MetaRAGProcessor.

Import GeminiApiManager Sources.

(** [response and 'message' in response], for a response that is [None]
    or a dictionary. *)
Definition is_valid_response (response : option mapping) : bool :=
  match response with
  | None => false
  | Some d =>
      match d with
      | [] => false
      | _ :: _ => match get d "message" with Some _ => true | None => false end
      end
  end.

(** The exception an attempt leaves the loop with when no retry is left. *)
Definition exhausted_error (max_retries : Z) (e : exn) : exn :=
  let error_str := lower (str_exn e) in
  let attempts := str_of_Z (max_retries + 1) in
  if contains "422" error_str || contains "unprocessable entity" error_str then
    OtherError ("HTTP 422 error after " ++ attempts ++ " attempts: " ++ str_exn e)
  else if contains "rate limit" error_str || contains "too many requests" error_str then
    OtherError ("Rate limit exceeded after " ++ attempts ++ " attempts: " ++ str_exn e)
  else
    OtherError ("API call failed after " ++ attempts ++ " attempts: " ++ str_exn e).

Section RateLimited.

(** [self.meta_ai.prompt(sanitized_prompt, new_conversation=True)] at the
    attempt of a given number. *)
Variable prompt : nat -> result (option mapping).

(** The [try] block of one attempt. *)
Definition attempt_once (attempt : nat) : result (option mapping) :=
  response <- prompt attempt ;;
  if is_valid_response response then Ok response
  else Raise (OtherError "Invalid response from Meta AI").

(** The loop [for attempt in range(max_retries + 1)]; the second component
    counts the calls of the API.  The pauses between the attempts are not
    modelled. *)
Fixpoint retry_loop (attempts : list nat) (max_retries : Z) (calls : nat)
  : result (option mapping) * nat :=
  match attempts with
  | [] => (Raise (OtherError "Unexpected end of retry loop"), calls)
  | attempt :: rest =>
      match attempt_once attempt with
      | Ok response => (Ok response, S calls)
      | Raise e =>
          if Z.of_nat attempt <? max_retries
          then retry_loop rest max_retries (S calls)
          else (Raise (exhausted_error max_retries e), S calls)
      end
  end.

(** [MetaRAGProcessorFixed._rate_limited_api_call] *)
Definition _rate_limited_api_call (max_retries : Z) : result (option mapping) * nat :=
  retry_loop (seq 0 (Z.to_nat (max_retries + 1))) max_retries 0.

End RateLimited.

(** A LangChain [Document]: its text and its metadata dictionary. *)
Record Document : Type := mkDocument {
  doc_page_content : string;
  doc_metadata : mapping
}.

(** [MetaRAGProcessorFixed.__init__]: the processor needs the package
    [meta_ai_api]; [META_AI_AVAILABLE] is the flag this module sets when it
    imports the package. *)
Definition __init__ (META_AI_AVAILABLE : bool) : result unit :=
  if META_AI_AVAILABLE then Ok tt
  else Raise (ImportError
                "Meta AI API is required but not available. Install with: pip install meta-ai-api").

Definition max_documents : nat := 4.
Definition max_context_length : Z := 4000.
Definition max_retries : Z := 2.

Definition newline : string := String "010"%char "".

(** The texts [process_query] answers with when it does not reach the
    Meta AI answer. *)
Definition msg_short_question : string :=
  "❌ Please provide a valid question with at least 3 characters.".

Definition msg_validation : string :=
  "❌ Unable to process your question due to content validation issues. Please try rephrasing your question.".

Definition msg_no_documents : string :=
  "🔍 No relevant documents found for your question. Please try rephrasing your question or asking about a different topic.".

(** [list.sort(key=lambda x: x[1], reverse=True)] on the scored documents:
    the stable sort into descending order. *)
Fixpoint insert_scored (x : Document * Q) (l : list (Document * Q))
  : list (Document * Q) :=
  match l with
  | [] => [x]
  | y :: rest =>
      if Qle_bool (snd y) (snd x) then x :: y :: rest
      else y :: insert_scored x rest
  end.

Definition sort_scored (l : list (Document * Q)) : list (Document * Q) :=
  fold_right insert_scored [] l.

(** [MetaRAGProcessorFixed._generate_fallback_answer] *)
Definition _generate_fallback_answer (docs : list Document) : string :=
  match docs with
  | [] => "❌ I couldn't find relevant information to answer your question."
  | _ :: _ =>
      let relevant_content :=
        map (fun doc => slice_to 300 (doc_page_content doc)) (firstn 3 docs) in
      let combined_content := String.concat " " relevant_content in
      "📄 Based on the available documents: " ++ slice_to 800 combined_content ++
      (if 800 <? len combined_content then "..." else "")
  end.

(** One entry of [context_parts]. *)
Definition context_part (i : Z) (doc : Document) : string :=
  let content := slice_to 800 (doc_page_content doc) in
  let source :=
    get_default (get (doc_metadata doc) "source") (PStr ("Document " ++ str_of_Z (i + 1))) in
  "Source " ++ str_of_Z (i + 1) ++ " (" ++ str source ++ "):" ++ newline ++ content.

Fixpoint context_parts (i : Z) (docs : list Document) : list string :=
  match docs with
  | [] => []
  | doc :: rest => context_part i doc :: context_parts (i + 1) rest
  end.

(** The prompt of [_generate_comprehensive_answer]. *)
Definition comprehensive_prompt (query : string) (docs : list Document) : string :=
  let context :=
    String.concat (newline ++ newline) (context_parts 0 (firstn max_documents docs)) in
  let context :=
    if max_context_length <? len context then slice_to 4000 context ++ "..." else context in
  "Based on the provided context, please answer the user's question comprehensively and accurately."
  ++ newline ++ newline ++
  "USER QUESTION: " ++ query ++ newline ++ newline ++
  "CONTEXT:" ++ newline ++ context ++ newline ++ newline ++
  "Please provide a detailed, accurate answer based on the context provided. If the context doesn't contain enough information to fully answer the question, acknowledge this and provide what information is available."
  ++ newline ++ newline ++
  "ANSWER:".

(** The prompt of [_handle_no_documents]. *)
Definition fallback_prompt (query : string) : string :=
  "The user asked: '" ++ query ++
  "'. No relevant documents were found. Please provide a helpful response acknowledging this and suggesting how they might rephrase their question or what type of information might be needed.".

(** [response.get('message', '').strip()] *)
Definition message_text (response : option mapping) : result string :=
  match response with
  | None => Raise (AttributeError "'NoneType' object has no attribute 'get'")
  | Some d =>
      match get_default (get d "message") (PStr "") with
      | PStr s => Ok (strip s)
      | v => Raise (AttributeError
                      ("'" ++ type_name_of v ++ "' object has no attribute 'strip'"))
      end
  end.

Section Query.

(** [re.findall(r'\b\w+\b', text)] *)
Variable findall_words : string -> list string.

(** [retriever.get_relevant_documents(query)] *)
Variable get_relevant_documents : string -> result (list Document).

(** [self.meta_ai.prompt(self._sanitize_prompt(prompt), new_conversation=True)]
    for a prompt, at the attempt of a given number; the creation of the
    [MetaAI] client at the first use is part of the call. *)
Variable meta_ai_prompt : string -> nat -> result (option mapping).

(** The score [_local_relevance_filtering] gives a document; a [set] of
    words is the list of the distinct words. *)
Definition relevance_score (query_keywords : list string) (doc : Document) : Q :=
  let content := lower (doc_page_content doc) in
  let content_words := nodup string_dec (findall_words content) in
  let common_words := filter (fun word => mem String.eqb word content_words) query_keywords in
  let keyword_score :=
    (inject_Z (Z.of_nat (List.length common_words)) /
     inject_Z (Z.max (Z.of_nat (List.length query_keywords)) 1))%Q in
  let ratio := (inject_Z (len (doc_page_content doc)) / 500)%Q in
  let content_length_score := if Qltb 1 ratio then 1%Q else ratio in
  (keyword_score * (7 # 10) + content_length_score * (3 # 10))%Q.

(** [MetaRAGProcessorFixed._local_relevance_filtering] *)
Definition _local_relevance_filtering (query : string) (docs : list Document)
  : list Document :=
  let query_keywords :=
    filter (fun word => 2 <? len word) (nodup string_dec (findall_words (lower query))) in
  let scored_docs :=
    filter (fun p => Qltb (1 # 10) (snd p))
           (map (fun doc => (doc, relevance_score query_keywords doc))
                (firstn max_documents docs)) in
  map fst (firstn max_documents (sort_scored scored_docs)).

(** [MetaRAGProcessorFixed._generate_comprehensive_answer] *)
Definition _generate_comprehensive_answer (query : string) (docs : list Document)
  : string :=
  try_except
    (response <- fst (_rate_limited_api_call
                        (meta_ai_prompt (comprehensive_prompt query docs)) max_retries) ;;
     answer <- message_text response ;;
     if truthy_str answer then Ok ("📚 MetaRAG Answer: " ++ answer)
     else Ok (_generate_fallback_answer docs))
    (fun _ => _generate_fallback_answer docs).

(** [MetaRAGProcessorFixed._handle_no_documents] *)
Definition _handle_no_documents (query : string) : string :=
  try_except
    (response <- fst (_rate_limited_api_call (meta_ai_prompt (fallback_prompt query)) 1) ;;
     match response with
     | None => Raise (AttributeError "'NoneType' object has no attribute 'get'")
     | Some d =>
         Ok ("🔍 " ++
             str (get_default (get d "message")
                              (PStr "No relevant documents found for your question.")))
     end)
    (fun _ => msg_no_documents).

(** [MetaRAGProcessorFixed.process_query]: its body is one [try] block
    whose handler returns a text and no document. *)
Definition process_query (query : string) : string * list Document :=
  try_except
    (if negb (truthy_str query) || (len (strip query) <? 3) then
       Ok (msg_short_question, [])
     else
       candidate_docs <- get_relevant_documents query ;;
       match candidate_docs with
       | [] => Ok (_handle_no_documents query, [])
       | _ :: _ =>
           match _local_relevance_filtering query candidate_docs with
           | [] => Ok (_handle_no_documents query, [])
           | relevant_docs =>
               Ok (_generate_comprehensive_answer query relevant_docs, relevant_docs)
           end
       end)
    (fun e =>
       if contains "422" (str_exn e) || contains "unprocessable entity" (lower (str_exn e))
       then (msg_validation, [])
       else ("❌ Error processing your question: " ++ slice_to 200 (str_exn e), [])).

End Query.

End MetaRAGProcessor.

(* ================================================================== *)
(** * src/services/ai_service.py *)
(* ================================================================== *)

Module AIService.

Import GeminiApiManager.

(** The process-wide state the pooled strategies act on: the credential
    pool ([gemini_manager]) and the clock. *)
Record World : Type := mkWorld {
  pool : Pool;
  now : time
}.

(** [gemini_manager.mark_api_result(...)] at the current clock. *)
Definition report (w : World) (api_index : Z) (success is_quota_error : bool) : World :=
  mkWorld (mark_api_result (now w) (pool w) api_index success is_quota_error) (now w).

Definition is_quota_message (error_msg : string) : bool :=
  contains "ResourceExhausted" error_msg || contains "quota" (lower error_msg).

Definition is_timeout_message (error_msg : string) : bool :=
  contains "timeout" (lower error_msg).

Definition is_422_message (error_msg : string) : bool :=
  contains "422" error_msg || contains "unprocessable entity" (lower error_msg).

Definition is_rate_limit_message (error_msg : string) : bool :=
  contains "rate limit" (lower error_msg) || contains "too many requests" (lower error_msg).

(** [self._get_recovery_time_message()]: the class defines no such method,
    the attribute access raises. *)
Definition _get_recovery_time_message : result string :=
  Raise (AttributeError "'AIService' object has no attribute '_get_recovery_time_message'").

(** Reading [actual_api_index] in the handler when the [try] block raised
    before binding it. *)
Definition read_local (actual_api_index : option Z) : result Z :=
  match actual_api_index with
  | Some i => Ok i
  | None =>
      Raise (UnboundLocalError
               "cannot access local variable 'actual_api_index' where it is not associated with a value")
  end.

(** Where control leaves a [try] block: the outcome, the binding of the
    local [actual_api_index] at that point, and the state. *)
Record Attempt (A : Type) : Type := mkAttempt {
  outcome : result A;
  bound_index : option Z;
  world : World
}.
Arguments mkAttempt {A} outcome bound_index world.
Arguments outcome {A} a.
Arguments bound_index {A} a.
Arguments world {A} a.

Section Strategies.

(** [api_keys.google_api_keys] *)
Variable google_api_keys : list string.

(** [ChatGoogleGenerativeAI(model, google_api_key).invoke(prompt).content] *)
Variable invoke : string -> string -> string -> result string.

(** [self.vector_service.get_retriever(api_key_index)]; the retriever itself
    is opaque. *)
Variable get_retriever : Z -> result unit.

(** [self._process_rag_query(question, retriever, llm)], which catches
    every exception of the retrieval, the reranking and the answer
    generation it performs; given by the key and the model of [llm]. *)
Variable _process_rag_query : string -> string -> string -> string * list raw_source.

(** [MetaLLM(debug=False).prompt_simple(message).get('message')] *)
Variable meta_prompt_simple : string -> result (option string).

(** [META_AI_AVAILABLE and MetaRAGProcessor is not None] *)
Variable META_AI_AVAILABLE : bool.

(** The flag [META_AI_AVAILABLE] of the processor's module: whether the
    package [meta_ai_api] is installed. *)
Variable meta_ai_api_installed : bool.

(** What [meta_rag.process_query(message, retriever)] depends on: the word
    search of the regular expression, the retrieval and the Meta AI
    call. *)
Variable findall_words : string -> list string.
Variable get_relevant_documents : string -> result (list MetaRAGProcessor.Document).
Variable meta_ai_prompt : string -> nat -> result (option mapping).

(** [AIService.create_gemini_llm]: the LLM is the prompt-to-content function
    of the key it was built with. *)
Definition create_gemini_llm (model : string) (api_key_index : Z)
  : result (string -> result string) :=
  api_key <- Config.get_api_key google_api_keys api_key_index ;;
  Ok (invoke model api_key).

(** The choice of the key at the head of both pooled strategies
    ([api_key_index] is an [int]; [-1] asks for random selection). *)
Definition acquire (w : World) (rnd : nat) (api_key_index : Z) : Attempt Z :=
  if api_key_index =? -1 then
    match get_api_key_with_fallback (now w) rnd (pool w) with
    | Ok sel =>
        mkAttempt (Ok (sel_index sel)) (Some (sel_index sel))
                  (mkWorld (sel_pool sel) (sel_now sel))
    | Raise e => mkAttempt (Raise e) None w
    end
  else mkAttempt (Ok api_key_index) (Some api_key_index) w.

(** The [try] block of [generate_gemini_response]. *)
Definition gemini_try (w : World) (rnd : nat) (message model : string) (api_key_index : Z)
  : Attempt string :=
  let a := acquire w rnd api_key_index in
  match outcome a with
  | Raise e => mkAttempt (Raise e) (bound_index a) (world a)
  | Ok actual_api_index =>
      match create_gemini_llm model actual_api_index with
      | Raise e => mkAttempt (Raise e) (bound_index a) (world a)
      | Ok llm =>
          match llm message with
          | Raise e => mkAttempt (Raise e) (bound_index a) (world a)
          | Ok response_content =>
              mkAttempt (Ok (strip response_content)) (bound_index a)
                        (report (world a) actual_api_index true false)
          end
      end
  end.

(** The inner [try] of the quota branch: one more attempt with another
    key; [None] when it falls through to the final [return]. *)
Definition gemini_retry (w : World) (rnd : nat) (message model : string) (actual_api_index : Z)
  : option string * World :=
  match get_api_key_with_fallback (now w) rnd (pool w) with
  | Raise _ => (None, w)
  | Ok sel =>
      let w1 := mkWorld (sel_pool sel) (sel_now sel) in
      let fallback_index := sel_index sel in
      if negb (fallback_index =? actual_api_index) then
        match create_gemini_llm model fallback_index with
        | Raise _ => (None, w1)
        | Ok llm =>
            match llm message with
            | Raise _ => (None, w1)
            | Ok response_content =>
                (Some (strip response_content), report w1 fallback_index true false)
            end
        end
      else (None, w1)
  end.

(** [AIService.generate_gemini_response]; [rnd] and [rnd_retry] are the
    random draws of the two key selections. *)
Definition generate_gemini_response (w : World) (rnd rnd_retry : nat)
           (message model : string) (api_key_index : Z) : result string * World :=
  let t := gemini_try w rnd message model api_key_index in
  match outcome t with
  | Ok answer => (Ok answer, world t)
  | Raise e =>
      let error_msg := str_exn e in
      match read_local (bound_index t) with
      | Raise unbound => (Raise unbound, world t)
      | Ok actual_api_index =>
          if is_quota_message error_msg then
            let w1 := report (world t) actual_api_index false true in
            match gemini_retry w1 rnd_retry message model actual_api_index with
            | (Some answer, w2) => (Ok answer, w2)
            | (None, w2) =>
                (recovery <- _get_recovery_time_message ;;
                 Ok ("⏱️ All API keys quota exhausted. Next recovery in " ++ recovery),
                 w2)
            end
          else if is_timeout_message error_msg then
            (Ok "⏰ Request timed out. Please try again with a shorter message.",
             report (world t) actual_api_index false false)
          else
            (Ok ("❌ Error generating answer: " ++ slice_to 200 (str_exn e)),
             report (world t) actual_api_index false false)
      end
  end.

(** [AIService.generate_meta_response] *)
Definition generate_meta_response (message : string) : string :=
  match meta_prompt_simple message with
  | Ok (Some m) => m
  | Ok None => "No response from Meta AI"
  | Raise e => "❌ Error with Meta AI: " ++ str_exn e
  end.

(** The [try] block of [generate_rag_response]. *)
Definition rag_try (w : World) (rnd : nat) (message model : string) (api_key_index : Z)
  : Attempt (string * list raw_source) :=
  let a := acquire w rnd api_key_index in
  match outcome a with
  | Raise e => mkAttempt (Raise e) (bound_index a) (world a)
  | Ok actual_api_index =>
      match Config.get_api_key google_api_keys actual_api_index with
      | Raise e => mkAttempt (Raise e) (bound_index a) (world a)
      | Ok api_key =>
          match get_retriever actual_api_index with
          | Raise e => mkAttempt (Raise e) (bound_index a) (world a)
          | Ok _ =>
              mkAttempt (Ok (_process_rag_query message api_key model)) (bound_index a)
                        (report (world a) actual_api_index true false)
          end
      end
  end.

Definition rag_retry (w : World) (rnd : nat) (message model : string) (actual_api_index : Z)
  : option (string * list raw_source) * World :=
  match get_api_key_with_fallback (now w) rnd (pool w) with
  | Raise _ => (None, w)
  | Ok sel =>
      let w1 := mkWorld (sel_pool sel) (sel_now sel) in
      let fallback_index := sel_index sel in
      if negb (fallback_index =? actual_api_index) then
        match Config.get_api_key google_api_keys fallback_index with
        | Raise _ => (None, w1)
        | Ok api_key =>
            match get_retriever fallback_index with
            | Raise _ => (None, w1)
            | Ok _ =>
                (Some (_process_rag_query message api_key model),
                 report w1 fallback_index true false)
            end
        end
      else (None, w1)
  end.

(** [AIService.generate_rag_response] *)
Definition generate_rag_response (w : World) (rnd rnd_retry : nat)
           (message model : string) (api_key_index : Z)
  : result (string * list raw_source) * World :=
  let t := rag_try w rnd message model api_key_index in
  match outcome t with
  | Ok r => (Ok r, world t)
  | Raise e =>
      let error_msg := str_exn e in
      match read_local (bound_index t) with
      | Raise unbound => (Raise unbound, world t)
      | Ok actual_api_index =>
          if is_quota_message error_msg then
            let w1 := report (world t) actual_api_index false true in
            match rag_retry w1 rnd_retry message model actual_api_index with
            | (Some r, w2) => (Ok r, w2)
            | (None, w2) =>
                (recovery <- _get_recovery_time_message ;;
                 Ok ("⏱️ RAG: All API keys quota exhausted. Next recovery in " ++ recovery, []),
                 w2)
            end
          else if is_timeout_message error_msg then
            (Ok ("⏰ RAG: Request timed out. Please try again.", []),
             report (world t) actual_api_index false false)
          else
            (Ok ("❌ Error with RAG: " ++ slice_to 200 (str_exn e), []),
             report (world t) actual_api_index false false)
      end
  end.

(** The three messages [generate_meta_rag_response] answers a malformed
    request (HTTP 422) with. *)
Definition msg_422_answer : string :=
  "❌ Unable to process your question due to content validation issues. Please try rephrasing your question or asking about a different topic.".

Definition msg_422_processing : string :=
  "❌ HTTP 422 Error: The request could not be processed. This may be due to content validation issues or API restrictions. Please try rephrasing your question.".

Definition msg_422_outer : string :=
  "❌ HTTP 422 Error: Unable to process request. Please try rephrasing your question.".

(** The handlers of the inner [try] of [generate_meta_rag_response]:
    [except ImportError] first, then [except Exception]. *)
Definition meta_rag_inner_handler (e : exn) : string * list raw_source :=
  if is_ImportError e then ("❌ MetaRAG initialization failed: " ++ str_exn e, [])
  else
    let error_msg := str_exn e in
    if is_422_message error_msg then (msg_422_processing, [])
    else if is_rate_limit_message error_msg then
      ("⏱️ Rate limit reached with Meta AI. Please wait a moment before trying again.", [])
    else if is_timeout_message error_msg then
      ("⏰ Request timed out. Please try again with a shorter or simpler question.", [])
    else ("❌ MetaRAG processing error: " ++ slice_to 200 (str_exn e), []).

(** A document of the processor, as a source of the strategy. *)
Definition as_source (doc : MetaRAGProcessor.Document) : raw_source :=
  RDoc (MetaRAGProcessor.doc_page_content doc) (Some (MetaRAGProcessor.doc_metadata doc)).

(** [AIService.generate_meta_rag_response].  It reads neither the pool
    nor the clock; the state is threaded through to say so. *)
Definition generate_meta_rag_response (w : World) (message : string)
  : (string * list raw_source) * World :=
  if negb META_AI_AVAILABLE then
    (("❌ MetaRAG is not available. Meta AI API may not be installed.", []), w)
  else
    match get_retriever 0 with
    | Raise e =>
        let error_msg := str_exn e in
        if is_422_message error_msg then ((msg_422_outer, []), w)
        else (("❌ Error with MetaRAG: " ++ slice_to 200 (str_exn e), []), w)
    | Ok _ =>
        let inner :=
          _ <- MetaRAGProcessor.__init__ meta_ai_api_installed ;;
          let '(answer, relevant_docs) :=
            MetaRAGProcessor.process_query findall_words get_relevant_documents
                                           meta_ai_prompt message in
          if is_422_message answer then Ok (msg_422_answer, [])
          else Ok (answer, map as_source relevant_docs) in
        (try_except inner meta_rag_inner_handler, w)
    end.

End Strategies.

End AIService.

(* ================================================================== *)
(** * src/utils/session_manager.py, src/services/usage_service.py and
      src/services/session_service.py *)
(* ================================================================== *)

Module SessionStore.

(** The tables of src/utils/db_models.py, each as the list of its rows in
    insertion order.  The time-stamp columns are left out; every query is
    taken to succeed. *)
Record SessionRow : Type := mkSessionRow {
  sess_id : string;
  sess_name : string
}.

Record MessageRow : Type := mkMessageRow {
  msg_session_id : string;
  msg_role : string;
  msg_content : string;
  msg_ai_type : option string;
  msg_sources : option (list SourceDict) (* the JSON column; [None] is NULL *)
}.

Record SourceRow : Type := mkSourceRow {
  src_session_id : string;
  src_name : pyval;
  src_content : string;
  src_metadata : mapping;
  src_document_type : string
}.

Record Store : Type := mkStore {
  sessions : list SessionRow;
  messages : list MessageRow;
  sources : list SourceRow;
  usage_stats : list (string * Z);        (* table [usage_stats] *)
  service_usage_stats : list (string * Z) (* [SessionService.usage_stats] *)
}.

Definition set_sessions (st : Store) (x : list SessionRow) : Store :=
  mkStore x (messages st) (sources st) (usage_stats st) (service_usage_stats st).

Definition set_messages (st : Store) (x : list MessageRow) : Store :=
  mkStore (sessions st) x (sources st) (usage_stats st) (service_usage_stats st).

Definition set_sources (st : Store) (x : list SourceRow) : Store :=
  mkStore (sessions st) (messages st) x (usage_stats st) (service_usage_stats st).

Definition set_usage_stats (st : Store) (x : list (string * Z)) : Store :=
  mkStore (sessions st) (messages st) (sources st) x (service_usage_stats st).

Definition set_service_usage_stats (st : Store) (x : list (string * Z)) : Store :=
  mkStore (sessions st) (messages st) (sources st) (usage_stats st) x.

(** The session's turns: the rows of [messages] that belong to it. *)
Definition session_messages (st : Store) (session_id : string) : list MessageRow :=
  filter (fun m => String.eqb (msg_session_id m) session_id) (messages st).

Definition session_source_rows (st : Store) (session_id : string) : list SourceRow :=
  filter (fun s => String.eqb (src_session_id s) session_id) (sources st).

(** "Create session if it doesn't exist" *)
Definition ensure_session (st : Store) (session_id : string) : Store :=
  if existsb (fun s => String.eqb (sess_id s) session_id) (sessions st) then st
  else set_sessions st (sessions st ++ [mkSessionRow session_id "New Chat"]).

(** [stat.count += 1] on the first row for [ai_type], or a new row. *)
Fixpoint bump (stats : list (string * Z)) (ai_type : string) (initial : Z) : list (string * Z) :=
  match stats with
  | [] => [(ai_type, initial)]
  | (k, n) :: rest =>
      if String.eqb k ai_type then (k, n + 1) :: rest
      else (k, n) :: bump rest ai_type initial
  end.

(** [SessionManager.add_message] *)
Definition add_message (st : Store) (session_id role content : string)
           (ai_type : option string) (srcs : list SourceDict) : Store :=
  let st1 := ensure_session st session_id in
  let message_sources := match srcs with [] => None | _ :: _ => Some srcs end in
  let st2 :=
    set_messages st1
      (messages st1 ++ [mkMessageRow session_id role content ai_type message_sources]) in
  match ai_type with
  | Some t => if truthy_str t then set_usage_stats st2 (bump (usage_stats st2) t 1) else st2
  | None => st2
  end.

Definition source_key : Type := pyval * string.

Definition source_key_eqb (a b : source_key) : bool :=
  pyval_eqb (fst a) (fst b) && String.eqb (snd a) (snd b).

(** What a [String] column gives back for the value written to it: the
    database (SQLite, the default of src/utils/database.py) stores a number
    in its text form; a string and [None] come back as they are. *)
Definition column_string (v : pyval) : pyval :=
  match v with
  | PInt n => PStr (str_of_Z n)
  | _ => v
  end.

(** [SessionManager.add_sources], on dictionaries.  The key of an incoming
    source is built from its name as given; the row holds the name as the
    column stores it. *)
Fixpoint add_source_rows (session_id : string) (srcs : list SourceDict)
         (existing_source_keys : list source_key) : list SourceRow :=
  match srcs with
  | [] => []
  | source :: rest =>
      let name := Sources.name source in
      let content :=
        if truthy_str (Sources.content source) then Sources.content source
        else Sources.preview source in
      let key := (name, slice_to 100 content) in
      if mem source_key_eqb key existing_source_keys
      then add_source_rows session_id rest existing_source_keys
      else mkSourceRow session_id (column_string name) content (Sources.metadata source)
                       (Sources.document_type source)
           :: add_source_rows session_id rest (key :: existing_source_keys)
  end.

Definition add_sources (st : Store) (session_id : string) (srcs : list SourceDict) : Store :=
  let st1 := ensure_session st session_id in
  let existing_source_keys :=
    map (fun s => (src_name s, slice_to 100 (src_content s)))
        (session_source_rows st1 session_id) in
  set_sources st1 (sources st1 ++ add_source_rows session_id srcs existing_source_keys).

(** [UsageService._initialize_stats] *)
Definition default_modes : list string := ["RAG"; "Gemini"; "Meta"; "MetaRAG"].

Definition _initialize_stats (stats : list (string * Z)) : list (string * Z) :=
  fold_left
    (fun acc mode =>
       if existsb (fun e => String.eqb (fst e) mode) acc then acc
       else (acc ++ [(mode, 0)])%list)
    default_modes stats.

(** [UsageService.increment_usage] *)
Definition increment_usage (st : Store) (ai_mode : string) : Store :=
  set_usage_stats st (bump (usage_stats st) ai_mode 1).

(** [SessionService.add_user_message] *)
Definition add_user_message (st : Store) (session_id message : string) : Store :=
  add_message st session_id "user" message None [].

(** [SessionService.add_assistant_message] *)
Fixpoint bump_known (stats : list (string * Z)) (ai_type : string) : list (string * Z) :=
  match stats with
  | [] => []
  | (k, n) :: rest =>
      if String.eqb k ai_type then (k, n + 1) :: rest
      else (k, n) :: bump_known rest ai_type
  end.

Definition add_assistant_message (st : Store) (session_id message ai_type : string)
           (srcs : list SourceDict) : Store :=
  let st1 := add_message st session_id "assistant" message (Some ai_type) srcs in
  set_service_usage_stats st1 (bump_known (service_usage_stats st1) ai_type).

(** [SessionService.get_session_sources]: one [SourceItem] per dictionary
    that [SessionManager.get_sources] builds from a row. *)
Definition get_session_sources (st : Store) (session_id : string) : list SourceItem :=
  map (fun s =>
         mkSourceItem (src_name s) (Some (src_content s)) None
                      (Some (src_document_type s)) (Some (src_metadata s)))
      (session_source_rows st session_id).

(** [SessionService.add_sources_to_session], on dictionaries. *)
Definition add_sources_to_session (st : Store) (session_id : string)
           (srcs : list SourceDict) : Store :=
  add_sources st session_id srcs.

(** [SessionService.validate_ai_modes] *)
Definition validate_ai_modes (ai_modes : list string) : bool :=
  forallb (fun mode => mem String.eqb mode Config.AI_MODES) ai_modes.

End SessionStore.

(* ================================================================== *)
(** * src/services/chat_orchestrator.py *)
(* ================================================================== *)

Module ChatOrchestrator.

(** [ChatRequest] and [ChatResponse] of src/models/schemas.py *)
Record ChatRequest : Type := mkChatRequest {
  session_id : string;
  message : string;
  ai_modes : list string;
  api_key_index : Z;
  gemini_model : string
}.

Record ChatResponse : Type := mkChatResponse {
  answer : option string;
  answers : option (list string);
  sources : option (list SourceItem);
  message_sources : option (list (list SourceDict))
}.

(** ** Source formatting *)

(** [f"{label} {index + 1}"] *)
Definition numbered (label : string) (index : Z) : string :=
  label ++ " " ++ str_of_Z (index + 1).

(** [sub in v]: only a string can be searched. *)
Definition contains_in (sub : string) (v : pyval) : result bool :=
  match v with
  | PStr s => Ok (contains sub s)
  | _ => Raise (TypeError ("argument of type '" ++ type_name_of v ++ "' is not iterable"))
  end.

(** [v.split(sep)[-1]], reached for strings only. *)
Definition basename_after (sep : ascii) (v : pyval) : pyval :=
  match v with
  | PStr s => PStr (split_last sep s)
  | _ => v
  end.

(** [text[:200] + "..." if len(text) > 200 else text] *)
Definition preview_of (text : string) : string :=
  if 200 <? len text then slice_to 200 text ++ "..." else text.

(** [ChatOrchestrator._create_fallback_source] *)
Definition _create_fallback_source (index : Z) (error_msg : string) : SourceDict :=
  {| name := PStr (numbered "Error Source" index);
     content := "Error formatting source: " ++ error_msg;
     preview := "Error: " ++ slice_to 100 error_msg;
     document_type := "error";
     metadata := [] |}.

(** The name of a document: the last path component of its
    [metadata["source"]]. *)
Definition document_name (md : mapping) (index : Z) : result pyval :=
  let default := PStr (numbered "Source" index) in
  let name := get_default (get md "source") default in
  if negb (pyval_eqb name default) then
    has_slash <- contains_in "/" name ;;
    if has_slash then Ok (basename_after "/"%char name)
    else
      has_backslash <- contains_in "\" name ;;
      if has_backslash then Ok (basename_after "\"%char name)
      else Ok name
  else Ok name.

(** The [try] block of [_format_single_source]. *)
Definition format_body (source : raw_source) (source_type : string) (index : Z)
  : result SourceDict :=
  match source with
  | RDoc page_content md =>
      let md' := match md with Some m => m | None => [] end in
      name <- document_name md' index ;;
      Ok {| name := name;
            content := slice_to 500 page_content;
            preview := preview_of page_content;
            document_type := source_type;
            metadata := [] |}
  | RDict d =>
      let text := str (get_default (rd_content d) (PStr "")) in
      Ok {| name := get_default (rd_name d) (PStr (numbered "Source" index));
            content := slice_to 500 text;
            preview := preview_of text;
            document_type := source_type;
            metadata := match rd_metadata d with Some m => m | None => [] end |}
  | RStr s =>
      Ok {| name := PStr (numbered "Text Source" index);
            content := slice_to 500 s;
            preview := preview_of s;
            document_type := source_type;
            metadata := [] |}
  | ROther str_form =>
      Ok {| name := PStr (numbered "Unknown Source" index);
            content := slice_to 500 str_form;
            preview := preview_of str_form;
            document_type := source_type;
            metadata := [] |}
  | RFaulty e => Raise e
  end.

(** [ChatOrchestrator._format_single_source] *)
Definition _format_single_source (source : raw_source) (source_type : string) (index : Z)
  : SourceDict :=
  try_except (format_body source source_type index)
             (fun e => _create_fallback_source index (str_exn e)).

(** [ChatOrchestrator._safely_format_sources]; the dictionary that
    [_format_single_source] returns is never empty, so every source is
    appended. *)
Fixpoint format_from (i : Z) (srcs : list raw_source) (source_type : string)
  : list SourceDict :=
  match srcs with
  | [] => []
  | source :: rest =>
      _format_single_source source source_type i :: format_from (i + 1) rest source_type
  end.

Definition _safely_format_sources (srcs : list raw_source) (source_type : string)
  : list SourceDict :=
  format_from 0 srcs source_type.

(** ** Deduplication *)

Definition identifier : Type := pyval * string.

Definition identifier_eqb (a b : identifier) : bool :=
  pyval_eqb (fst a) (fst b) && String.eqb (snd a) (snd b).

(** The identifier of a source the session already has (a [SourceItem]):
    [(source.name or "Unknown", (source.content or "")[:100])]. *)
Definition existing_identifier (source : SourceItem) : identifier :=
  (if truthy (si_name source) then si_name source else PStr "Unknown",
   slice_to 100 (match si_content source with Some c => c | None => "" end)).

(** The identifier of a new source (a dictionary):
    [(source.get('name', 'Unknown'), str(source.get('content', ''))[:100])]. *)
Definition new_identifier (source : SourceDict) : identifier :=
  (name source, slice_to 100 (content source)).

(** The filtering loop; [existing_identifiers] is the set, as the list of
    what was added to it. *)
Fixpoint filter_unique (new_sources : list SourceDict)
         (existing_identifiers : list identifier) : list SourceDict :=
  match new_sources with
  | [] => []
  | source :: rest =>
      let ident := new_identifier source in
      if mem identifier_eqb ident existing_identifiers
      then filter_unique rest existing_identifiers
      else source :: filter_unique rest (ident :: existing_identifiers)
  end.

(** [unique_sources] of [_add_unique_sources_to_session] *)
Definition unique_sources (existing_sources : list SourceItem)
           (new_sources : list SourceDict) : list SourceDict :=
  filter_unique new_sources (map existing_identifier existing_sources).

(** [ChatOrchestrator._add_unique_sources_to_session] *)
Definition _add_unique_sources_to_session (st : SessionStore.Store) (sid : string)
           (new_sources : list SourceDict) : SessionStore.Store :=
  let existing_sources := SessionStore.get_session_sources st sid in
  match unique_sources existing_sources new_sources with
  | [] => st
  | u => SessionStore.add_sources_to_session st sid u
  end.

(** ** Usage statistics *)

Definition standardize (mode : string) : string :=
  if mem String.eqb mode ["MeRag"; "Meta+RAG"; "SmartRAG"] then "MetaRAG" else mode.

(** [ChatOrchestrator._update_usage_statistics]; [get_usage_service()]
    makes sure the default rows exist. *)
Definition _update_usage_statistics (st : SessionStore.Store) (modes : list string)
  : SessionStore.Store :=
  let st0 :=
    SessionStore.set_usage_stats st
      (SessionStore._initialize_stats (SessionStore.usage_stats st)) in
  fold_left (fun s mode => SessionStore.increment_usage s (standardize mode)) modes st0.

(** ** Responses *)

(** [ChatOrchestrator._create_safe_response]; [safe_to_dict] maps a
    [SourceItem] to the dictionary of its fields and leaves dictionaries of
    scalars as they are. *)
Definition _create_safe_response (answer_list : list string)
           (session_sources : list SourceItem)
           (per_mode_sources : list (list SourceDict)) : ChatResponse :=
  match answer_list with
  | [a] => mkChatResponse (Some a) None (Some session_sources) (Some per_mode_sources)
  | _ => mkChatResponse None (Some answer_list) (Some session_sources) (Some per_mode_sources)
  end.

(** [ChatOrchestrator._create_error_response] *)
Definition _create_error_response (error_message : string) : ChatResponse :=
  mkChatResponse (Some ("❌ Error: " ++ error_message)) None (Some []) (Some []).

(** ** The strategy tasks *)

(** What [asyncio.gather(..., return_exceptions=True)] holds for one task:
    the tuple it returned, or the exception it raised. *)
Inductive gathered : Type :=
| Returned (mode answer_text : string) (srcs : list raw_source)
           (formatted_sources : list SourceDict)
| Excepted (e : exn).

Definition code_note : string :=
  "  note: If your response includes any code (e.g., HTML, CSS, JavaScript, Python, etc.), please wrap it inside a <pre><code>...</code></pre> block to preserve formatting and make it easy to copy. For example:<pre><code><!-- code goes here --></code></pre>Ensure the entire code is valid, indented properly, and self-contained if relevant.".

Section Tasks.

(** The four methods of [AIService], as the orchestrator calls them. *)
Variable generate_gemini_response : string -> string -> Z -> result string.
Variable generate_meta_response : string -> result string.
Variable generate_rag_response : string -> string -> Z -> result (string * list raw_source).
Variable generate_meta_rag_response : string -> result (string * list raw_source).

(** Whether [_generate_with_timeout()] for a mode returns within the 30
    seconds [asyncio.wait_for] gives it. *)
Variable within_30s : string -> bool.

(** Whether the task at a position of the request has completed when the
    60 seconds of the join are over. *)
Variable done_by_deadline : nat -> bool.

(** [_generate_with_timeout] of [_generate_response_for_mode] *)
Definition _generate_with_timeout (mode : string) (req : ChatRequest)
  : string * list raw_source :=
  try_except
    (if String.eqb mode "Gemini" then
       a <- generate_gemini_response (message req) (gemini_model req) (api_key_index req) ;;
       Ok (a, [])
     else if String.eqb mode "Meta" then
       a <- generate_meta_response (message req ++ code_note) ;;
       Ok (a, [])
     else if String.eqb mode "RAG" then
       generate_rag_response (message req) (gemini_model req) (api_key_index req)
     else if String.eqb mode "MetaRAG" then
       generate_meta_rag_response (message req)
     else Ok ("❌ Unknown AI mode: " ++ mode, []))
    (fun e => ("❌ Error in " ++ mode ++ " mode: " ++ str_exn e, [])).

(** [ChatOrchestrator._generate_response_for_mode] *)
Definition _generate_response_for_mode (mode : string) (req : ChatRequest)
  : string * list raw_source :=
  if within_30s mode then _generate_with_timeout mode req
  else ("⏰ " ++ mode ++ ": Request timed out after 30 seconds. Please try again.", []).

(** [process_single_mode] of [process_chat_request]; nothing in its [try]
    block raises. *)
Definition process_single_mode (req : ChatRequest) (mode : string) : gathered :=
  let '(answer_text, srcs) := _generate_response_for_mode mode req in
  let formatted_sources := _safely_format_sources srcs (lower mode) in
  Returned mode answer_text srcs formatted_sources.

(** The three accumulators of the aggregation loop. *)
Record Aggregate : Type := mkAggregate {
  agg_answers : list string;
  agg_all_sources : list SourceDict;
  agg_message_sources : list (list SourceDict)
}.

(** The loop [for i, result in enumerate(mode_results)], from position [i]. *)
Fixpoint collect (req : ChatRequest) (i : Z) (mode_results : list gathered)
         (acc : Aggregate) (st : SessionStore.Store)
  : result Aggregate * SessionStore.Store :=
  match mode_results with
  | [] => (Ok acc, st)
  | Excepted e :: rest =>
      match getitem (ai_modes req) i with
      | Raise ex => (Raise ex, st)
      | Ok mode =>
          let error_msg := "❌ " ++ mode ++ " failed: " ++ slice_to 200 (str_exn e) in
          collect req (i + 1) rest
                  (mkAggregate (agg_answers acc ++ [error_msg])
                               (agg_all_sources acc)
                               (agg_message_sources acc ++ [[]]))
                  st
      end
  | Returned mode answer_text _ formatted_sources :: rest =>
      collect req (i + 1) rest
              (mkAggregate (agg_answers acc ++ [answer_text])
                           (agg_all_sources acc ++ formatted_sources)
                           (agg_message_sources acc ++ [formatted_sources]))
              (SessionStore.add_assistant_message st (session_id req) answer_text mode
                                                  formatted_sources)
  end.

(** The [except asyncio.TimeoutError] branch. *)
Definition timeout_aggregate (req : ChatRequest) : Aggregate :=
  mkAggregate
    (map (fun mode => "⏰ " ++ mode ++ ": Request timed out after 60 seconds") (ai_modes req))
    []
    (map (fun _ => []) (ai_modes req)).

(** [asyncio.wait_for] of [asyncio.gather] over the tasks, with
    [return_exceptions=True] and a timeout of 60 seconds:
    the results in task order when every task is done by the deadline,
    [TimeoutError] ([None]) otherwise. *)
Definition join (req : ChatRequest) : option (list gathered) :=
  if forallb done_by_deadline (seq 0 (List.length (ai_modes req)))
  then Some (map (process_single_mode req) (ai_modes req))
  else None.

(** [repr] of a list of strings, for names without quotes or escapes. *)
Definition repr_list (l : list string) : string :=
  "[" ++ String.concat ", " (map (fun s => "'" ++ s ++ "'") l) ++ "]".

(** [ChatOrchestrator.process_chat_request]: what it returns or raises,
    and the store it leaves. *)
Definition process_chat_request (req : ChatRequest) (st : SessionStore.Store)
  : result ChatResponse * SessionStore.Store :=
  if negb (SessionStore.validate_ai_modes (ai_modes req)) then
    let invalid_modes :=
      filter (fun mode => negb (mem String.eqb mode Config.AI_MODES)) (ai_modes req) in
    (Raise (ValueError ("Invalid AI modes: " ++ repr_list invalid_modes)), st)
  else
    let st1 := SessionStore.add_user_message st (session_id req) (message req) in
    let '(aggregated, st2) :=
      match join req with
      | Some mode_results => collect req 0 mode_results (mkAggregate [] [] []) st1
      | None => (Ok (timeout_aggregate req), st1)
      end in
    match aggregated with
    | Raise (ValueError m) => (Raise (ValueError m), st2)
    | Raise e => (Ok (_create_error_response (str_exn e)), st2)
    | Ok agg =>
        let st3 :=
          match agg_all_sources agg with
          | [] => st2
          | all_sources => _add_unique_sources_to_session st2 (session_id req) all_sources
          end in
        let st4 := _update_usage_statistics st3 (ai_modes req) in
        let session_sources := SessionStore.get_session_sources st4 (session_id req) in
        (Ok (_create_safe_response (agg_answers agg) session_sources
                                   (agg_message_sources agg)),
         st4)
    end.

End Tasks.

End ChatOrchestrator.

(* ================================================================== *)
(** * The specification's reading of two operations, and test scenarios *)
(* ================================================================== *)

Module SpecModel.

Import ChatOrchestrator.

(** Every element of a list together with the elements before it. *)
Fixpoint with_earlier {A} (earlier : list A) (l : list A) : list (list A * A) :=
  match l with
  | [] => []
  | a :: rest => (earlier, a) :: with_earlier (earlier ++ [a])%list rest
  end.

(** [dedupe] in the words of the specification: of the incoming records,
    those whose identity is absent from the existing identities, and of
    several incoming records with one identity the first only.  [known]
    are the identities of the existing records. *)
Definition dedupe_spec (known : list identifier) (incoming : list SourceDict)
  : list SourceDict :=
  map snd
      (filter
         (fun p =>
            negb (mem identifier_eqb (new_identifier (snd p)) known) &&
            negb (mem identifier_eqb (new_identifier (snd p))
                      (map new_identifier (fst p))))
         (with_earlier [] incoming)).

Section Outcomes.

Variable generate_gemini_response : string -> string -> Z -> result string.
Variable generate_meta_response : string -> result string.
Variable generate_rag_response : string -> string -> Z -> result (string * list raw_source).
Variable generate_meta_rag_response : string -> result (string * list raw_source).
Variable within_30s : string -> bool.
Variable done_by_deadline : nat -> bool.

(** The outcome entry of one requested strategy: what its task produced,
    or the time-out text when the join of the request timed out. *)
Definition outcome_text (req : ChatRequest) (mode : string) : string :=
  if forallb done_by_deadline (seq 0 (List.length (ai_modes req)))
  then fst (_generate_response_for_mode generate_gemini_response generate_meta_response
                                        generate_rag_response generate_meta_rag_response
                                        within_30s mode req)
  else "⏰ " ++ mode ++ ": Request timed out after 60 seconds".

(** The formatted sources listed for one requested strategy. *)
Definition outcome_sources (req : ChatRequest) (mode : string) : list SourceDict :=
  if forallb done_by_deadline (seq 0 (List.length (ai_modes req)))
  then _safely_format_sources
         (snd (_generate_response_for_mode generate_gemini_response generate_meta_response
                                           generate_rag_response generate_meta_rag_response
                                           within_30s mode req))
         (lower mode)
  else [].

End Outcomes.

End SpecModel.

Module Scenarios.

Import GeminiApiManager AIService.



(** A store without rows. *)
Definition empty_store : SessionStore.Store := SessionStore.mkStore [] [] [] [] [].

End Scenarios.

(* ================================================================== *)
(** * src/utils/gemini_api_manager.py: the status summary *)
(* ================================================================== *)

Module PoolStatus.

Import GeminiApiManager.

(** One entry of [summary["details"]]. *)
Record KeyDetail : Type := mkKeyDetail {
  detail_is_available : bool;
  detail_is_quota_exhausted : bool;
  detail_consecutive_failures : Z;
  detail_last_used : time
}.

(** The dictionary [get_status_summary] returns. *)
Record StatusSummary : Type := mkStatusSummary {
  total_keys : Z;
  available : Z;
  quota_exhausted : Z;
  disabled : Z;
  details : list (Z * KeyDetail)
}.

(** A call of [status.is_quota_exhausted()] when the clock has been read
    [n] times: [time.time()] is read anew, and only for a key that carries
    a stamp.  [clock n] is the reading number [n] of the call of
    [get_status_summary]. *)
Definition read_quota_exhausted (clock : nat -> time) (n : nat) (status : ApiKeyStatus)
  : bool * nat :=
  match quota_exhausted_at status with
  | None => (false, n)
  | Some _ => (is_quota_exhausted (clock n) status, S n)
  end.

(** The loop of [get_available_keys], reading by reading:
    [status.is_available and not status.is_quota_exhausted()]. *)
Fixpoint available_keys_from (clock : nat -> time) (n : nat) (l : list (Z * ApiKeyStatus))
  : list Z * nat :=
  match l with
  | [] => ([], n)
  | e :: rest =>
      if is_available (snd e) then
        let (exhausted, n1) := read_quota_exhausted clock n (snd e) in
        let (available, n2) := available_keys_from clock n1 rest in
        (if exhausted then available else fst e :: available, n2)
      else available_keys_from clock n rest
  end.

(** One round of the loop over [self.api_statuses.items()]: the key is
    asked twice whether it is exhausted, once for the counters and once
    for its entry in the details. *)
Definition summary_step (clock : nat -> time) (acc : StatusSummary * nat)
           (e : Z * ApiKeyStatus) : StatusSummary * nat :=
  let (summary, n) := acc in
  let status := snd e in
  let (exhausted, n1) := read_quota_exhausted clock n status in
  let quota_exhausted' :=
    if exhausted then quota_exhausted summary + 1 else quota_exhausted summary in
  let disabled' :=
    if exhausted then disabled summary
    else if negb (is_available status) then disabled summary + 1
    else disabled summary in
  let (exhausted_again, n2) := read_quota_exhausted clock n1 status in
  (mkStatusSummary
     (total_keys summary) (available summary) quota_exhausted' disabled'
     (details summary ++
      [(fst e, mkKeyDetail (is_available status) exhausted_again
                           (consecutive_failures status) (last_used status))])%list,
   n2).

(** [GeminiApiManager.get_status_summary]; the available keys are counted
    while the dictionary is built, before the loop. *)
Definition get_status_summary (clock : nat -> time) (pool : Pool) : StatusSummary :=
  let (available_keys, n) := available_keys_from clock 0 (items pool) in
  fst (fold_left (summary_step clock) (items pool)
                 (mkStatusSummary (Z.of_nat (List.length pool))
                                  (Z.of_nat (List.length available_keys))
                                  0 0 [],
                  n)).

End PoolStatus.

(* ================================================================== *)
(** * src/services/usage_service.py and src/api/chat_routes.py: what the
      routes read and answer *)
(* ================================================================== *)

Module UsageService.

(** The dictionary [{stat.ai_type: stat.count for stat in stats}], read at
    one key: a later row of the same type overwrites an earlier one. *)
Fixpoint stats_dict (rows : list (string * Z)) (ai_type : string) : option Z :=
  match rows with
  | [] => None
  | (k, n) :: rest =>
      match stats_dict rest ai_type with
      | Some later => Some later
      | None => if String.eqb k ai_type then Some n else None
      end
  end.

(** [UsageService.get_stats] (and [SessionManager.get_usage_stats]) *)
Definition get_stats (st : SessionStore.Store) (ai_type : string) : option Z :=
  stats_dict (SessionStore.usage_stats st) ai_type.

End UsageService.

Module ChatRoutes.

Import ChatOrchestrator.

(** What the route hands to FastAPI: the response model, or an
    [HTTPException]. *)
Inductive http_result : Type :=
| Response200 (body : ChatResponse)
| HTTPException (status_code : Z) (detail : string).

(** [chat_endpoint], over the orchestrator's [process_chat_request]. *)
Definition chat_endpoint
           (process_chat_request :
              ChatRequest -> SessionStore.Store -> result ChatResponse * SessionStore.Store)
           (request : ChatRequest) (st : SessionStore.Store)
  : http_result * SessionStore.Store :=
  match process_chat_request request st with
  | (Ok response, st') => (Response200 response, st')
  | (Raise (ValueError m), st') => (HTTPException 400 m, st')
  | (Raise e, st') => (HTTPException 500 ("Internal server error: " ++ str_exn e), st')
  end.

End ChatRoutes.

(* ================================================================== *)
(** * src/services/ai_service.py: the retrieval pipeline of the RAG
      strategy *)
(* ================================================================== *)

Module RagPipeline.

(** The floats a score can be: [float()] of a match of the pattern
    (digits, with an optional fraction) is a finite number or, for a very
    long run of digits, [inf]; it is never NaN. *)
Inductive pyfloat : Type :=
| Finite (q : Q)
| Infinity.

(** [a >= b] *)
Definition float_ge (a b : pyfloat) : bool :=
  match a, b with
  | Infinity, _ => true
  | Finite _, Infinity => false
  | Finite x, Finite y => Qle_bool y x
  end.

(** A list in descending order of a key: every element is at least every
    later one. *)
Inductive Descending {A} (key : A -> pyfloat) : list A -> Prop :=
| Descending_nil : Descending key []
| Descending_cons (a : A) (l : list A) :
    (forall b, In b l -> float_ge (key a) (key b) = true) ->
    Descending key l -> Descending key (a :: l).

Section Pipeline.

Variable Document : Type.

(** What the scoring call gives for a question and a document: the number
    [float(score_match.group())] of the LLM's answer, [None] when the
    answer holds no number, or the exception the call raised. *)
Variable scored : string -> Document -> result (option pyfloat).

(** [retriever.get_relevant_documents] *)
Variable get_relevant_documents : string -> result (list Document).

(** [AIService._generate_answer_from_docs]: its body is one [try] block
    whose handler returns a text, so it returns a text. *)
Variable _generate_answer_from_docs : string -> list Document -> string.

Definition relevance_threshold : pyfloat := Finite 6.
Definition top_docs_count : nat := 10.

(** [AIService._score_document_relevance] *)
Definition _score_document_relevance (question : string) (doc : Document) : pyfloat :=
  try_except
    (score_match <- scored question doc ;;
     match score_match with
     | Some score => Ok score
     | None => Ok (Finite 5)
     end)
    (fun _ => Finite 5).

(** [scored_docs.sort(key=lambda x: x[1], reverse=True)]: the stable sort
    into descending order, as the insertion that keeps an element in front
    of the later elements of the same key. *)
Fixpoint insert_by_score (x : Document * pyfloat) (l : list (Document * pyfloat))
  : list (Document * pyfloat) :=
  match l with
  | [] => [x]
  | y :: rest =>
      if float_ge (snd x) (snd y) then x :: y :: rest
      else y :: insert_by_score x rest
  end.

Definition sort_descending (l : list (Document * pyfloat)) : list (Document * pyfloat) :=
  fold_right insert_by_score [] l.

(** The loop of [_rerank_documents] that fills [scored_docs]. *)
Definition scored_docs (question : string) (docs : list Document)
  : list (Document * pyfloat) :=
  filter (fun p => float_ge (snd p) relevance_threshold)
         (map (fun doc => (doc, _score_document_relevance question doc)) docs).

(** [AIService._rerank_documents], with [top_n] left at its default. *)
Definition _rerank_documents (question : string) (docs : list Document) : list Document :=
  map fst (firstn top_docs_count (sort_descending (scored_docs question docs))).

(** [AIService._process_rag_query] *)
Definition _process_rag_query (question : string) : string * list Document :=
  try_except
    (docs <- get_relevant_documents question ;;
     match docs with
     | [] => Ok ("No relevant documents found in the database.", [])
     | _ :: _ =>
         let relevant_docs := _rerank_documents question docs in
         let relevant_docs :=
           match relevant_docs with
           | [] => firstn 3 docs
           | _ :: _ => relevant_docs
           end in
         Ok (_generate_answer_from_docs question relevant_docs, relevant_docs)
     end)
    (fun e => ("❌ Error processing RAG query: " ++ str_exn e, [])).

End Pipeline.

End RagPipeline.

(* ================================================================== *)
(** * Facts about the Python primitives *)
(* ================================================================== *)

Module PyFacts.

Lemma pyval_eqb_spec (a b : pyval) : reflect (a = b) (pyval_eqb a b).
Proof.
  destruct a as [|s|x], b as [|t|y]; simpl; try (constructor; congruence).
  - destruct (String.eqb_spec s t); constructor; congruence.
  - destruct (Z.eqb_spec x y); constructor; congruence.
Qed.

Lemma slice_to_length (n : nat) (s : string) :
  String.length (slice_to n s) = Nat.min n (String.length s).
Proof.
  revert s; induction n as [|n IH]; intros [|c s]; simpl; auto.
Qed.

Lemma slice_to_le (n : nat) (s : string) :
  (String.length (slice_to n s) <= n)%nat.
Proof. rewrite slice_to_length. apply Nat.le_min_l. Qed.

Lemma append_length (a b : string) :
  String.length (a ++ b) = (String.length a + String.length b)%nat.
Proof. induction a as [|c a IH]; simpl; auto. Qed.

Lemma mem_In {A} (eqb : A -> A -> bool)
      (eqb_spec : forall a b, reflect (a = b) (eqb a b)) (x : A) (l : list A) :
  mem eqb x l = true <-> In x l.
Proof.
  unfold mem. rewrite existsb_exists. split.
  - intros [y [Hy E]]. destruct (eqb_spec x y); [subst; auto | discriminate].
  - intros H. exists x. split; auto. destruct (eqb_spec x x); congruence.
Qed.

Lemma mem_false_In {A} (eqb : A -> A -> bool)
      (eqb_spec : forall a b, reflect (a = b) (eqb a b)) (x : A) (l : list A) :
  mem eqb x l = false <-> ~ In x l.
Proof.
  rewrite <- (mem_In eqb eqb_spec). destruct (mem eqb x l); split; congruence.
Qed.

(** Indexing with an index already reduced modulo the length never
    raises. *)
Lemma getitem_in_range {A} (l : list A) (j : Z) :
  0 <= j < Z.of_nat (List.length l) ->
  exists a, getitem l j = Ok a /\ nth_error l (Z.to_nat j) = Some a.
Proof.
  intros H. unfold getitem.
  replace (j <? 0) with false by (symmetry; apply Z.ltb_ge; lia).
  replace (0 <=? j) with true by (symmetry; apply Z.leb_le; lia).
  replace (j <? Z.of_nat (List.length l)) with true by (symmetry; apply Z.ltb_lt; lia).
  simpl. destruct (nth_error l (Z.to_nat j)) as [a|] eqn:E.
  - exists a; auto.
  - apply nth_error_None in E. lia.
Qed.

End PyFacts.

(* ================================================================== *)
(** * Configuration: the key behind a caller's index *)
(* ================================================================== *)

(** C10.  Whatever integer [index] a caller supplies (negative, or beyond
    the number of keys), [get_api_key] either finds no valid key at all and
    raises [ValueError], or returns the valid key at position [index mod n],
    [n] being the number of valid keys; that position lies in [0, n), so
    nothing else is ever raised. *)
Theorem get_api_key_never_out_of_range (google_api_keys : list string) (index : Z) :
  let valid_keys := filter truthy_str google_api_keys in
  let n := Z.of_nat (List.length valid_keys) in
  (valid_keys = [] /\
   Config.get_api_key google_api_keys index =
     Raise (ValueError "No valid Google API keys found"))
  \/
  (valid_keys <> [] /\
   0 <= index mod n < n /\
   exists k,
     Config.get_api_key google_api_keys index = Ok k /\
     nth_error valid_keys (Z.to_nat (index mod n)) = Some k).
Proof.
  intros valid_keys n. unfold Config.get_api_key. fold valid_keys.
  destruct valid_keys as [|k0 rest] eqn:E.
  - left. split; reflexivity.
  - right. split; [discriminate|].
    assert (Hn : 0 < n) by (unfold n; simpl; lia).
    assert (Hr : 0 <= index mod n < n) by (apply Z.mod_pos_bound; exact Hn).
    split; [exact Hr|].
    destruct (PyFacts.getitem_in_range (k0 :: rest) (index mod n) Hr) as [a [Ha Hb]].
    exists a. split; assumption.
Qed.

(* ================================================================== *)
(** * The credential pool *)
(* ================================================================== *)

Module PoolFacts.

Import GeminiApiManager.

Lemma Qltb_lt (x y : Q) : Qltb x y = true <-> (x < y)%Q.
Proof.
  unfold Qltb. rewrite negb_true_iff. split.
  - intros H. apply Qnot_le_lt. intros Hle.
    apply Qle_bool_iff in Hle. congruence.
  - intros H. destruct (Qle_bool y x) eqn:E; auto.
    apply Qle_bool_iff in E. exfalso. apply (Qlt_not_le _ _ H E).
Qed.

Lemma Qltb_ge (x y : Q) : Qltb x y = false <-> (y <= x)%Q.
Proof.
  unfold Qltb. rewrite negb_false_iff. apply Qle_bool_iff.
Qed.

Lemma py_max_lower (a b : Q) : (a <= py_max a b)%Q.
Proof.
  unfold py_max. destruct (Qltb a b) eqn:E.
  - apply Qltb_lt in E. apply Qlt_le_weak. exact E.
  - apply Qle_refl.
Qed.

(** The floor weight: every status weighs at least 1, whatever the clock
    says. *)
Lemma replication_weight_ge_1 (now : time) (s : ApiKeyStatus) :
  1 <= replication_weight now s.
Proof.
  unfold replication_weight, int_of_float.
  set (w := py_max 1%Q ((now - last_used s) / 10)%Q).
  assert (Hw : (1 <= w)%Q) by apply py_max_lower.
  destruct (Qltb w 0%Q) eqn:E.
  - apply Qltb_lt in E. exfalso.
    apply (Qlt_not_le _ _ E). apply Qle_trans with (1%Q); [discriminate | exact Hw].
  - change 1 with (Qfloor 1%Q). apply Qfloor_resp_le. exact Hw.
Qed.

(** ** The dictionary as a list *)

Lemma In_combine_seq {A} (l : list A) (n : nat) (k : Z) (a : A) :
  In (k, a) (combine (map Z.of_nat (seq n (List.length l))) l) <->
  exists i, k = Z.of_nat (n + i) /\ nth_error l i = Some a.
Proof.
  revert n. induction l as [|x l IH]; intros n; simpl.
  - split; [tauto|]. intros [i [_ H]]. destruct i; discriminate.
  - split.
    + intros [H | H].
      * inversion H; subst. exists O. split; [f_equal; lia | reflexivity].
      * apply IH in H. destruct H as [i [Hk Hi]].
        exists (S i). split; [rewrite Hk; f_equal; lia | exact Hi].
    + intros [[|i] [Hk Hi]].
      * left. simpl in Hi. inversion Hi; subst. f_equal. f_equal. lia.
      * right. apply IH. exists i. split; [rewrite Hk; f_equal; lia | exact Hi].
Qed.

Lemma lookup_nth (pool : Pool) (k : Z) (s : ApiKeyStatus) :
  lookup pool k = Some s <->
  exists i, k = Z.of_nat i /\ nth_error pool i = Some s.
Proof.
  unfold lookup, has_key. split.
  - destruct ((0 <=? k) && (k <? Z.of_nat (List.length pool))) eqn:E; [|discriminate].
    apply andb_true_iff in E. destruct E as [E1 E2].
    apply Z.leb_le in E1. intros H. exists (Z.to_nat k). split; [lia | exact H].
  - intros [i [Hk Hi]]. subst k.
    assert (Hlt : (i < List.length pool)%nat)
      by (apply nth_error_Some; congruence).
    replace (0 <=? Z.of_nat i) with true by (symmetry; apply Z.leb_le; lia).
    replace (Z.of_nat i <? Z.of_nat (List.length pool)) with true
      by (symmetry; apply Z.ltb_lt; lia).
    simpl. rewrite Nat2Z.id. exact Hi.
Qed.

Lemma In_items (pool : Pool) (k : Z) (s : ApiKeyStatus) :
  In (k, s) (items pool) <-> lookup pool k = Some s.
Proof.
  unfold items. rewrite In_combine_seq, lookup_nth. simpl. tauto.
Qed.

Lemma NoDup_combine_seq_keys {A} (l : list A) (n : nat) :
  NoDup (map fst (combine (map Z.of_nat (seq n (List.length l))) l)).
Proof.
  revert n. induction l as [|x l IH]; intros n; simpl.
  - constructor.
  - constructor; [|apply IH].
    intros H. apply in_map_iff in H. destruct H as [[k a] [Hk Hin]].
    simpl in Hk. subst k. apply In_combine_seq in Hin.
    destruct Hin as [i [Hi _]]. lia.
Qed.

Lemma NoDup_map_fst_filter {A B} (f : A * B -> bool) (l : list (A * B)) :
  NoDup (map fst l) -> NoDup (map fst (filter f l)).
Proof.
  induction l as [|x l IH]; simpl; intros H; [constructor|].
  inversion H as [|? ? Hnot Hnd]; subst.
  destruct (f x); simpl; [constructor|]; auto.
  intros Hin. apply Hnot. apply in_map_iff in Hin.
  destruct Hin as [y [Hy Hin]]. apply filter_In in Hin.
  apply in_map_iff. exists y. tauto.
Qed.

Lemma available_keys_NoDup (now : time) (pool : Pool) :
  NoDup (get_available_keys now pool).
Proof.
  unfold get_available_keys. apply NoDup_map_fst_filter.
  apply NoDup_combine_seq_keys.
Qed.

Lemma In_available_keys (now : time) (pool : Pool) (k : Z) :
  In k (get_available_keys now pool) <->
  exists s, lookup pool k = Some s /\ eligible now s = true.
Proof.
  unfold get_available_keys. rewrite in_map_iff. split.
  - intros [[k' s] [Hk Hin]]. simpl in Hk. subst k'.
    apply filter_In in Hin. destruct Hin as [Hin He].
    exists s. split; [apply In_items; exact Hin | exact He].
  - intros [s [Hl He]]. exists (k, s). split; [reflexivity|].
    apply filter_In. split; [apply In_items; exact Hl | exact He].
Qed.

(** ** Weighted choice *)

Lemma count_occ_replicate (n j k : Z) :
  count_occ Z.eq_dec (replicate n j) k = if Z.eq_dec j k then Z.to_nat n else O.
Proof.
  unfold replicate. induction (Z.to_nat n) as [|m IH]; simpl.
  - destruct (Z.eq_dec j k); reflexivity.
  - rewrite IH. destruct (Z.eq_dec j k); reflexivity.
Qed.

Lemma count_weighted_absent (now : time) (pool : Pool) (l : list Z) (k : Z) :
  ~ In k l -> count_occ Z.eq_dec (weighted_keys now pool l) k = O.
Proof.
  induction l as [|a l IH]; simpl; intros H; [reflexivity|].
  rewrite count_occ_app, IH by tauto.
  destruct (lookup pool a) as [st|]; simpl; [|reflexivity].
  rewrite count_occ_replicate. destruct (Z.eq_dec a k); [|reflexivity].
  exfalso. apply H. left. exact e.
Qed.

(** A key is replicated exactly as often as its weight says. *)
Lemma count_weighted (now : time) (pool : Pool) (l : list Z) (k : Z) (s : ApiKeyStatus) :
  NoDup l -> In k l -> lookup pool k = Some s ->
  count_occ Z.eq_dec (weighted_keys now pool l) k = Z.to_nat (replication_weight now s).
Proof.
  induction l as [|a l IH]; simpl; intros Hnd Hin Hl; [tauto|].
  inversion Hnd as [|? ? Hnot Hnd']; subst.
  rewrite count_occ_app. destruct (Z.eq_dec a k) as [E | E].
  - subst a. rewrite Hl, count_occ_replicate.
    destruct (Z.eq_dec k k); [|congruence].
    rewrite count_weighted_absent by exact Hnot. lia.
  - destruct Hin as [Hin | Hin]; [congruence|].
    rewrite (IH Hnd' Hin Hl).
    destruct (lookup pool a) as [st|]; simpl; [|reflexivity].
    rewrite count_occ_replicate. destruct (Z.eq_dec a k); [congruence | reflexivity].
Qed.

(** [random.choice] can return every element of its argument. *)
Lemma choice_any (l : list Z) (k : Z) :
  In k l -> exists rnd, choice rnd l = Some k.
Proof.
  intros H. apply In_nth_error in H. destruct H as [n Hn].
  exists n. unfold choice.
  assert (Hlt : (n < List.length l)%nat) by (apply nth_error_Some; congruence).
  rewrite Nat.mod_small by exact Hlt. exact Hn.
Qed.

Lemma choice_In (rnd : nat) (l : list Z) (k : Z) :
  choice rnd l = Some k -> In k l.
Proof. unfold choice. apply nth_error_In. Qed.

Lemma In_weighted_keys (now : time) (pool : Pool) (l : list Z) (k : Z) :
  In k (weighted_keys now pool l) -> In k l.
Proof.
  unfold weighted_keys. rewrite in_flat_map. intros [a [Ha Hk]].
  destruct (lookup pool a); [|contradiction].
  apply repeat_spec in Hk. subst. exact Ha.
Qed.

(** Whatever [select_random_api_key] returns is an available key. *)
Lemma select_random_available (now : time) (rnd : nat) (pool : Pool) (k : Z) :
  select_random_api_key now rnd pool = Some k -> In k (get_available_keys now pool).
Proof.
  unfold select_random_api_key.
  destruct (get_available_keys now pool) as [|a l] eqn:E; [discriminate|].
  destruct (weighted_keys now pool (a :: l)) as [|x w] eqn:W; intros H.
  - apply choice_In in H. exact H.
  - apply choice_In in H. rewrite <- W in H.
    apply In_weighted_keys in H. exact H.
Qed.

(** ** The earliest recovery *)

Lemma earliest_fold_some (l : list (Z * ApiKeyStatus)) (acc : option (Z * time))
      (i : Z) (t : time) :
  fold_left earliest_step l acc = Some (i, t) ->
  acc = Some (i, t) \/
  exists s T, In (i, s) l /\ quota_exhausted_at s = Some T /\ t = (T + 60)%Q.
Proof.
  revert acc. induction l as [|[j s] l IH]; simpl; intros acc H; [left; exact H|].
  apply IH in H. destruct H as [H | [s' [T [Hin [Hq Ht]]]]].
  - unfold earliest_step in H. simpl in H.
    destruct (quota_exhausted_at s) as [T|] eqn:Hq; [|left; exact H].
    destruct acc as [[j' t']|].
    + destruct (Qltb (T + 60)%Q t'); [|left; exact H].
      inversion H; subst. right. exists s, T. auto.
    + inversion H; subst. right. exists s, T. auto.
  - right. exists s', T. auto.
Qed.

Lemma earliest_fold_none (l : list (Z * ApiKeyStatus)) (acc : option (Z * time)) :
  fold_left earliest_step l acc = None ->
  acc = None /\ forall e, In e l -> quota_exhausted_at (snd e) = None.
Proof.
  revert acc. induction l as [|e l IH]; simpl; intros acc H; [split; [exact H | tauto]|].
  apply IH in H. destruct H as [H Hall].
  unfold earliest_step in H.
  destruct (quota_exhausted_at (snd e)) as [T|] eqn:Hq.
  - destruct acc as [[j' t']|]; [|discriminate].
    destruct (Qltb (T + 60)%Q t'); discriminate.
  - split; [exact H|]. intros e' [He | He]; [subst; exact Hq | apply Hall; exact He].
Qed.

(** ** Mutation of one status *)

Lemma update_nth_length (n : nat) (f : ApiKeyStatus -> ApiKeyStatus) (pool : Pool) :
  List.length (update_nth n f pool) = List.length pool.
Proof.
  revert n. induction pool as [|s pool IH]; intros [|n]; simpl; auto.
Qed.

Lemma nth_error_update_nth (n m : nat) (f : ApiKeyStatus -> ApiKeyStatus) (pool : Pool) :
  nth_error (update_nth n f pool) m =
  if Nat.eqb n m then option_map f (nth_error pool m) else nth_error pool m.
Proof.
  revert n m. induction pool as [|s pool IH]; intros [|n] [|m]; simpl; auto.
  destruct (Nat.eqb n m); reflexivity.
Qed.

Lemma has_key_update (pool : Pool) (i k : Z) (f : ApiKeyStatus -> ApiKeyStatus) :
  has_key (update pool i f) k = has_key pool k.
Proof.
  unfold update, has_key at 1 3.
  destruct (has_key pool i); [rewrite update_nth_length|]; reflexivity.
Qed.

Lemma lookup_update (pool : Pool) (i k : Z) (f : ApiKeyStatus -> ApiKeyStatus) :
  lookup (update pool i f) k =
  if i =? k then option_map f (lookup pool k) else lookup pool k.
Proof.
  unfold lookup at 1. rewrite has_key_update. unfold lookup.
  destruct (has_key pool k) eqn:Hk.
  - unfold update. destruct (has_key pool i) eqn:Hi.
    + rewrite nth_error_update_nth.
      unfold has_key in Hk, Hi.
      apply andb_true_iff in Hk, Hi. destruct Hk as [Hk _], Hi as [Hi _].
      apply Z.leb_le in Hk, Hi.
      destruct (Z.eqb_spec i k) as [E | E].
      * subst. rewrite Nat.eqb_refl. reflexivity.
      * replace (Nat.eqb (Z.to_nat i) (Z.to_nat k)) with false; [reflexivity|].
        symmetry. apply Nat.eqb_neq. lia.
    + destruct (Z.eqb_spec i k) as [E | E]; [subst; congruence | reflexivity].
  - destruct (i =? k); reflexivity.
Qed.

Lemma availability_update (pool : Pool) (i k : Z) (f : ApiKeyStatus -> ApiKeyStatus) :
  (forall s, is_available (f s) = is_available s) ->
  availability (update pool i f) k = availability pool k.
Proof.
  intros Hf. unfold availability. rewrite lookup_update.
  destruct (i =? k); [|reflexivity].
  destruct (lookup pool k); simpl; [rewrite Hf|]; reflexivity.
Qed.

Lemma mark_api_result_lookup (now : time) (pool : Pool) (i k : Z) (success quota : bool) :
  lookup (mark_api_result now pool i success quota) k =
  if i =? k then
    option_map (if success then mark_success now
                else if quota then mark_quota_exhausted now
                else mark_failure)
               (lookup pool k)
  else lookup pool k.
Proof.
  unfold mark_api_result. destruct (has_key pool i) eqn:Hi; simpl.
  - destruct success; [|destruct quota]; apply lookup_update.
  - destruct (Z.eqb_spec i k) as [E | E]; [|reflexivity].
    subst. unfold lookup. rewrite Hi. reflexivity.
Qed.

Lemma reset_api_key_lookup (pool : Pool) (i k : Z) :
  lookup (reset_api_key pool i) k =
  if i =? k then option_map reset_status (lookup pool k) else lookup pool k.
Proof.
  unfold reset_api_key. destruct (has_key pool i) eqn:Hi.
  - apply lookup_update.
  - destruct (Z.eqb_spec i k) as [E | E]; [|reflexivity].
    subst. unfold lookup. rewrite Hi. reflexivity.
Qed.

(** Selection never touches [is_available]. *)
Lemma selection_keeps_availability (now : time) (rnd : nat) (pool : Pool)
      (sel : Selection) (k : Z) :
  get_api_key_with_fallback now rnd pool = Ok sel ->
  availability (sel_pool sel) k = availability pool k.
Proof.
  unfold get_api_key_with_fallback.
  destruct (select_random_api_key now rnd pool) as [i|].
  - intros H; inversion H; reflexivity.
  - destruct (_find_earliest_quota_recovery pool) as [[i t]|].
    + intros H; inversion H; simpl. apply availability_update. reflexivity.
    + destruct (items pool) as [|[i s] l]; intros H; inversion H; reflexivity.
Qed.

(** An operation other than a reset or a reported success leaves a
    disabled key disabled. *)
Lemma apply_op_keeps_disabled (now : time) (op : pool_op) (pool : Pool) (k : Z) :
  reenables k op = false ->
  availability pool k = Some false ->
  availability (apply_op now op pool) k = Some false.
Proof.
  intros Hop Hav. destruct op as [i success quota | i | rnd]; simpl in *.
  - unfold availability in *. rewrite mark_api_result_lookup.
    destruct (Z.eqb_spec i k) as [E | E]; [|exact Hav].
    subst. destruct success; [discriminate|].
    destruct (lookup pool k) as [s|]; [|discriminate].
    simpl in *. inversion Hav as [Hs].
    destruct quota; simpl; [rewrite Hs; reflexivity|].
    rewrite Hs. destruct (3 <=? consecutive_failures s + 1); reflexivity.
  - unfold availability in *. rewrite reset_api_key_lookup, Hop. exact Hav.
  - destruct (get_api_key_with_fallback now rnd pool) as [sel|e] eqn:E; [|exact Hav].
    rewrite (selection_keeps_availability _ _ _ _ _ E). exact Hav.
Qed.

Lemma run_keeps_disabled (trace : list (time * pool_op)) (pool : Pool) (k : Z) :
  Forall (fun e => reenables k (snd e) = false) trace ->
  availability pool k = Some false ->
  availability (run trace pool) k = Some false.
Proof.
  revert pool. induction trace as [|[now op] trace IH]; simpl; intros pool Hall Hav.
  - exact Hav.
  - inversion Hall as [|? ? Hop Hrest]; subst. simpl in Hop.
    apply IH; [exact Hrest|]. apply apply_op_keeps_disabled; assumption.
Qed.

(** After [n] failure reports in a row the counter has grown by [n], and
    the key is disabled as soon as the counter has reached 3. *)
Lemma report_failures_state (n : nat) (k : Z) (now : time) (pool : Pool) (s : ApiKeyStatus) :
  lookup pool k = Some s ->
  exists s',
    lookup (report_failures n k now pool) k = Some s' /\
    consecutive_failures s' = consecutive_failures s + Z.of_nat n /\
    ((1 <= n)%nat -> 3 <= consecutive_failures s' -> is_available s' = false).
Proof.
  intros Hl. induction n as [|n IH].
  - exists s. simpl. repeat split; [exact Hl | lia | lia].
  - destruct IH as [s1 [H1 [Hc Hd]]].
    unfold report_failures in *. simpl.
    rewrite mark_api_result_lookup, Z.eqb_refl, H1. simpl.
    eexists. split; [reflexivity|]. simpl. split; [lia|].
    intros _ H3. replace (3 <=? consecutive_failures s1 + 1) with true; [reflexivity|].
    symmetry. apply Z.leb_le. exact H3.
Qed.

(** An eligible key is replicated as often as its weight says, and some
    draw selects it. *)
Lemma eligible_available (now : time) (pool : Pool) (k : Z) (s : ApiKeyStatus) :
  lookup pool k = Some s ->
  is_available s = true ->
  is_quota_exhausted now s = false ->
  In k (get_available_keys now pool).
Proof.
  intros Hl Ha Hq. apply In_available_keys. exists s. split; [exact Hl|].
  unfold eligible. rewrite Ha, Hq. reflexivity.
Qed.

Lemma eligible_count (now : time) (pool : Pool) (k : Z) (s : ApiKeyStatus) :
  lookup pool k = Some s ->
  is_available s = true ->
  is_quota_exhausted now s = false ->
  count_occ Z.eq_dec (weighted_keys now pool (get_available_keys now pool)) k =
  Z.to_nat (replication_weight now s).
Proof.
  intros Hl Ha Hq.
  apply count_weighted;
    [apply available_keys_NoDup | apply (eligible_available now pool k s Hl Ha Hq) | exact Hl].
Qed.

Lemma eligible_selectable (now : time) (pool : Pool) (k : Z) (s : ApiKeyStatus) :
  lookup pool k = Some s ->
  is_available s = true ->
  is_quota_exhausted now s = false ->
  exists rnd, select_random_api_key now rnd pool = Some k.
Proof.
  intros Hl Ha Hq.
  pose proof (eligible_available now pool k s Hl Ha Hq) as Hin.
  pose proof (eligible_count now pool k s Hl Ha Hq) as Hc.
  pose proof (replication_weight_ge_1 now s) as Hw.
  assert (Hk : In k (weighted_keys now pool (get_available_keys now pool)))
    by (apply (count_occ_In Z.eq_dec); lia).
  unfold select_random_api_key.
  destruct (get_available_keys now pool) as [|a l]; [contradiction|].
  destruct (weighted_keys now pool (a :: l)) as [|x w]; [contradiction|].
  apply choice_any. exact Hk.
Qed.

(** ** Selection and the quota stamp *)

(** A key that carries the stamp [T] is handed out at [T + 60] or later. *)
Lemma selection_respects_stamp (now : time) (rnd : nat) (pool : Pool) (sel : Selection)
      (k : Z) (s : ApiKeyStatus) (T : time) :
  lookup pool k = Some s ->
  quota_exhausted_at s = Some T ->
  get_api_key_with_fallback now rnd pool = Ok sel ->
  sel_index sel = k ->
  (T + 60 <= sel_now sel)%Q.
Proof.
  intros Hl Hq Hsel Hk. unfold get_api_key_with_fallback in Hsel.
  destruct (select_random_api_key now rnd pool) as [i|] eqn:Hs.
  - inversion Hsel; subst sel; simpl in *. subst i.
    apply select_random_available in Hs. apply In_available_keys in Hs.
    destruct Hs as [s' [Hl' He]]. rewrite Hl in Hl'. inversion Hl'; subst s'.
    unfold eligible in He. apply andb_true_iff in He. destruct He as [_ He].
    apply negb_true_iff in He. unfold is_quota_exhausted in He.
    rewrite Hq in He. apply Qltb_ge in He. lra.
  - destruct (_find_earliest_quota_recovery pool) as [[i t]|] eqn:Hf.
    + inversion Hsel; subst sel; simpl in *. subst i.
      unfold _find_earliest_quota_recovery in Hf.
      apply earliest_fold_some in Hf.
      destruct Hf as [Hf | [s' [T' [Hin [Hq' Ht]]]]]; [discriminate|].
      apply In_items in Hin. rewrite Hl in Hin. inversion Hin; subst s'.
      rewrite Hq in Hq'. inversion Hq'; subst T'. subst t.
      unfold py_max. destruct (Qltb 0 (T + 60 - now)) eqn:Hw.
      * rewrite Hw. lra.
      * replace (Qltb 0 0) with false by reflexivity.
        apply Qltb_ge in Hw. lra.
    + unfold _find_earliest_quota_recovery in Hf.
      apply earliest_fold_none in Hf. destruct Hf as [_ Hall].
      apply In_items in Hl. apply Hall in Hl. simpl in Hl. congruence.
Qed.

(** A selection returns no earlier than it was entered. *)
Lemma selection_time_monotone (now : time) (rnd : nat) (pool : Pool) (sel : Selection) :
  get_api_key_with_fallback now rnd pool = Ok sel -> (now <= sel_now sel)%Q.
Proof.
  unfold get_api_key_with_fallback.
  destruct (select_random_api_key now rnd pool) as [i|].
  - intros H; inversion H; simpl. lra.
  - destruct (_find_earliest_quota_recovery pool) as [[i t]|].
    + intros H; inversion H; simpl.
      destruct (Qltb 0 (py_max 0 (t - now))) eqn:Hw; [|lra].
      apply Qltb_lt in Hw. lra.
    + destruct (items pool) as [|[i st] l]; intros H; inversion H; simpl. lra.
Qed.

(** A selection leaves every status as it is, except that the fallback
    path clears the stamp of the key it returns. *)
Lemma selection_lookup (now : time) (rnd : nat) (pool : Pool) (sel : Selection) (k : Z) :
  get_api_key_with_fallback now rnd pool = Ok sel ->
  lookup (sel_pool sel) k = lookup pool k \/
  sel_index sel = k /\
  lookup (sel_pool sel) k = option_map clear_quota_exhaustion (lookup pool k).
Proof.
  unfold get_api_key_with_fallback.
  destruct (select_random_api_key now rnd pool) as [i|].
  - intros H; inversion H; simpl. left. reflexivity.
  - destruct (_find_earliest_quota_recovery pool) as [[i t]|].
    + intros H; inversion H; simpl. rewrite lookup_update.
      destruct (Z.eqb_spec i k) as [E | E]; [right; split; [exact E | reflexivity] | left; reflexivity].
    + destruct (items pool) as [|[i st] l]; intros H; inversion H; simpl.
      left. reflexivity.
Qed.

End PoolFacts.

Module PoolProperties.

Import GeminiApiManager PoolFacts.

(** C6.  In the weighted random selection every currently eligible key
    (available and not quota-exhausted) has an integer replication weight
    [int(max(1.0, idle / 10.0))] of at least 1, occurs exactly that many
    times, hence at least once, in the list [random.choice] draws from, and
    is returned for some draw: its selection probability is not zero. *)
Theorem eligible_key_can_be_selected
        (now : time) (pool : Pool) (k : Z) (s : ApiKeyStatus) :
  lookup pool k = Some s ->
  is_available s = true ->
  is_quota_exhausted now s = false ->
  let candidates := weighted_keys now pool (get_available_keys now pool) in
  1 <= replication_weight now s /\
  count_occ Z.eq_dec candidates k = Z.to_nat (replication_weight now s) /\
  (0 < count_occ Z.eq_dec candidates k)%nat /\
  exists rnd, select_random_api_key now rnd pool = Some k.
Proof.
  intros Hl Ha Hq candidates.
  pose proof (replication_weight_ge_1 now s) as Hw.
  pose proof (eligible_count now pool k s Hl Ha Hq) as Hc. fold candidates in Hc.
  repeat split; [exact Hw | exact Hc | lia |].
  apply (eligible_selectable now pool k s Hl Ha Hq).
Qed.

Lemma eligible_key_can_be_selected_witness :
  let pool := _initialize_api_keys ["key-a"; "key-b"] in
  let s := mkApiKeyStatus 1 "key-b" 0%Q None 0 true in
  let candidates := weighted_keys 100%Q pool (get_available_keys 100%Q pool) in
  lookup pool 1 = Some s /\
  is_available s = true /\
  is_quota_exhausted 100%Q s = false /\
  1 <= replication_weight 100%Q s /\
  count_occ Z.eq_dec candidates 1%Z = Z.to_nat (replication_weight 100%Q s) /\
  (0 < count_occ Z.eq_dec candidates 1%Z)%nat /\
  exists rnd, select_random_api_key 100%Q rnd pool = Some 1.
Proof.
  intros pool s candidates.
  split; [reflexivity|]. split; [reflexivity|]. split; [reflexivity|].
  apply (eligible_key_can_be_selected 100%Q pool 1 s); reflexivity.
Defined.

(** C4, as the code has it.  Reporting a quota error for key [k] at time
    [T] stamps it with [quota_exhausted_at = T].  Whenever a selection is
    entered with a pool in which the key carries the stamp [T],
    [get_api_key_with_fallback] returns that key only at a clock reading of
    [T + 60] or later (on its fallback path it sleeps until then); before
    [T + 60] the key is not among the available keys; from [T + 60] on it
    counts as not exhausted and, if it is not disabled, it is available
    and some draw of the selection returns it, without any reset.  The
    stamp is taken off or moved by four operations only: a reported
    success for the key, a further quota report for it, a reset of it, and
    the selection that hands it out on the fallback path. *)
Theorem stamped_key_waits_60s
        (pool0 : Pool) (k : Z) (s0 : ApiKeyStatus) (T : time) :
  lookup pool0 k = Some s0 ->
  (exists s, lookup (mark_api_result T pool0 k false true) k = Some s /\
             quota_exhausted_at s = Some T) /\
  (forall p s,
     lookup p k = Some s ->
     quota_exhausted_at s = Some T ->
     (forall now rnd sel,
        get_api_key_with_fallback now rnd p = Ok sel ->
        sel_index sel = k ->
        (T + 60 <= sel_now sel)%Q /\ (now <= sel_now sel)%Q) /\
     (forall now, (now < T + 60)%Q ->
        is_quota_exhausted now s = true /\ ~ In k (get_available_keys now p)) /\
     (forall now, (T + 60 <= now)%Q ->
        is_quota_exhausted now s = false /\
        (is_available s = true ->
         In k (get_available_keys now p) /\
         exists rnd,
           get_api_key_with_fallback now rnd p = Ok (mkSelection k false p now))) /\
     (forall now op,
        option_map quota_exhausted_at (lookup (apply_op now op p) k) <> Some (Some T) ->
        match op with
        | Report api_index success is_quota_error =>
            api_index = k /\ (success = true \/ is_quota_error = true)
        | Reset api_index => api_index = k
        | Select rnd =>
            exists sel, get_api_key_with_fallback now rnd p = Ok sel /\
                        sel_index sel = k /\ sel_fallback sel = true
        end)).
Proof.
  intros Hl0. split.
  { rewrite mark_api_result_lookup, Z.eqb_refl, Hl0. simpl.
    eexists. split; reflexivity. }
  intros p s Hl Hq.
  assert (Hex : forall now, is_quota_exhausted now s = true <-> (now < T + 60)%Q).
  { intros now. unfold is_quota_exhausted. rewrite Hq, Qltb_lt. split; intros H; lra. }
  assert (Hnex : forall now, is_quota_exhausted now s = false <-> (T + 60 <= now)%Q).
  { intros now. unfold is_quota_exhausted. rewrite Hq, Qltb_ge. split; intros H; lra. }
  split; [|split; [|split]].
  - intros now rnd sel Hsel Hk. split.
    + apply (selection_respects_stamp _ _ _ _ _ _ _ Hl Hq Hsel Hk).
    + apply (selection_time_monotone _ _ _ _ Hsel).
  - intros now Hlt. split; [apply Hex; exact Hlt|].
    intros Hin. apply In_available_keys in Hin.
    destruct Hin as [s' [Hl' He]]. rewrite Hl in Hl'. inversion Hl'; subst s'.
    unfold eligible in He. apply andb_true_iff in He. destruct He as [_ He].
    apply negb_true_iff in He. apply Hnex in He. lra.
  - intros now Hge.
    assert (Hn : is_quota_exhausted now s = false) by (apply Hnex; exact Hge).
    split; [exact Hn|]. intros Ha.
    destruct (eligible_selectable now p k s Hl Ha Hn) as [rnd Hr].
    split.
    + apply (eligible_available now p k s Hl Ha Hn).
    + exists rnd. unfold get_api_key_with_fallback. rewrite Hr. reflexivity.
  - intros now op Hchanged. destruct op as [i success quota | i | rnd]; cbn [apply_op] in *.
    + rewrite mark_api_result_lookup in Hchanged.
      destruct (Z.eqb_spec i k) as [E|E].
      * split; [exact E|].
        destruct success; [left; reflexivity|].
        destruct quota; [right; reflexivity|].
        exfalso. apply Hchanged. rewrite Hl. simpl. rewrite Hq. reflexivity.
      * exfalso. apply Hchanged. rewrite Hl. simpl. rewrite Hq. reflexivity.
    + rewrite reset_api_key_lookup in Hchanged.
      destruct (Z.eqb_spec i k) as [E|E]; [exact E|].
      exfalso. apply Hchanged. rewrite Hl. simpl. rewrite Hq. reflexivity.
    + destruct (get_api_key_with_fallback now rnd p) as [sel|e] eqn:Hsel.
      * destruct (selection_lookup now rnd p sel k Hsel) as [Hsame | [Hk Hclear]].
        -- exfalso. apply Hchanged. rewrite Hsame, Hl. simpl. rewrite Hq. reflexivity.
        -- exists sel. split; [reflexivity|]. split; [exact Hk|].
           destruct (sel_fallback sel) eqn:Hfb; [reflexivity|].
           exfalso. apply Hchanged.
           unfold get_api_key_with_fallback in Hsel.
           destruct (select_random_api_key now rnd p) as [j|].
           ++ inversion Hsel; subst sel; simpl. rewrite Hl. simpl. rewrite Hq. reflexivity.
           ++ destruct (_find_earliest_quota_recovery p) as [[j t]|].
              ** inversion Hsel; subst sel. discriminate Hfb.
              ** destruct (items p) as [|[j st] l]; inversion Hsel; subst sel.
                 discriminate Hfb.
      * exfalso. apply Hchanged. rewrite Hl. simpl. rewrite Hq. reflexivity.
Qed.

(** The only key of the pool is stamped at 10; a selection entered at 20
    sleeps and hands the key out at 70. *)
Lemma stamped_key_waits_60s_witness :
  let pool0 := _initialize_api_keys ["key-a"] in
  let s0 := mkApiKeyStatus 0 "key-a" 0%Q None 0 true in
  let pool := mark_api_result 10%Q pool0 0 false true in
  lookup pool0 0 = Some s0 /\
  (exists sel, get_api_key_with_fallback 20%Q 0 pool = Ok sel /\
               sel_index sel = 0 /\ (sel_now sel == 70)%Q /\
               (10 + 60 <= sel_now sel)%Q) /\
  ~ In 0 (get_available_keys 69%Q pool) /\
  In 0 (get_available_keys 70%Q pool).
Proof.
  intros pool0 s0 pool.
  assert (Hl0 : lookup pool0 0 = Some s0) by reflexivity.
  destruct (stamped_key_waits_60s pool0 0 s0 10%Q Hl0) as [_ Hstate].
  assert (Hl : lookup pool 0 = Some (mark_quota_exhausted 10%Q s0)) by reflexivity.
  destruct (Hstate pool (mark_quota_exhausted 10%Q s0) Hl eq_refl)
    as [Hsel [Hbefore [Hafter _]]].
  split; [exact Hl0|]. split; [|split].
  - eexists. split; [reflexivity|]. split; [reflexivity|]. split; [reflexivity|].
    apply (Hsel 20%Q 0%nat _ eq_refl eq_refl).
  - apply (Hbefore 69%Q). reflexivity.
  - destruct (Hafter 70%Q) as [_ Hav]; [discriminate|].
    apply (Hav eq_refl).
Defined.

(** C4, as the specification states it, fails: a key marked quota-exhausted
    at 10 is selected again at 12, before 10 + 60, once a success has been
    reported for it at 11 (a request that names the key by its index uses
    it whatever its state, and [mark_success] clears the stamp). *)
Lemma reported_success_ends_quota_wait :
  let pool0 := _initialize_api_keys ["key-a"] in
  let marked := apply_op 10%Q (Report 0 false true) pool0 in
  let pool := apply_op 11%Q (Report 0 true false) marked in
  option_map quota_exhausted_at (lookup marked 0) = Some (Some 10%Q) /\
  get_api_key_with_fallback 12%Q 0 pool = Ok (mkSelection 0 false pool 12%Q) /\
  (12 < 10 + 60)%Q.
Proof.
  intros pool0 marked pool. split; [reflexivity|]. split; reflexivity.
Qed.

(** C5, as the code has it.  Three or more failure reports in a row
    disable a key ([is_available = false]).  A disabled key stays disabled
    through every run of pool operations that contains neither a reset of
    that key nor a reported success for it: failure reports, quota reports,
    selections and operations on other keys never re-enable it.  Both
    [reset_api_key] and a reported success ([mark_success]) re-enable it. *)
Theorem disabled_key_needs_reset_or_success
        (pool : Pool) (k : Z) (s : ApiKeyStatus) :
  lookup pool k = Some s ->
  (forall n now, (3 <= n)%nat -> 0 <= consecutive_failures s ->
     availability (report_failures n k now pool) k = Some false) /\
  (forall trace,
     is_available s = false ->
     Forall (fun e => reenables k (snd e) = false) trace ->
     availability (run trace pool) k = Some false) /\
  (forall now quota,
     availability (reset_api_key pool k) k = Some true /\
     availability (mark_api_result now pool k true quota) k = Some true).
Proof.
  intros Hl. split; [|split].
  - intros n now Hn Hc.
    destruct (report_failures_state n k now pool s Hl) as [s' [Hl' [Hc' Hd]]].
    unfold availability. rewrite Hl'. simpl. f_equal. apply Hd; lia.
  - intros trace Hs Hall. apply run_keeps_disabled; [exact Hall|].
    unfold availability. rewrite Hl. simpl. f_equal. exact Hs.
  - intros now quota. unfold availability.
    rewrite reset_api_key_lookup, mark_api_result_lookup, Z.eqb_refl, Hl.
    split; reflexivity.
Qed.

Lemma disabled_key_needs_reset_or_success_witness :
  let pool := [mkApiKeyStatus 0 "key-a" 0%Q None 5 false] in
  let s := mkApiKeyStatus 0 "key-a" 0%Q None 5 false in
  lookup pool 0 = Some s /\
  availability (report_failures 3 0 7%Q pool) 0 = Some false /\
  availability
    (run [(8%Q, Report 0 false false); (9%Q, Report 0 false true); (10%Q, Select 4%nat)]
         pool) 0 = Some false /\
  availability (reset_api_key pool 0) 0 = Some true.
Proof.
  intros pool s.
  assert (Hl : lookup pool 0 = Some s) by reflexivity.
  destruct (disabled_key_needs_reset_or_success pool 0 s Hl) as [H1 [H2 H3]].
  split; [exact Hl|]. split; [|split].
  - apply H1; [apply le_n | discriminate].
  - apply H2; [reflexivity|]. repeat constructor.
  - apply (H3 0%Q false).
Defined.

(** C5, as the specification states it, fails: a key disabled by three
    failures is enabled again by a reported success, without any reset. *)
Lemma reported_success_reenables_disabled_key :
  let pool := report_failures 3 0 5%Q (_initialize_api_keys ["key-a"]) in
  availability pool 0 = Some false /\
  availability (apply_op 9%Q (Report 0 true false) pool) 0 = Some true /\
  (forall i, Report 0 true false <> Reset i).
Proof.
  intros pool. split; [reflexivity|]. split; [reflexivity|]. intros i; discriminate.
Qed.

End PoolProperties.

(* ================================================================== *)
(** * The strategies and malformed-request errors *)
(* ================================================================== *)

Module StrategyProperties.

Import GeminiApiManager AIService Scenarios.

Section MetaRag.

Variable get_retriever : Z -> result unit.
Variable meta_ai_api_installed : bool.
Variable findall_words : string -> list string.
Variable get_relevant_documents : string -> result (list MetaRAGProcessor.Document).
Variable meta_ai_prompt : string -> nat -> result (option mapping).

Local Abbreviation meta_rag :=
  (generate_meta_rag_response get_retriever true meta_ai_api_installed findall_words
                              get_relevant_documents meta_ai_prompt).
Local Abbreviation query :=
  (MetaRAGProcessor.process_query findall_words get_relevant_documents meta_ai_prompt).
Local Abbreviation filtered :=
  (MetaRAGProcessor._local_relevance_filtering findall_words).






End MetaRag.



End StrategyProperties.

(* ================================================================== *)
(** * Source normalisation *)
(* ================================================================== *)

Module SourceFacts.

Import ChatOrchestrator PyFacts.

Lemma preview_of_length (text : string) :
  (String.length (preview_of text) <= 203)%nat.
Proof.
  unfold preview_of, len. destruct (200 <? Z.of_nat (String.length text)) eqn:E.
  - rewrite append_length. pose proof (slice_to_le 200 text) as Hs.
    change (String.length "...") with 3%nat. lia.
  - apply Z.ltb_ge in E. lia.
Qed.

(** Only a name that is not a string makes the formatting raise. *)
Lemma document_name_raise (md : mapping) (index : Z) (e : exn) :
  document_name md index = Raise e ->
  e = TypeError "argument of type 'NoneType' is not iterable" \/
  e = TypeError "argument of type 'int' is not iterable".
Proof.
  unfold document_name.
  destruct (get md "source") as [[|s|z]|]; simpl.
  - intros H; inversion H; auto.
  - destruct (String.eqb s (numbered "Source" index)); simpl; [discriminate|].
    destruct (contains "/" s); simpl; [discriminate|].
    destruct (contains "\" s); discriminate.
  - intros H; inversion H; auto.
  - rewrite String.eqb_refl. discriminate.
Qed.

Lemma format_body_ok (source : raw_source) (source_type : string) (index : Z)
      (r : SourceDict) :
  format_body source source_type index = Ok r ->
  exists text, content r = slice_to 500 text /\ preview r = preview_of text.
Proof.
  destruct source as [page md | d | s | o | e]; simpl; try discriminate.
  - destruct (document_name _ index) as [n|e]; simpl; [|discriminate].
    intros H; inversion H; subst; simpl. exists page; auto.
  - intros H; inversion H; subst; simpl. eexists; split; reflexivity.
  - intros H; inversion H; subst; simpl. exists s; auto.
  - intros H; inversion H; subst; simpl. exists o; auto.
Qed.

Lemma fallback_preview_length (index : Z) (error_msg : string) :
  (String.length (preview (_create_fallback_source index error_msg)) <= 107)%nat.
Proof.
  unfold _create_fallback_source. cbn [preview].
  rewrite append_length. pose proof (slice_to_le 100 error_msg) as Hs.
  change (String.length "Error: ") with 7%nat. lia.
Qed.

Lemma format_from_length (i : Z) (srcs : list raw_source) (source_type : string) :
  List.length (format_from i srcs source_type) = List.length srcs.
Proof.
  revert i. induction srcs as [|a l IH]; intros i; simpl; [reflexivity|].
  rewrite IH. reflexivity.
Qed.

Lemma format_from_nth (i : Z) (srcs : list raw_source) (source_type : string)
      (n : nat) (source : raw_source) :
  nth_error srcs n = Some source ->
  nth_error (format_from i srcs source_type) n =
  Some (_format_single_source source source_type (i + Z.of_nat n)).
Proof.
  revert i n. induction srcs as [|a l IH]; intros i [|n] H; simpl in *; try discriminate.
  - inversion H; subst. rewrite Z.add_0_r. reflexivity.
  - rewrite (IH (i + 1) n H). do 2 f_equal. lia.
Qed.

(** The bound on the preview of one formatted record. *)
Lemma format_single_preview (source : raw_source) (source_type : string) (index : Z) :
  (String.length (preview (_format_single_source source source_type index)) <= 203)%nat.
Proof.
  unfold _format_single_source.
  destruct (format_body source source_type index) as [r|e] eqn:E; cbn [try_except].
  - destruct (format_body_ok _ _ _ _ E) as [text [_ Hp]].
    rewrite Hp. apply preview_of_length.
  - eapply Nat.le_trans; [apply fallback_preview_length|].
    apply Nat.leb_le. reflexivity.
Qed.

End SourceFacts.

Module SourceProperties.

Import ChatOrchestrator PyFacts SourceFacts.

(** C9, as the code has it.  [_safely_format_sources] yields one record
    per raw source, the record at position [n] being
    [_format_single_source] of the source at position [n]; whatever the
    shape of the source, the preview of its record has at most 203
    characters.  When the formatting does not fail, the content is the
    first 500 characters of the source's text and the preview is its first
    200 characters followed by "..." if the text is longer than 200
    characters, the whole text otherwise.  When the formatting raises, the
    record is the error record: its content is the whole error text after
    a fixed prefix, its preview has at most 107 characters. *)
Theorem formatted_source_lengths (srcs : list raw_source) (source_type : string) :
  let out := _safely_format_sources srcs source_type in
  List.length out = List.length srcs /\
  (forall n source,
     nth_error srcs n = Some source ->
     nth_error out n = Some (_format_single_source source source_type (Z.of_nat n))) /\
  Forall (fun r => (String.length (preview r) <= 203)%nat) out /\
  (forall source index r,
     format_body source source_type index = Ok r ->
     _format_single_source source source_type index = r /\
     (String.length (content r) <= 500)%nat /\
     exists text,
       content r = slice_to 500 text /\
       preview r = (if 200 <? len text then slice_to 200 text ++ "..." else text)) /\
  (forall source index e,
     format_body source source_type index = Raise e ->
     _format_single_source source source_type index =
       _create_fallback_source index (str_exn e) /\
     content (_format_single_source source source_type index) =
       "Error formatting source: " ++ str_exn e /\
     (String.length (preview (_format_single_source source source_type index)) <= 107)%nat).
Proof.
  intros out. unfold out, _safely_format_sources.
  split; [apply format_from_length|]. split; [|split; [|split]].
  - intros n source H. rewrite (format_from_nth 0 srcs source_type n source H).
    reflexivity.
  - generalize 0. induction srcs as [|a l IH]; intros i; simpl; constructor.
    + apply format_single_preview.
    + apply IH.
  - intros source index r H.
    destruct (format_body_ok _ _ _ _ H) as [text [Hc Hp]].
    split; [unfold _format_single_source; rewrite H; reflexivity|].
    split; [rewrite Hc; apply slice_to_le|].
    exists text. split; [exact Hc | exact Hp].
  - intros source index e H. unfold _format_single_source. rewrite H.
    cbn [try_except].
    split; [reflexivity|]. split; [reflexivity|].
    apply (fallback_preview_length index (str_exn e)).
Qed.

Lemma formatted_source_lengths_witness :
  let srcs := [RDoc "Paris is the capital of France." (Some [("source", PStr "docs/geo.pdf")]);
               RStr "a plain note"] in
  let out := _safely_format_sources srcs "rag" in
  nth_error srcs 0 = Some (RDoc "Paris is the capital of France."
                                (Some [("source", PStr "docs/geo.pdf")])) /\
  nth_error out 0 =
    Some {| name := PStr "geo.pdf";
            content := "Paris is the capital of France.";
            preview := "Paris is the capital of France.";
            document_type := "rag";
            metadata := [] |}.
Proof.
  intros srcs out. split; [reflexivity|].
  destruct (formatted_source_lengths srcs "rag") as [_ [Hnth _]].
  apply (Hnth O (RDoc "Paris is the capital of France."
                      (Some [("source", PStr "docs/geo.pdf")]))).
  reflexivity.
Defined.

(** C9, as the specification states it, fails: a text of 201 characters
    gets a preview of 203 characters, the first 200 and "..."; and a source
    whose inspection raises an error with a message of 500 characters gets
    an error record with a content of 525 characters. *)
Lemma preview_of_long_text_exceeds_200 :
  let r := _format_single_source (RStr (str_mul "a" 201)) "rag" 0 in
  let f := _format_single_source (RFaulty (OtherError (str_mul "x" 500))) "rag" 0 in
  String.length (preview r) = 203%nat /\
  ~ (String.length (preview r) <= 200)%nat /\
  preview r = slice_to 200 (str_mul "a" 201) ++ "..." /\
  String.length (content f) = 525%nat.
Proof.
  intros r f. split; [reflexivity|]. split; [|split; reflexivity].
  replace (String.length (preview r)) with 203%nat by reflexivity. lia.
Qed.

End SourceProperties.

(* ================================================================== *)
(** * Deduplication of sources *)
(* ================================================================== *)

Module DedupeFacts.

Import ChatOrchestrator SpecModel PyFacts.

Lemma identifier_eqb_spec (a b : identifier) : reflect (a = b) (identifier_eqb a b).
Proof.
  destruct a as [n c], b as [m d]. unfold identifier_eqb. simpl.
  destruct (pyval_eqb_spec n m); simpl.
  - destruct (String.eqb_spec c d); constructor; congruence.
  - constructor. congruence.
Qed.

Lemma known_In (x : identifier) (l : list identifier) :
  mem identifier_eqb x l = true <-> In x l.
Proof. apply mem_In. apply identifier_eqb_spec. Qed.

Lemma unknown_notIn (x : identifier) (l : list identifier) :
  mem identifier_eqb x l = false <-> ~ In x l.
Proof. apply mem_false_In. apply identifier_eqb_spec. Qed.

(** A record is kept only if its identifier was not in the set. *)
Lemma filter_unique_In (l : list SourceDict) (seen : list identifier) (d : SourceDict) :
  In d (filter_unique l seen) -> In d l /\ ~ In (new_identifier d) seen.
Proof.
  revert seen. induction l as [|a l IH]; simpl; intros seen H; [contradiction|].
  destruct (mem identifier_eqb (new_identifier a) seen) eqn:E.
  - apply IH in H. tauto.
  - destruct H as [H | H].
    + subst. split; [auto|]. apply unknown_notIn. exact E.
    + apply IH in H. simpl in H. tauto.
Qed.

(** The records kept have pairwise different identifiers. *)
Lemma filter_unique_NoDup (l : list SourceDict) (seen : list identifier) :
  NoDup (map new_identifier (filter_unique l seen)).
Proof.
  revert seen. induction l as [|a l IH]; simpl; intros seen; [constructor|].
  destruct (mem identifier_eqb (new_identifier a) seen) eqn:E; [apply IH|].
  simpl. constructor; [|apply IH].
  intros H. apply in_map_iff in H. destruct H as [d [Hd Hin]].
  apply filter_unique_In in Hin. destruct Hin as [_ Hn].
  apply Hn. left. symmetry. exact Hd.
Qed.

(** No identifier is lost: each incoming one was in the set or is kept. *)
Lemma filter_unique_complete (l : list SourceDict) (seen : list identifier) (d : SourceDict) :
  In d l ->
  In (new_identifier d) seen \/
  In (new_identifier d) (map new_identifier (filter_unique l seen)).
Proof.
  revert seen. induction l as [|a l IH]; simpl; intros seen H; [contradiction|].
  destruct (mem identifier_eqb (new_identifier a) seen) eqn:E.
  - destruct H as [H | H].
    + subst. left. apply known_In. exact E.
    + apply IH. exact H.
  - destruct H as [H | H].
    + subst. right. left. reflexivity.
    + destruct (IH (new_identifier a :: seen) H) as [[Hs | Hs] | Hs].
      * right. left. exact Hs.
      * left. exact Hs.
      * right. right. exact Hs.
Qed.

(** The loop computes the specification's [dedupe], whenever its set holds
    the existing identifiers and those of the records already visited. *)
Lemma filter_unique_spec (known : list identifier) (l earlier : list SourceDict)
      (seen : list identifier) :
  (forall x, In x seen <-> In x known \/ In x (map new_identifier earlier)) ->
  filter_unique l seen =
  map snd
      (filter
         (fun p =>
            negb (mem identifier_eqb (new_identifier (snd p)) known) &&
            negb (mem identifier_eqb (new_identifier (snd p))
                      (map new_identifier (fst p))))
         (with_earlier earlier l)).
Proof.
  revert earlier seen. induction l as [|a l IH]; intros earlier seen Hinv; simpl;
    [reflexivity|].
  assert (Hnext : forall S',
            (forall x, In x S' <-> In x seen \/ x = new_identifier a) ->
            forall x, In x S' <->
                      In x known \/ In x (map new_identifier (earlier ++ [a])%list)).
  { intros S' HS x. rewrite HS, Hinv, map_app, in_app_iff. simpl. intuition. }
  destruct (mem identifier_eqb (new_identifier a) seen) eqn:E.
  - assert (Hk : In (new_identifier a) seen) by (apply known_In; exact E).
    replace (negb (mem identifier_eqb (new_identifier a) known) &&
             negb (mem identifier_eqb (new_identifier a) (map new_identifier earlier)))
      with false.
    + apply IH. apply Hnext. intros x. split; [auto|].
      intros [H | H]; [exact H | subst; exact Hk].
    + symmetry. apply Hinv in Hk. destruct Hk as [Hk | Hk];
        apply known_In in Hk; rewrite Hk; simpl;
        [reflexivity | apply andb_false_r].
  - assert (Hk : ~ In (new_identifier a) seen) by (apply unknown_notIn; exact E).
    replace (negb (mem identifier_eqb (new_identifier a) known) &&
             negb (mem identifier_eqb (new_identifier a) (map new_identifier earlier)))
      with true.
    + simpl. f_equal. apply IH. apply Hnext. intros x. simpl.
      split; intros [H | H]; auto.
    + symmetry. apply andb_true_iff. split; apply negb_true_iff, unknown_notIn;
        intros H; apply Hk, Hinv; auto.
Qed.

End DedupeFacts.

Module DedupeProperties.

Import ChatOrchestrator SpecModel PyFacts DedupeFacts.

(** What the filter of [_add_unique_sources_to_session] computes, for every
    input.  The identity of an incoming record is [(name, content[:100])];
    the identity of a source the session already has is
    [(name or "Unknown", (content or "")[:100])], which is the same pair
    whenever the stored name is not empty.  The sources handed to the
    session are exactly the incoming records whose identity is none of the
    existing identities, several incoming records with one identity being
    collapsed to the first; so the added records have pairwise different
    identities, none of them an existing one, and every incoming identity
    is either an existing one or that of an added record. *)
Theorem unique_sources_dedupes_by_identifier
        (existing : list SourceItem) (incoming : list SourceDict) :
  let known := map existing_identifier existing in
  let added := unique_sources existing incoming in
  added = dedupe_spec known incoming /\
  NoDup (map new_identifier added) /\
  (forall d, In d added -> In d incoming /\ ~ In (new_identifier d) known) /\
  (forall d, In d incoming ->
             In (new_identifier d) known \/
             In (new_identifier d) (map new_identifier added)) /\
  (forall e c, In e existing -> truthy (si_name e) = true -> si_content e = Some c ->
               existing_identifier e = (si_name e, slice_to 100 c)).
Proof.
  intros known added. unfold added, unique_sources. fold known.
  split; [|split; [|split; [|split]]].
  - unfold dedupe_spec. apply filter_unique_spec. intros x. simpl. tauto.
  - apply filter_unique_NoDup.
  - intros d H. apply filter_unique_In. exact H.
  - intros d H. apply filter_unique_complete. exact H.
  - intros e c _ Ht Hc. unfold existing_identifier. rewrite Ht, Hc. reflexivity.
Qed.

Lemma unique_sources_dedupes_by_identifier_witness :
  let stored := mkSourceItem (PStr "geo.pdf") (Some "Paris") None (Some "rag") (Some []) in
  let a := mkSourceDict (PStr "geo.pdf") "Paris" "Paris" "rag" [] in
  let b := mkSourceDict (PStr "bio.pdf") "Cells" "Cells" "rag" [] in
  In b (unique_sources [stored] [a; b; b]) /\
  In b [a; b; b] /\
  ~ In (new_identifier b) (map existing_identifier [stored]).
Proof.
  intros stored a b.
  assert (Hb : In b (unique_sources [stored] [a; b; b])) by (simpl; auto).
  split; [exact Hb|].
  destruct (unique_sources_dedupes_by_identifier [stored] [a; b; b])
    as [_ [_ [Hadded _]]].
  apply (Hadded b Hb).
Defined.


End DedupeProperties.

(* ================================================================== *)
(** * The orchestrator *)
(* ================================================================== *)

Module OrchestratorProperties.

Import ChatOrchestrator SpecModel PyFacts Scenarios.

Section Request.

Variable generate_gemini_response : string -> string -> Z -> result string.
Variable generate_meta_response : string -> result string.
Variable generate_rag_response : string -> string -> Z -> result (string * list raw_source).
Variable generate_meta_rag_response : string -> result (string * list raw_source).
Variable within_30s : string -> bool.
Variable done_by_deadline : nat -> bool.

Local Abbreviation generate :=
  (_generate_response_for_mode generate_gemini_response generate_meta_response
                               generate_rag_response generate_meta_rag_response within_30s).
Local Abbreviation single_mode :=
  (process_single_mode generate_gemini_response generate_meta_response
                       generate_rag_response generate_meta_rag_response within_30s).
Local Abbreviation process :=
  (process_chat_request generate_gemini_response generate_meta_response
                        generate_rag_response generate_meta_rag_response
                        within_30s done_by_deadline).
Local Abbreviation outcome :=
  (outcome_text generate_gemini_response generate_meta_response
                generate_rag_response generate_meta_rag_response
                within_30s done_by_deadline).
Local Abbreviation listed_sources :=
  (outcome_sources generate_gemini_response generate_meta_response
                   generate_rag_response generate_meta_rag_response
                   within_30s done_by_deadline).

Lemma validate_ai_modes_true (modes : list string) :
  SessionStore.validate_ai_modes modes = true <->
  Forall (fun mode => In mode Config.AI_MODES) modes.
Proof.
  unfold SessionStore.validate_ai_modes. rewrite forallb_forall, Forall_forall.
  split; intros H mode Hin.
  - apply (mem_In String.eqb String.eqb_spec). apply H. exact Hin.
  - apply (mem_In String.eqb String.eqb_spec). apply H. exact Hin.
Qed.

(** The aggregation loop over tasks that all returned: it never raises,
    and it appends the answers and the formatted sources mode by mode. *)
Lemma collect_returned (req : ChatRequest) (modes : list string) (i : Z)
      (acc : Aggregate) (st : SessionStore.Store) :
  exists st',
    collect req i (map (single_mode req) modes) acc st =
    (Ok (mkAggregate
           (agg_answers acc ++ map (fun mode => fst (generate mode req)) modes)%list
           (agg_all_sources acc ++
            List.concat (map (fun mode =>
                           _safely_format_sources (snd (generate mode req)) (lower mode))
                        modes))%list
           (agg_message_sources acc ++
            map (fun mode =>
                   _safely_format_sources (snd (generate mode req)) (lower mode))
                modes)%list),
     st').
Proof.
  revert i acc st. induction modes as [|mode modes IH]; intros i acc st; simpl.
  - exists st. destruct acc; simpl. rewrite !app_nil_r. reflexivity.
  - unfold process_single_mode at 1.
    destruct (generate mode req) as [answer_text srcs] eqn:E. simpl.
    match goal with
    | |- context [collect req (i + 1) _ ?a ?s] => destruct (IH (i + 1) a s) as [st' Hst]
    end.
    exists st'. rewrite Hst. simpl. rewrite <- !app_assoc. reflexivity.
Qed.

(** C1.  A request with at least one strategy, all of them known modes,
    is answered (nothing is raised) with exactly one outcome entry per
    requested strategy, in request order: a single requested strategy
    gives the field [answer], holding that strategy's outcome, and no
    [answers]; several give the list [answers], whose entries are the
    outcomes of the requested strategies in the order of the request, and
    no [answer].  [message_sources] lists the formatted sources of each
    strategy in the same order. *)
Theorem one_outcome_per_requested_strategy
        (req : ChatRequest) (st : SessionStore.Store) :
  ai_modes req <> [] ->
  Forall (fun mode => In mode Config.AI_MODES) (ai_modes req) ->
  exists resp st',
    process req st = (Ok resp, st') /\
    message_sources resp = Some (map (listed_sources req) (ai_modes req)) /\
    match ai_modes req with
    | [mode] => answer resp = Some (outcome req mode) /\ answers resp = None
    | modes => answer resp = None /\ answers resp = Some (map (outcome req) modes)
    end.
Proof.
  intros Hne Hvalid. apply validate_ai_modes_true in Hvalid.
  unfold process_chat_request. rewrite Hvalid. simpl negb. cbv iota.
  unfold join, outcome_text, outcome_sources.
  destruct (forallb done_by_deadline (seq 0 (List.length (ai_modes req)))) eqn:D.
  - destruct (collect_returned req (ai_modes req) 0 (mkAggregate [] [] [])
                               (SessionStore.add_user_message st (session_id req)
                                                              (message req)))
      as [st2 Hc].
    rewrite Hc. cbn [agg_answers agg_all_sources agg_message_sources app].
    eexists. eexists. split; [reflexivity|].
    destruct (ai_modes req) as [|m [|m2 rest]]; [congruence | |];
      simpl; repeat split; reflexivity.
  - cbn [timeout_aggregate agg_answers agg_all_sources agg_message_sources].
    eexists. eexists. split; [reflexivity|].
    destruct (ai_modes req) as [|m [|m2 rest]]; [congruence | |];
      simpl; repeat split; reflexivity.
Qed.

(** C2.  A request that names a strategy outside the four known modes is
    refused with a [ValueError] and the store is handed back as it was
    received: no user turn, no assistant turn and no source has been
    appended, so the number of turns of every session is unchanged. *)
Theorem invalid_mode_rejected_before_any_mutation
        (req : ChatRequest) (st : SessionStore.Store) :
  (exists mode, In mode (ai_modes req) /\ ~ In mode Config.AI_MODES) ->
  (exists msg, fst (process req st) = Raise (ValueError msg)) /\
  snd (process req st) = st /\
  (forall sid,
     List.length (SessionStore.session_messages (snd (process req st)) sid) =
     List.length (SessionStore.session_messages st sid)).
Proof.
  intros [mode [Hin Hbad]].
  assert (Hv : SessionStore.validate_ai_modes (ai_modes req) = false).
  { destruct (SessionStore.validate_ai_modes (ai_modes req)) eqn:E; [|reflexivity].
    apply validate_ai_modes_true in E. rewrite Forall_forall in E.
    exfalso. apply Hbad. apply E. exact Hin. }
  unfold process_chat_request. rewrite Hv. simpl.
  split; [eexists; reflexivity|]. split; reflexivity.
Qed.

End Request.

Lemma one_outcome_per_requested_strategy_witness :
  let req := mkChatRequest "s1" "What is X?" ["Gemini"; "RAG"] 0 "gemini-1.5-flash" in
  let gemini := fun (_ _ : string) (_ : Z) => Ok "X is a letter." in
  let meta := fun _ : string => Ok "unused" in
  let rag :=
    fun (_ _ : string) (_ : Z) =>
      Ok ("X is described in the notes.",
          [RDoc "X is the 24th letter." (Some [("source", PStr "docs/abc.txt")])]) in
  let meta_rag := fun _ : string => Ok ("unused", @nil raw_source) in
  ai_modes req <> [] /\
  Forall (fun mode => In mode Config.AI_MODES) (ai_modes req) /\
  exists resp st',
    process_chat_request gemini meta rag meta_rag (fun _ => true) (fun _ => true)
                         req empty_store = (Ok resp, st') /\
    answer resp = None /\
    answers resp = Some ["X is a letter."; "X is described in the notes."].
Proof.
  intros req gemini meta rag meta_rag.
  assert (H1 : ai_modes req <> []) by discriminate.
  assert (H2 : Forall (fun mode => In mode Config.AI_MODES) (ai_modes req))
    by (repeat constructor; simpl; auto).
  split; [exact H1|]. split; [exact H2|].
  destruct (one_outcome_per_requested_strategy gemini meta rag meta_rag
              (fun _ => true) (fun _ => true) req empty_store H1 H2)
    as [resp [st' [Hp [_ Ha]]]].
  exists resp, st'. split; [exact Hp|]. exact Ha.
Defined.

Lemma invalid_mode_rejected_before_any_mutation_witness :
  let req := mkChatRequest "s1" "What is X?" ["Gemini"; "GPT"] 0 "gemini-1.5-flash" in
  let gemini := fun (_ _ : string) (_ : Z) => Ok "X is a letter." in
  let meta := fun _ : string => Ok "unused" in
  let rag := fun (_ _ : string) (_ : Z) => Ok ("unused", @nil raw_source) in
  let meta_rag := fun _ : string => Ok ("unused", @nil raw_source) in
  (exists mode, In mode (ai_modes req) /\ ~ In mode Config.AI_MODES) /\
  snd (process_chat_request gemini meta rag meta_rag (fun _ => true) (fun _ => true)
                            req empty_store) = empty_store.
Proof.
  intros req gemini meta rag meta_rag.
  assert (H : exists mode, In mode (ai_modes req) /\ ~ In mode Config.AI_MODES).
  { exists "GPT". split; [simpl; auto|].
    simpl. intros [E | [E | [E | [E | []]]]]; discriminate E. }
  split; [exact H|].
  apply (invalid_mode_rejected_before_any_mutation gemini meta rag meta_rag
           (fun _ => true) (fun _ => true) req empty_store H).
Defined.

(** C3 at a concrete request.  Two strategies are requested; the Gemini
    task has returned its answer when the 60 seconds are over, the Meta
    task has not.  The response carries the time-out text for both, the
    answer of the finished Gemini task is dropped, and the session holds
    the user turn only. *)
Lemma global_timeout_discards_finished_answer :
  let req := mkChatRequest "s1" "What is X?" ["Gemini"; "Meta"] 0 "gemini-1.5-flash" in
  let gemini := fun (_ _ : string) (_ : Z) => Ok "X is a letter." in
  let meta := fun _ : string => Ok "never delivered" in
  let rag := fun (_ _ : string) (_ : Z) => Ok ("unused", @nil raw_source) in
  let meta_rag := fun _ : string => Ok ("unused", @nil raw_source) in
  let done_by_deadline := fun position : nat => Nat.eqb position 0 in
  let r := process_chat_request gemini meta rag meta_rag (fun _ => true) done_by_deadline
                                req empty_store in
  done_by_deadline 0%nat = true /\
  process_single_mode gemini meta rag meta_rag (fun _ => true) req "Gemini"
    = Returned "Gemini" "X is a letter." [] [] /\
  fst r = Ok (mkChatResponse
                None
                (Some ["⏰ Gemini: Request timed out after 60 seconds";
                       "⏰ Meta: Request timed out after 60 seconds"])
                (Some [])
                (Some [[]; []])) /\
  SessionStore.session_messages (snd r) "s1"
    = [SessionStore.mkMessageRow "s1" "user" "What is X?" None None].
Proof.
  intros req gemini meta rag meta_rag done_by_deadline r.
  split; [reflexivity|]. split; [reflexivity|]. split; reflexivity.
Qed.

End OrchestratorProperties.

(* ================================================================== *)
(** * More about the credential pool *)
(* ================================================================== *)

Module PoolMore.

Import GeminiApiManager PoolFacts.

Lemma choice_nonempty (rnd : nat) (a : Z) (l : list Z) :
  exists k, choice rnd (a :: l) = Some k.
Proof.
  unfold choice. destruct (nth_error (a :: l) (rnd mod List.length (a :: l))) as [k|] eqn:E.
  - exists k. reflexivity.
  - apply nth_error_None in E.
    pose proof (Nat.mod_upper_bound rnd (List.length (a :: l))) as Hb.
    simpl in *. lia.
Qed.

(** The random selection fails exactly when no key is available. *)
Lemma select_random_total (now : time) (rnd : nat) (pool : Pool) :
  (get_available_keys now pool = [] /\ select_random_api_key now rnd pool = None) \/
  (exists k, select_random_api_key now rnd pool = Some k /\
             In k (get_available_keys now pool)).
Proof.
  destruct (select_random_api_key now rnd pool) as [k|] eqn:E.
  - right. exists k. split; [reflexivity|]. apply (select_random_available _ _ _ _ E).
  - left. split; [|reflexivity]. unfold select_random_api_key in E.
    destruct (get_available_keys now pool) as [|a l]; [reflexivity|].
    exfalso. destruct (weighted_keys now pool (a :: l)) as [|x w].
    + destruct (choice_nonempty rnd a l) as [k Hk]. congruence.
    + destruct (choice_nonempty rnd x w) as [k Hk]. congruence.
Qed.

Lemma lookup_has_key (pool : Pool) (k : Z) (s : ApiKeyStatus) :
  lookup pool k = Some s -> has_key pool k = true.
Proof.
  unfold lookup. destruct (has_key pool k); [reflexivity | discriminate].
Qed.

Lemma has_key_lookup (pool : Pool) (k : Z) :
  has_key pool k = true -> exists s, lookup pool k = Some s.
Proof.
  intros H. unfold lookup. rewrite H. unfold has_key in H.
  apply andb_true_iff in H. destruct H as [H0 H1].
  apply Z.leb_le in H0. apply Z.ltb_lt in H1.
  destruct (nth_error pool (Z.to_nat k)) as [s|] eqn:E; [exists s; reflexivity|].
  apply nth_error_None in E. lia.
Qed.

Lemma update_length (pool : Pool) (i : Z) (f : ApiKeyStatus -> ApiKeyStatus) :
  List.length (update pool i f) = List.length pool.
Proof.
  unfold update. destruct (has_key pool i); [apply update_nth_length | reflexivity].
Qed.

Lemma map_fst_combine_seq {A} (l : list A) (n : nat) :
  map fst (combine (map Z.of_nat (seq n (List.length l))) l) =
  map Z.of_nat (seq n (List.length l)).
Proof.
  revert n. induction l as [|a l IH]; intros n; simpl; [reflexivity|].
  rewrite IH. reflexivity.
Qed.

Lemma filter_all {A} (f : A -> bool) (l : list A) :
  (forall a, In a l -> f a = true) -> filter f l = l.
Proof.
  induction l as [|a l IH]; simpl; intros H; [reflexivity|].
  rewrite (H a (or_introl eq_refl)). f_equal. apply IH. intros b Hb. apply H. auto.
Qed.

(** When every status is eligible, every key is available, in key order. *)
Lemma all_eligible_available (now : time) (pool : Pool) :
  (forall s, In s pool -> eligible now s = true) ->
  get_available_keys now pool = map Z.of_nat (seq 0 (List.length pool)).
Proof.
  intros H. unfold get_available_keys, items. rewrite filter_all.
  - apply map_fst_combine_seq.
  - intros [k s] Hin. simpl. apply H. apply in_combine_r in Hin. exact Hin.
Qed.

Lemma initial_status (valid_keys : list string) (s : ApiKeyStatus) :
  In s (_initialize_api_keys valid_keys) ->
  quota_exhausted_at s = None /\ consecutive_failures s = 0 /\
  is_available s = true /\ last_used s = 0%Q.
Proof.
  unfold _initialize_api_keys. rewrite in_map_iff.
  intros [[i k] [Hs _]]. subst s. simpl. auto.
Qed.

Lemma initial_length (valid_keys : list string) :
  List.length (_initialize_api_keys valid_keys) = List.length valid_keys.
Proof.
  unfold _initialize_api_keys.
  rewrite length_map, length_combine, length_map, length_seq. apply Nat.min_id.
Qed.

(** X1.  A pool that was just initialised has one status per configured
    key, offers every key, in key order, at every clock reading, and its
    selection returns a key of the pool at once and without the fallback
    flag; only a pool without keys makes the selection raise. *)
Theorem fresh_pool_offers_every_key (valid_keys : list string) (now : time) (rnd : nat) :
  let pool := _initialize_api_keys valid_keys in
  List.length pool = List.length valid_keys /\
  get_available_keys now pool = map Z.of_nat (seq 0 (List.length valid_keys)) /\
  ((valid_keys = [] /\
    get_api_key_with_fallback now rnd pool = Raise (ValueError "No API keys available"))
   \/
   (valid_keys <> [] /\
    exists i, get_api_key_with_fallback now rnd pool = Ok (mkSelection i false pool now) /\
              0 <= i < Z.of_nat (List.length valid_keys))).
Proof.
  intros pool.
  assert (Hlen : List.length pool = List.length valid_keys) by apply initial_length.
  assert (Hav : get_available_keys now pool =
                map Z.of_nat (seq 0 (List.length valid_keys))).
  { rewrite <- Hlen. apply all_eligible_available. intros s Hs.
    destruct (initial_status valid_keys s Hs) as [Hq [_ [Ha _]]].
    unfold eligible, is_quota_exhausted. rewrite Ha, Hq. reflexivity. }
  split; [exact Hlen|]. split; [exact Hav|].
  destruct valid_keys as [|k0 rest].
  - left. split; [reflexivity|]. reflexivity.
  - right. split; [discriminate|].
    destruct (select_random_total now rnd pool) as [[He _] | [i [Hs Hin]]].
    + rewrite Hav in He. discriminate He.
    + exists i. unfold get_api_key_with_fallback. rewrite Hs.
      split; [reflexivity|]. rewrite Hav in Hin.
      apply in_map_iff in Hin. destruct Hin as [n [Hn Hin]]. apply in_seq in Hin.
      subst i. lia.
Qed.

(** The minimum computed by the loop of [_find_earliest_quota_recovery]. *)
Lemma earliest_fold_min (l : list (Z * ApiKeyStatus)) (acc : option (Z * time))
      (i : Z) (t : time) :
  fold_left earliest_step l acc = Some (i, t) ->
  (forall j t0, acc = Some (j, t0) -> (t <= t0)%Q) /\
  (forall e T', In e l -> quota_exhausted_at (snd e) = Some T' -> (t <= T' + 60)%Q).
Proof.
  revert acc. induction l as [|e l IH]; simpl; intros acc H.
  - split; [|intros e T' []]. intros j t0 Ha. rewrite Ha in H. inversion H. lra.
  - destruct (IH _ H) as [Hacc Hrest]. unfold earliest_step in Hacc.
    split.
    + intros j t0 Ha. subst acc.
      destruct (quota_exhausted_at (snd e)) as [T|].
      * destruct (Qltb (T + 60) t0) eqn:Hlt.
        -- apply Qltb_lt in Hlt. specialize (Hacc _ _ eq_refl). lra.
        -- apply (Hacc _ _ eq_refl).
      * apply (Hacc _ _ eq_refl).
    + intros e' T' [He | He] Hq; [|apply (Hrest e' T' He Hq)].
      subst e'. rewrite Hq in Hacc.
      destruct acc as [[j t0]|].
      * destruct (Qltb (T' + 60) t0) eqn:Hlt.
        -- apply (Hacc _ _ eq_refl).
        -- apply Qltb_ge in Hlt. specialize (Hacc _ _ eq_refl). lra.
      * apply (Hacc _ _ eq_refl).
Qed.

(** X2.  [_find_earliest_quota_recovery] finds nothing exactly when no key
    carries a quota stamp; otherwise it returns a stamped key together with
    its recovery time, stamp + 60, and no stamped key recovers earlier. *)
Theorem earliest_recovery_is_minimal (pool : Pool) :
  match _find_earliest_quota_recovery pool with
  | None => forall k s, lookup pool k = Some s -> quota_exhausted_at s = None
  | Some (i, t) =>
      (exists s T, lookup pool i = Some s /\ quota_exhausted_at s = Some T /\
                   t = (T + 60)%Q) /\
      (forall k s T', lookup pool k = Some s -> quota_exhausted_at s = Some T' ->
                      (t <= T' + 60)%Q)
  end.
Proof.
  unfold _find_earliest_quota_recovery.
  destruct (fold_left earliest_step (items pool) None) as [[i t]|] eqn:E.
  - split.
    + destruct (earliest_fold_some _ _ _ _ E) as [H | [s [T [Hin [Hq Ht]]]]];
        [discriminate|].
      exists s, T. split; [apply In_items; exact Hin | auto].
    + intros k s T' Hl Hq. destruct (earliest_fold_min _ _ _ _ E) as [_ Hmin].
      apply (Hmin (k, s) T'); [apply In_items; exact Hl | exact Hq].
  - intros k s Hl. destruct (earliest_fold_none _ _ E) as [_ Hall].
    apply (Hall (k, s)). apply In_items. exact Hl.
Qed.

Lemma earliest_recovery_is_minimal_witness :
  let pool := [mkApiKeyStatus 0 "key-a" 0%Q (Some 30%Q) 1 true;
               mkApiKeyStatus 1 "key-b" 0%Q (Some 12%Q) 1 true] in
  _find_earliest_quota_recovery pool = Some (1, (12 + 60)%Q) /\
  (12 + 60 <= 30 + 60)%Q.
Proof.
  intros pool. split; [reflexivity|].
  pose proof (earliest_recovery_is_minimal pool) as H.
  change (_find_earliest_quota_recovery pool) with (Some (1, (12 + 60)%Q)) in H.
  destruct H as [_ Hmin].
  apply (Hmin 0 (mkApiKeyStatus 0 "key-a" 0%Q (Some 30%Q) 1 true) 30%Q); reflexivity.
Defined.

(** X3.  [get_api_key_with_fallback] raises only for a pool without
    keys.  Otherwise it returns a key of the pool, leaves the number of
    keys as it is and does not return before it was entered; without the
    fallback flag the key is one of the available keys and neither the pool
    nor the clock has changed, and the flag is set only when no key was
    available. *)
Theorem selection_returns_a_pool_key (now : time) (rnd : nat) (pool : Pool) :
  (pool = [] /\
   get_api_key_with_fallback now rnd pool = Raise (ValueError "No API keys available"))
  \/
  (pool <> [] /\
   exists sel,
     get_api_key_with_fallback now rnd pool = Ok sel /\
     has_key pool (sel_index sel) = true /\
     List.length (sel_pool sel) = List.length pool /\
     (now <= sel_now sel)%Q /\
     (if sel_fallback sel
      then get_available_keys now pool = []
      else In (sel_index sel) (get_available_keys now pool) /\
           sel_pool sel = pool /\ sel_now sel = now)).
Proof.
  destruct pool as [|s0 rest]; [left; split; reflexivity|].
  right. split; [discriminate|].
  set (pool := s0 :: rest).
  destruct (get_api_key_with_fallback now rnd pool) as [sel|e] eqn:E.
  - exists sel. split; [reflexivity|].
    pose proof (selection_time_monotone _ _ _ _ E) as Hmono.
    unfold get_api_key_with_fallback in E.
    destruct (select_random_total now rnd pool) as [[Hnone Hs] | [k [Hs Hin]]];
      rewrite Hs in E.
    + destruct (_find_earliest_quota_recovery pool) as [[i t]|] eqn:Hf.
      * inversion E; subst sel; simpl in *.
        unfold _find_earliest_quota_recovery in Hf.
        destruct (earliest_fold_some _ _ _ _ Hf) as [H | [s [T [Hi _]]]]; [discriminate|].
        apply In_items in Hi.
        split; [apply (lookup_has_key _ _ _ Hi)|].
        split; [apply update_length|]. split; [exact Hmono | exact Hnone].
      * simpl in E. inversion E; subst sel; simpl.
        split; [reflexivity|]. split; [reflexivity|]. split; [lra | exact Hnone].
    + inversion E; subst sel; simpl.
      apply In_available_keys in Hin. destruct Hin as [s [Hl He]].
      split; [apply (lookup_has_key _ _ _ Hl)|]. split; [reflexivity|].
      split; [lra|]. split; [|split; reflexivity].
      apply In_available_keys. exists s. auto.
  - exfalso. unfold get_api_key_with_fallback in E.
    destruct (select_random_api_key now rnd pool); [discriminate|].
    destruct (_find_earliest_quota_recovery pool) as [[i t]|]; discriminate.
Qed.

(** X4.  When no key is available but some key carries a quota stamp, the
    selection returns the key [_find_earliest_quota_recovery] names, with
    the fallback flag, exactly at the later of the entry time and that
    key's recovery time; it clears the stamp of that key and leaves every
    other status as it is. *)
Theorem fallback_waits_for_earliest_recovery
        (now : time) (rnd : nat) (pool : Pool) (i : Z) (t : time) :
  get_available_keys now pool = [] ->
  _find_earliest_quota_recovery pool = Some (i, t) ->
  exists sel,
    get_api_key_with_fallback now rnd pool = Ok sel /\
    sel_index sel = i /\ sel_fallback sel = true /\
    (now <= sel_now sel)%Q /\ (t <= sel_now sel)%Q /\
    (sel_now sel == now \/ sel_now sel == t)%Q /\
    lookup (sel_pool sel) i = option_map clear_quota_exhaustion (lookup pool i) /\
    (forall k, k <> i -> lookup (sel_pool sel) k = lookup pool k).
Proof.
  intros Hnone Hf. unfold get_api_key_with_fallback.
  assert (Hs : select_random_api_key now rnd pool = None)
    by (unfold select_random_api_key; rewrite Hnone; reflexivity).
  rewrite Hs, Hf. eexists. split; [reflexivity|]. simpl.
  split; [reflexivity|]. split; [reflexivity|].
  assert (Htime :
    let now' := if Qltb 0 (py_max 0 (t - now)) then (now + py_max 0 (t - now))%Q else now in
    (now <= now')%Q /\ (t <= now')%Q /\ (now' == now \/ now' == t)%Q).
  { unfold py_max. destruct (Qltb 0 (t - now)) eqn:Hw.
    - rewrite Hw. apply Qltb_lt in Hw. simpl.
      split; [lra|]. split; [lra|]. right. ring.
    - replace (Qltb 0 0) with false by reflexivity. apply Qltb_ge in Hw. simpl.
      split; [lra|]. split; [lra|]. left. reflexivity. }
  destruct Htime as [H1 [H2 H3]].
  split; [exact H1|]. split; [exact H2|]. split; [exact H3|].
  split.
  - rewrite lookup_update, Z.eqb_refl. reflexivity.
  - intros k Hk. rewrite lookup_update.
    destruct (Z.eqb_spec i k); [congruence | reflexivity].
Qed.

Lemma fallback_waits_for_earliest_recovery_witness :
  let pool := [mkApiKeyStatus 0 "key-a" 0%Q (Some 30%Q) 1 true;
               mkApiKeyStatus 1 "key-b" 0%Q (Some 12%Q) 1 true] in
  get_available_keys 40%Q pool = [] /\
  _find_earliest_quota_recovery pool = Some (1, (12 + 60)%Q) /\
  exists sel,
    get_api_key_with_fallback 40%Q 5%nat pool = Ok sel /\
    sel_index sel = 1 /\ (12 + 60 <= sel_now sel)%Q.
Proof.
  intros pool.
  assert (H1 : get_available_keys 40%Q pool = []) by reflexivity.
  assert (H2 : _find_earliest_quota_recovery pool = Some (1, (12 + 60)%Q)) by reflexivity.
  split; [exact H1|]. split; [exact H2|].
  destruct (fallback_waits_for_earliest_recovery 40%Q 5%nat pool 1 (12 + 60)%Q H1 H2)
    as [sel [Hsel [Hi [_ [_ [Ht _]]]]]].
  exists sel. split; [exact Hsel|]. split; [exact Hi | exact Ht].
Defined.

Lemma has_key_same_length (p q : Pool) (k : Z) :
  List.length p = List.length q -> has_key p k = has_key q k.
Proof. intros H. unfold has_key. rewrite H. reflexivity. Qed.

Lemma apply_op_length (now : time) (op : pool_op) (pool : Pool) :
  List.length (apply_op now op pool) = List.length pool.
Proof.
  destruct op as [i success quota | i | rnd]; simpl.
  - unfold mark_api_result. destruct (has_key pool i); simpl; [|reflexivity].
    destruct success; [|destruct quota]; apply update_length.
  - unfold reset_api_key. destruct (has_key pool i); [apply update_length | reflexivity].
  - destruct (get_api_key_with_fallback now rnd pool) as [sel|e] eqn:E; [|reflexivity].
    unfold get_api_key_with_fallback in E.
    destruct (select_random_api_key now rnd pool); [inversion E; reflexivity|].
    destruct (_find_earliest_quota_recovery pool) as [[j t]|].
    + inversion E; simpl. apply update_length.
    + destruct (items pool) as [|[j st] l]; inversion E; reflexivity.
Qed.

(** X5.  A pool operation keeps the number of keys and changes at most one
    status: that of the key a report or a reset names, or of the key a
    selection returns on its fallback path.  A report or a reset for an
    index that is no key of the pool changes nothing. *)
Theorem pool_operations_touch_one_key (now : time) (op : pool_op) (pool : Pool) (k : Z) :
  lookup (apply_op now op pool) k <> lookup pool k ->
  List.length (apply_op now op pool) = List.length pool /\
  has_key pool k = true /\
  match op with
  | Report i _ _ => i = k
  | Reset i => i = k
  | Select rnd =>
      exists sel, get_api_key_with_fallback now rnd pool = Ok sel /\
                  sel_index sel = k /\ sel_fallback sel = true
  end.
Proof.
  intros Hdiff. split; [apply apply_op_length|]. split.
  - destruct (has_key pool k) eqn:Hk; [reflexivity|]. exfalso. apply Hdiff.
    unfold lookup. rewrite Hk.
    rewrite (has_key_same_length _ pool k (apply_op_length now op pool)), Hk.
    reflexivity.
  - destruct op as [i success quota | i | rnd]; simpl in *.
    + rewrite mark_api_result_lookup in Hdiff.
      destruct (Z.eqb_spec i k); [assumption | congruence].
    + rewrite reset_api_key_lookup in Hdiff.
      destruct (Z.eqb_spec i k); [assumption | congruence].
    + destruct (get_api_key_with_fallback now rnd pool) as [sel|e] eqn:E; [|congruence].
      exists sel. split; [reflexivity|].
      destruct (selection_lookup _ _ _ _ k E) as [Hsame | [Hk _]]; [congruence|].
      split; [exact Hk|].
      unfold get_api_key_with_fallback in E.
      destruct (select_random_api_key now rnd pool); [inversion E; subst; simpl in *; congruence|].
      destruct (_find_earliest_quota_recovery pool) as [[j t]|]; [inversion E; reflexivity|].
      destruct (items pool) as [|[j st] l]; inversion E; reflexivity.
Qed.

Lemma pool_operations_touch_one_key_witness :
  let pool := _initialize_api_keys ["key-a"; "key-b"] in
  lookup (apply_op 5%Q (Report 1 false true) pool) 1 <> lookup pool 1 /\
  has_key pool 1 = true.
Proof.
  intros pool.
  assert (H : lookup (apply_op 5%Q (Report 1 false true) pool) 1 <> lookup pool 1)
    by discriminate.
  split; [exact H|].
  destruct (pool_operations_touch_one_key 5%Q (Report 1 false true) pool 1 H)
    as [_ [Hk _]].
  exact Hk.
Defined.

(** X6.  A reported success and a reset both put a key of the pool back
    among the available keys, at every later clock reading and whatever
    its state was; its failure counter is 0 and some draw selects it. *)
Theorem success_or_reset_makes_key_available
        (pool : Pool) (k : Z) (now later : time) (quota : bool) :
  has_key pool k = true ->
  let after_success := mark_api_result now pool k true quota in
  let after_reset := reset_api_key pool k in
  In k (get_available_keys later after_success) /\
  In k (get_available_keys later after_reset) /\
  option_map consecutive_failures (lookup after_success k) = Some 0 /\
  option_map consecutive_failures (lookup after_reset k) = Some 0 /\
  (exists rnd, select_random_api_key later rnd after_success = Some k) /\
  (exists rnd, select_random_api_key later rnd after_reset = Some k).
Proof.
  intros Hk after_success after_reset.
  destruct (has_key_lookup pool k Hk) as [s Hl].
  assert (Hs : lookup after_success k = Some (mark_success now s))
    by (unfold after_success; rewrite mark_api_result_lookup, Z.eqb_refl, Hl; reflexivity).
  assert (Hr : lookup after_reset k = Some (reset_status s))
    by (unfold after_reset; rewrite reset_api_key_lookup, Z.eqb_refl, Hl; reflexivity).
  split; [apply (eligible_available later _ k _ Hs); reflexivity|].
  split; [apply (eligible_available later _ k _ Hr); reflexivity|].
  split; [rewrite Hs; reflexivity|]. split; [rewrite Hr; reflexivity|].
  split.
  - apply (eligible_selectable later _ k _ Hs); reflexivity.
  - apply (eligible_selectable later _ k _ Hr); reflexivity.
Qed.

Lemma success_or_reset_makes_key_available_witness :
  let pool := [mkApiKeyStatus 0 "key-a" 0%Q (Some 30%Q) 7 false] in
  has_key pool 0 = true /\
  get_available_keys 31%Q pool = [] /\
  In 0 (get_available_keys 31%Q (mark_api_result 31%Q pool 0 true false)).
Proof.
  intros pool.
  assert (Hk : has_key pool 0 = true) by reflexivity.
  split; [exact Hk|]. split; [reflexivity|].
  destruct (success_or_reset_makes_key_available pool 0 31%Q 31%Q false Hk) as [H _].
  exact H.
Defined.

(** What an operation can do to one status. *)
Lemma apply_op_lookup (now : time) (op : pool_op) (pool : Pool) (k : Z) :
  lookup (apply_op now op pool) k = lookup pool k \/
  exists f,
    lookup (apply_op now op pool) k = option_map f (lookup pool k) /\
    In f [mark_success now; mark_quota_exhausted now; mark_failure;
          reset_status; clear_quota_exhaustion].
Proof.
  destruct op as [i success quota | i | rnd]; simpl.
  - rewrite mark_api_result_lookup. destruct (i =? k); [|left; reflexivity].
    right. eexists. split; [reflexivity|].
    destruct success; [|destruct quota]; simpl; auto.
  - rewrite reset_api_key_lookup. destruct (i =? k); [|left; reflexivity].
    right. eexists. split; [reflexivity|]. simpl; auto 6.
  - destruct (get_api_key_with_fallback now rnd pool) as [sel|e] eqn:E; [|left; reflexivity].
    destruct (selection_lookup _ _ _ _ k E) as [Hsame | [_ Hclr]]; [left; exact Hsame|].
    right. eexists. split; [exact Hclr|]. simpl; auto 6.
Qed.

Lemma initial_nth (F : Z * string -> ApiKeyStatus) (keys : list string) :
  forall (n i : nat) (s : ApiKeyStatus),
    nth_error (map F (combine (map Z.of_nat (seq n (List.length keys))) keys)) i = Some s ->
    exists key0, nth_error keys i = Some key0 /\ s = F (Z.of_nat (n + i), key0).
Proof.
  induction keys as [|k keys IH]; intros n i s H.
  - destruct i; discriminate.
  - destruct i as [|i]; simpl in H.
    + inversion H. exists k. split; [reflexivity|]. do 2 f_equal. lia.
    + destruct (IH (S n) i s H) as [key0 [Hk Hs]].
      exists key0. split; [exact Hk|]. rewrite Hs. do 2 f_equal. lia.
Qed.

Lemma initial_lookup (valid_keys : list string) (k : Z) (s : ApiKeyStatus) :
  lookup (_initialize_api_keys valid_keys) k = Some s ->
  exists key0,
    nth_error valid_keys (Z.to_nat k) = Some key0 /\
    s = mkApiKeyStatus k (masked key0) 0%Q None 0 true.
Proof.
  intros H. apply lookup_nth in H. destruct H as [i [Hk Hi]]. subst k.
  unfold _initialize_api_keys in Hi.
  destruct (initial_nth _ valid_keys O i s Hi) as [key0 [Hn Hs]].
  exists key0. rewrite Nat2Z.id. split; [exact Hn|]. exact Hs.
Qed.

(** X7.  In every pool reached from the initial one by reports, resets
    and selections, the status stored under key [k] still has [index = k]
    and the masked form of the [k]-th configured key, its failure counter
    is not negative, and it is disabled only with a counter of 3 or more;
    the pool has as many statuses as there are configured keys. *)
Theorem reachable_pool_invariant
        (valid_keys : list string) (trace : list (time * pool_op))
        (k : Z) (s : ApiKeyStatus) :
  lookup (run trace (_initialize_api_keys valid_keys)) k = Some s ->
  List.length (run trace (_initialize_api_keys valid_keys)) = List.length valid_keys /\
  index s = k /\
  (exists key0, nth_error valid_keys (Z.to_nat k) = Some key0 /\ key s = masked key0) /\
  0 <= consecutive_failures s /\
  (is_available s = false -> 3 <= consecutive_failures s).
Proof.
  assert (Hgen : forall trace pool,
            List.length pool = List.length valid_keys ->
            (forall s, lookup pool k = Some s ->
                       index s = k /\
                       (exists key0, nth_error valid_keys (Z.to_nat k) = Some key0 /\
                                     key s = masked key0) /\
                       0 <= consecutive_failures s /\
                       (is_available s = false -> 3 <= consecutive_failures s)) ->
            forall s, lookup (run trace pool) k = Some s ->
                      List.length (run trace pool) = List.length valid_keys /\
                      index s = k /\
                      (exists key0, nth_error valid_keys (Z.to_nat k) = Some key0 /\
                                    key s = masked key0) /\
                      0 <= consecutive_failures s /\
                      (is_available s = false -> 3 <= consecutive_failures s)).
  { clear trace s. induction trace as [|[now op] trace IH]; intros pool Hlen Hinv s Hl; simpl in *.
    - split; [exact Hlen | apply Hinv; exact Hl].
    - apply (IH (apply_op now op pool)); [rewrite apply_op_length; exact Hlen | | exact Hl].
      intros s1 H1.
      destruct (apply_op_lookup now op pool k) as [Hsame | [f [Hf Hin]]].
      + apply Hinv. rewrite <- Hsame. exact H1.
      + rewrite Hf in H1. destruct (lookup pool k) as [s0|]; [|discriminate].
        simpl in H1. inversion H1; subst s1.
        destruct (Hinv s0 eq_refl) as [Hi [Hk [Hc Hd]]].
        simpl in Hin.
        destruct Hin as [E | [E | [E | [E | [E | []]]]]]; subst f; simpl;
          (split; [exact Hi|]); (split; [exact Hk|]).
        * split; [lia | discriminate].
        * split; [lia|]. intros Ha. specialize (Hd Ha). lia.
        * split; [lia|].
          destruct (3 <=? consecutive_failures s0 + 1) eqn:E3.
          -- intros _. apply Z.leb_le in E3. exact E3.
          -- intros Ha. specialize (Hd Ha). lia.
        * split; [lia | discriminate].
        * split; [exact Hc | exact Hd]. }
  intros Hl. apply (Hgen trace (_initialize_api_keys valid_keys)); [apply initial_length | | exact Hl].
  intros s1 H1. destruct (initial_lookup valid_keys k s1 H1) as [key0 [Hn Hs]].
  subst s1. simpl. split; [reflexivity|]. split; [exists key0; auto|].
  split; [lia | discriminate].
Qed.

Lemma reachable_pool_invariant_witness :
  let trace := [(1%Q, Report 0 false false); (2%Q, Report 0 false true);
                (3%Q, Report 0 false false); (4%Q, Select 9%nat)] in
  let s := mkApiKeyStatus 0 "key-a" 0%Q None 3 false in
  lookup (run trace (_initialize_api_keys ["key-a"])) 0 = Some s /\
  index s = 0 /\ 3 <= consecutive_failures s.
Proof.
  intros trace s.
  assert (H : lookup (run trace (_initialize_api_keys ["key-a"])) 0 = Some s) by reflexivity.
  split; [exact H|].
  destruct (reachable_pool_invariant ["key-a"] trace 0 s H) as [_ [Hi [_ [_ Hd]]]].
  split; [exact Hi | apply Hd; reflexivity].
Defined.

(** X9.  When no configured key consists of white space only, the pool
    and [get_api_key] number the keys alike: the status stored under a pool
    index [i] holds the masked form of the very key [get_api_key i]
    returns. *)
Theorem pool_index_names_configured_key
        (google_api_keys : list string) (i : Z) (s : ApiKeyStatus) :
  (forall k, In k google_api_keys -> truthy_str k = true -> truthy_str (strip k) = true) ->
  lookup (_initialize_api_keys (Config.get_all_keys google_api_keys)) i = Some s ->
  exists k, Config.get_api_key google_api_keys i = Ok k /\ key s = masked k /\ index s = i.
Proof.
  intros Hblank Hl.
  assert (Hsame : Config.get_all_keys google_api_keys = filter truthy_str google_api_keys).
  { unfold Config.get_all_keys. apply filter_ext_in. intros k Hk.
    destruct (truthy_str k) eqn:E; [|reflexivity]. simpl. apply Hblank; assumption. }
  rewrite Hsame in Hl.
  pose proof (lookup_has_key _ _ _ Hl) as Hk.
  destruct (initial_lookup _ _ _ Hl) as [key0 [Hn Hs]].
  unfold has_key in Hk. rewrite initial_length in Hk.
  apply andb_true_iff in Hk. destruct Hk as [H0 H1].
  apply Z.leb_le in H0. apply Z.ltb_lt in H1.
  unfold Config.get_api_key.
  destruct (filter truthy_str google_api_keys) as [|k0 rest] eqn:E; [simpl in H1; lia|].
  rewrite Z.mod_small by lia.
  destruct (PyFacts.getitem_in_range (k0 :: rest) i (conj H0 H1)) as [a [Ha Hb]].
  exists a. split; [exact Ha|]. rewrite Hn in Hb. inversion Hb; subst a.
  rewrite Hs. simpl. auto.
Qed.

Lemma pool_index_names_configured_key_witness :
  let keys := ["AIza-first-key"; ""; "AIza-second-key"] in
  let s := mkApiKeyStatus 1 "AIza-sec..." 0%Q None 0 true in
  (forall k, In k keys -> truthy_str k = true -> truthy_str (strip k) = true) /\
  lookup (_initialize_api_keys (Config.get_all_keys keys)) 1 = Some s /\
  exists k, Config.get_api_key keys 1 = Ok k /\ key s = masked k /\ index s = 1.
Proof.
  intros keys s.
  assert (H1 : forall k, In k keys -> truthy_str k = true -> truthy_str (strip k) = true).
  { intros k [E | [E | [E | []]]] Hk; subst k; try reflexivity. discriminate Hk. }
  assert (H2 : lookup (_initialize_api_keys (Config.get_all_keys keys)) 1 = Some s)
    by reflexivity.
  split; [exact H1|]. split; [exact H2|].
  apply (pool_index_names_configured_key keys 1 s H1 H2).
Defined.

End PoolMore.

Module PoolStatusFacts.

Import GeminiApiManager PoolFacts PoolStatus.

Section Readings.

Variable clock : nat -> time.

Lemma read_quota_exhausted_next (n : nat) (s : ApiKeyStatus) :
  (n <= snd (read_quota_exhausted clock n s))%nat.
Proof.
  unfold read_quota_exhausted. destruct (quota_exhausted_at s); simpl; lia.
Qed.

Lemma read_quota_exhausted_value (n : nat) (s : ApiKeyStatus) :
  fst (read_quota_exhausted clock n s) = is_quota_exhausted (clock n) s.
Proof.
  unfold read_quota_exhausted, is_quota_exhausted.
  destruct (quota_exhausted_at s); reflexivity.
Qed.

Lemma available_keys_from_next (l : list (Z * ApiKeyStatus)) :
  forall n, (n <= snd (available_keys_from clock n l))%nat.
Proof.
  induction l as [|e l IH]; intros n; cbn [available_keys_from]; [simpl; lia|].
  destruct (is_available (snd e)); [|apply IH].
  pose proof (read_quota_exhausted_next n (snd e)) as H1.
  destruct (read_quota_exhausted clock n (snd e)) as [ex n1]. cbn [snd] in H1.
  pose proof (IH n1) as H2.
  destruct (available_keys_from clock n1 l) as [av n2]. cbn [snd] in *. lia.
Qed.

(** One round of the loop: what it does to the counters, in terms of the
    reading it makes first. *)
Lemma summary_step_counts (summary : StatusSummary) (n : nat) (e : Z * ApiKeyStatus) :
  let r := summary_step clock (summary, n) e in
  let exhausted := is_quota_exhausted (clock n) (snd e) in
  total_keys (fst r) = total_keys summary /\
  available (fst r) = available summary /\
  quota_exhausted (fst r) = quota_exhausted summary + (if exhausted then 1 else 0) /\
  disabled (fst r) =
    disabled summary + (if exhausted then 0 else if is_available (snd e) then 0 else 1) /\
  map fst (details (fst r)) = (map fst (details summary) ++ [fst e])%list /\
  (n <= snd r)%nat.
Proof.
  cbv zeta. unfold summary_step.
  pose proof (read_quota_exhausted_value n (snd e)) as Hv.
  pose proof (read_quota_exhausted_next n (snd e)) as Hn.
  destruct (read_quota_exhausted clock n (snd e)) as [ex n1]. cbn [fst snd] in Hv, Hn.
  pose proof (read_quota_exhausted_next n1 (snd e)) as Hn'.
  destruct (read_quota_exhausted clock n1 (snd e)) as [ex' n2]. cbn [fst snd] in *.
  subst ex.
  destruct (is_quota_exhausted (clock n) (snd e)), (is_available (snd e));
    cbn [negb fst snd total_keys available quota_exhausted disabled details];
    repeat split; try lia; rewrite map_app; reflexivity.
Qed.

(** The two passes over the keys, started at readings [n] and [m] with
    the first pass over before the second begins. *)
Lemma summary_passes (l : list (Z * ApiKeyStatus)) :
  (forall i j, (i <= j)%nat -> (clock i <= clock j)%Q) ->
  forall (n m : nat) (acc : StatusSummary),
    (snd (available_keys_from clock n l) <= m)%nat ->
    let r := fst (fold_left (summary_step clock) l (acc, m)) in
    let counted := Z.of_nat (List.length (fst (available_keys_from clock n l))) in
    total_keys r = total_keys acc /\
    available r = available acc /\
    quota_exhausted acc <= quota_exhausted r /\
    disabled acc <= disabled r /\
    quota_exhausted r + disabled r + counted <=
      quota_exhausted acc + disabled acc + Z.of_nat (List.length l) /\
    map fst (details r) = (map fst (details acc) ++ map fst l)%list /\
    ((forall e, In e l ->
                forall i j, is_quota_exhausted (clock i) (snd e) =
                            is_quota_exhausted (clock j) (snd e)) ->
     quota_exhausted r + disabled r + counted =
       quota_exhausted acc + disabled acc + Z.of_nat (List.length l)).
Proof.
  intros Hmono. induction l as [|e l IH]; intros n m acc Hnm; cbv zeta.
  - cbn [fold_left fst available_keys_from List.length map].
    rewrite app_nil_r. repeat split; try lia.
  - cbn [fold_left].
    pose proof (summary_step_counts acc m e) as Hstep. cbv zeta in Hstep.
    destruct (summary_step clock (acc, m) e) as [acc1 m1]. cbn [fst snd] in Hstep.
    destruct Hstep as [St [Sa [Sq [Sd [Sdet Sm]]]]].
    cbn [available_keys_from] in Hnm |- *.
    assert (Hhead :
              forall n',
                (n <= n')%nat ->
                (snd (available_keys_from clock n' l) <= m)%nat ->
                is_available (snd e) = true ->
                is_quota_exhausted (clock n) (snd e) = false ->
                is_quota_exhausted (clock m) (snd e) = false).
    { intros n' Hn' Hle Ha Hex.
      pose proof (available_keys_from_next l n') as Hnext.
      assert (Hc : (clock n <= clock m)%Q) by (apply Hmono; lia).
      unfold is_quota_exhausted in *.
      destruct (quota_exhausted_at (snd e)) as [T|]; [|reflexivity].
      apply Qltb_ge in Hex. apply Qltb_ge. lra. }
    destruct (is_available (snd e)) eqn:Ha.
    + pose proof (read_quota_exhausted_value n (snd e)) as Hv.
      pose proof (read_quota_exhausted_next n (snd e)) as Hn1.
      destruct (read_quota_exhausted clock n (snd e)) as [ex n1]. cbn [fst snd] in Hv, Hn1.
      subst ex.
      destruct (available_keys_from clock n1 l) as [av n2] eqn:Eav.
      cbn [snd] in Hnm.
      assert (Hrest : (snd (available_keys_from clock n1 l) <= m1)%nat)
        by (rewrite Eav; cbn [snd]; lia).
      destruct (IH n1 m1 acc1 Hrest) as [It [Ia [Iq [Id [Isum [Idet Ieq]]]]]].
      rewrite Eav in Isum, Ieq. cbn [fst] in Isum, Ieq.
      assert (Hm : is_quota_exhausted (clock n) (snd e) = false ->
                   is_quota_exhausted (clock m) (snd e) = false).
      { intros Hex. apply (Hhead n1 Hn1); [rewrite Eav; exact Hnm | reflexivity | exact Hex]. }
      split; [congruence|]. split; [congruence|]. split; [|split; [|split; [|split]]].
      * destruct (is_quota_exhausted (clock m) (snd e)); lia.
      * destruct (is_quota_exhausted (clock m) (snd e)); lia.
      * cbn [fst List.length].
        destruct (is_quota_exhausted (clock n) (snd e)) eqn:En.
        -- destruct (is_quota_exhausted (clock m) (snd e)); lia.
        -- rewrite (Hm eq_refl) in Sq, Sd. cbn [List.length]. lia.
      * rewrite Idet, Sdet, <- app_assoc. reflexivity.
      * intros Hstable.
        assert (Hrest' : forall x, In x l ->
                                   forall i j, is_quota_exhausted (clock i) (snd x) =
                                               is_quota_exhausted (clock j) (snd x))
          by (intros x Hx; apply Hstable; right; exact Hx).
        specialize (Ieq Hrest').
        rewrite (Hstable e (or_introl eq_refl) m n) in Sq, Sd.
        cbn [fst List.length].
        destruct (is_quota_exhausted (clock n) (snd e)); cbn [List.length]; lia.
    + destruct (IH n m1 acc1) as [It [Ia [Iq [Id [Isum [Idet Ieq]]]]]]; [lia|].
      split; [congruence|]. split; [congruence|]. split; [|split; [|split; [|split]]].
      * destruct (is_quota_exhausted (clock m) (snd e)); lia.
      * destruct (is_quota_exhausted (clock m) (snd e)); lia.
      * cbn [List.length]. destruct (is_quota_exhausted (clock m) (snd e)); lia.
      * rewrite Idet, Sdet, <- app_assoc. reflexivity.
      * intros Hstable.
        assert (Hrest' : forall x, In x l ->
                                   forall i j, is_quota_exhausted (clock i) (snd x) =
                                               is_quota_exhausted (clock j) (snd x))
          by (intros x Hx; apply Hstable; right; exact Hx).
        specialize (Ieq Hrest'). cbn [List.length].
        destruct (is_quota_exhausted (clock m) (snd e)); lia.
Qed.

End Readings.

(** With a clock that stands still the first pass is [get_available_keys]. *)
Lemma available_keys_from_still (now : time) (l : list (Z * ApiKeyStatus)) :
  forall n,
    fst (available_keys_from (fun _ => now) n l) =
    map fst (filter (fun e => eligible now (snd e)) l).
Proof.
  induction l as [|e l IH]; intros n; cbn [available_keys_from filter]; [reflexivity|].
  unfold eligible. destruct (is_available (snd e)); cbn [andb]; [|apply IH].
  unfold read_quota_exhausted, is_quota_exhausted.
  destruct (quota_exhausted_at (snd e)) as [T|].
  - specialize (IH (S n)).
    destruct (available_keys_from (fun _ => now) (S n) l) as [av n2]. cbn [fst] in IH.
    destruct (Qltb (now - T) 60); cbn [negb fst map]; rewrite IH; reflexivity.
  - specialize (IH n).
    destruct (available_keys_from (fun _ => now) n l) as [av n2]. cbn [fst] in IH.
    cbn [negb fst map]. rewrite IH. reflexivity.
Qed.

(** X8.  [get_status_summary] reads the clock anew for every key it asks,
    so its three groups need not cover the pool: with a clock that does
    not run backwards, the numbers of available, of quota-exhausted and of
    disabled keys are not negative and add up to at most the total number
    of keys, no key being counted twice; they add up to exactly the total
    when no key's 60 seconds end between two readings of the call.  The
    total is the number of keys of the pool, the details list one entry
    per key in key order, and with a clock that stands still the number of
    available keys is that of [get_available_keys]. *)
Theorem status_summary_counts_at_most_once (clock : nat -> time) (pool : Pool) :
  (forall i j, (i <= j)%nat -> (clock i <= clock j)%Q) ->
  let summary := get_status_summary clock pool in
  total_keys summary = Z.of_nat (List.length pool) /\
  0 <= available summary /\ 0 <= quota_exhausted summary /\ 0 <= disabled summary /\
  available summary + quota_exhausted summary + disabled summary <= total_keys summary /\
  map fst (details summary) = map Z.of_nat (seq 0 (List.length pool)) /\
  ((forall k s, lookup pool k = Some s ->
                forall i j, is_quota_exhausted (clock i) s =
                            is_quota_exhausted (clock j) s) ->
   available summary + quota_exhausted summary + disabled summary = total_keys summary) /\
  ((forall i, clock i = clock 0%nat) ->
   available summary = Z.of_nat (List.length (get_available_keys (clock 0%nat) pool))).
Proof.
  intros Hmono summary. unfold summary, get_status_summary.
  pose proof (available_keys_from_still (clock 0%nat) (items pool)) as Hstill.
  destruct (available_keys_from clock 0 (items pool)) as [av n] eqn:Eav.
  match goal with
  | |- context [fold_left _ _ (?a, _)] =>
      destruct (summary_passes clock (items pool) Hmono 0%nat n a)
        as [Ht [Ha [Hq [Hd [Hsum [Hdet Heq]]]]]]
  end.
  { rewrite Eav. cbn [snd]. lia. }
  rewrite Eav in Hsum, Heq. cbn [fst] in Hsum, Heq.
  cbn [total_keys available quota_exhausted disabled details map app] in *.
  assert (Hlen : List.length (items pool) = List.length pool).
  { unfold items. rewrite length_combine, length_map, length_seq. apply Nat.min_id. }
  rewrite Ht, Ha.
  split; [reflexivity|]. split; [lia|]. split; [lia|]. split; [lia|].
  split; [lia|]. split; [|split].
  - rewrite Hdet. unfold items. apply PoolMore.map_fst_combine_seq.
  - intros Hstable.
    assert (Hs : forall e, In e (items pool) ->
                           forall i j, is_quota_exhausted (clock i) (snd e) =
                                       is_quota_exhausted (clock j) (snd e)).
    { intros [k s] He. apply (Hstable k s). apply In_items. exact He. }
    specialize (Heq Hs). lia.
  - intros Hconst. f_equal. unfold get_available_keys. rewrite length_map.
    assert (Eclock : forall l m,
               available_keys_from clock m l =
               available_keys_from (fun _ => clock 0%nat) m l).
    { induction l as [|e l IH]; intros m; cbn [available_keys_from]; [reflexivity|].
      unfold read_quota_exhausted. rewrite (Hconst m).
      destruct (is_available (snd e)); [|apply IH].
      destruct (quota_exhausted_at (snd e)); rewrite IH; reflexivity. }
    specialize (Hstill 0%nat). rewrite <- Eclock, Eav in Hstill. cbn [fst] in Hstill.
    rewrite Hstill, length_map. reflexivity.
Qed.

(** The only key of the pool is available and carries the stamp 0; the
    clock reads 59 when the available keys are counted and 61 in the loop:
    the key is in none of the three groups. *)
Lemma status_summary_counts_at_most_once_witness :
  let pool := [mkApiKeyStatus 0 "key-a" 0%Q (Some 0%Q) 1 true] in
  let clock := fun n : nat => match n with O => 59%Q | _ => 61%Q end in
  (forall i j, (i <= j)%nat -> (clock i <= clock j)%Q) /\
  let summary := get_status_summary clock pool in
  total_keys summary = 1 /\
  available summary + quota_exhausted summary + disabled summary = 0.
Proof.
  intros pool clock.
  assert (Hmono : forall i j, (i <= j)%nat -> (clock i <= clock j)%Q).
  { intros [|i] [|j] H; simpl; try lra; lia. }
  split; [exact Hmono|].
  destruct (status_summary_counts_at_most_once clock pool Hmono) as [Ht _].
  split; [exact Ht | reflexivity].
Defined.

End PoolStatusFacts.

(* ================================================================== *)
(** * More about the pooled Gemini strategy *)
(* ================================================================== *)

Module StrategyMore.

Import GeminiApiManager AIService PoolFacts.

Local Abbreviation missing_method :=
  (AttributeError "'AIService' object has no attribute '_get_recovery_time_message'").

(** With a valid key configured, [get_api_key] answers every index. *)
Lemma get_api_key_ok (google_api_keys : list string) (index : Z) :
  filter truthy_str google_api_keys <> [] ->
  exists k, Config.get_api_key google_api_keys index = Ok k.
Proof.
  intros Hne. unfold Config.get_api_key.
  destruct (filter truthy_str google_api_keys) as [|k0 rest] eqn:E; [congruence|].
  assert (Hr : 0 <= index mod Z.of_nat (List.length (k0 :: rest))
               < Z.of_nat (List.length (k0 :: rest)))
    by (apply Z.mod_pos_bound; simpl; lia).
  destruct (PyFacts.getitem_in_range (k0 :: rest) _ Hr) as [a [Ha _]].
  exists a. exact Ha.
Qed.

(** The selection raises for the empty pool only. *)
Lemma selection_raises_iff_empty (now : time) (rnd : nat) (pool : Pool) (e : exn) :
  get_api_key_with_fallback now rnd pool = Raise e -> pool = [].
Proof.
  unfold get_api_key_with_fallback.
  destruct (select_random_api_key now rnd pool); [discriminate|].
  destruct (_find_earliest_quota_recovery pool) as [[i t]|]; [discriminate|].
  destruct pool as [|s rest]; [reflexivity | discriminate].
Qed.

(** [actual_api_index] is unbound in the handler only when the automatic
    selection was asked for and the pool has no key. *)
Lemma acquire_unbound (w : World) (rnd : nat) (api_key_index : Z) :
  bound_index (acquire w rnd api_key_index) = None ->
  api_key_index = -1 /\ pool w = [].
Proof.
  unfold acquire. destruct (Z.eqb_spec api_key_index (-1)) as [E | E]; [|discriminate].
  destruct (get_api_key_with_fallback (now w) rnd (pool w)) as [sel|e] eqn:Hs;
    [discriminate|].
  intros _. split; [exact E | apply (selection_raises_iff_empty _ _ _ _ Hs)].
Qed.

Lemma acquire_bound (w : World) (rnd : nat) (api_key_index : Z) :
  api_key_index <> -1 \/ pool w <> [] ->
  exists i w1, acquire w rnd api_key_index = mkAttempt (Ok i) (Some i) w1.
Proof.
  intros H. unfold acquire. destruct (Z.eqb_spec api_key_index (-1)) as [E | E].
  - destruct (get_api_key_with_fallback (now w) rnd (pool w)) as [sel|e] eqn:Hs.
    + eexists. eexists. reflexivity.
    + apply selection_raises_iff_empty in Hs. destruct H as [H | H]; congruence.
  - eexists. eexists. reflexivity.
Qed.

Lemma gemini_try_bound_index (google_api_keys : list string)
      (invoke : string -> string -> string -> result string)
      (w : World) (rnd : nat) (message model : string) (api_key_index : Z) :
  bound_index (gemini_try google_api_keys invoke w rnd message model api_key_index) =
  bound_index (acquire w rnd api_key_index).
Proof.
  unfold gemini_try. destruct (outcome (acquire w rnd api_key_index)) as [i|e];
    [|reflexivity].
  destruct (create_gemini_llm google_api_keys invoke model i) as [llm|e]; [|reflexivity].
  destruct (llm message); reflexivity.
Qed.

(** X12.  [generate_gemini_response] lets only two exceptions escape: the
    [AttributeError] of the missing method [_get_recovery_time_message],
    on its quota path, and the [UnboundLocalError] of [actual_api_index],
    which needs the automatic selection (index -1) on a pool without
    keys. *)
Theorem gemini_response_raises_only_two_errors
        (google_api_keys : list string)
        (invoke : string -> string -> string -> result string)
        (w : World) (rnd rnd_retry : nat) (message model : string)
        (api_key_index : Z) (e : exn) :
  fst (generate_gemini_response google_api_keys invoke w rnd rnd_retry
                                message model api_key_index) = Raise e ->
  e = missing_method \/
  (e = UnboundLocalError
         "cannot access local variable 'actual_api_index' where it is not associated with a value" /\
   api_key_index = -1 /\ pool w = []).
Proof.
  unfold generate_gemini_response.
  pose proof (gemini_try_bound_index google_api_keys invoke w rnd message model
                                     api_key_index) as Hb.
  destruct (outcome (gemini_try google_api_keys invoke w rnd message model api_key_index))
    as [a|e0]; [discriminate|].
  destruct (bound_index (gemini_try google_api_keys invoke w rnd message model
                                    api_key_index)) as [i|] eqn:Hi; simpl.
  - destruct (is_quota_message (str_exn e0)).
    + destruct (gemini_retry _ _ _ _ _ _ _) as [[a|] w2]; simpl; [discriminate|].
      intros H; inversion H. left. reflexivity.
    + destruct (is_timeout_message (str_exn e0)); discriminate.
  - intros H; inversion H. right. split; [reflexivity|].
    apply (acquire_unbound w rnd api_key_index). symmetry. exact Hb.
Qed.

Lemma gemini_response_raises_only_two_errors_witness :
  let w := mkWorld [] 100%Q in
  let invoke := fun _ _ _ : string => Ok "unused" in
  let e := UnboundLocalError
             "cannot access local variable 'actual_api_index' where it is not associated with a value" in
  fst (generate_gemini_response ["key-a"] invoke w 0 0 "What is X?" "gemini-1.5-flash" (-1))
  = Raise e /\
  pool w = [].
Proof.
  intros w invoke e.
  assert (H : fst (generate_gemini_response ["key-a"] invoke w 0 0 "What is X?"
                                            "gemini-1.5-flash" (-1)) = Raise e)
    by reflexivity.
  split; [exact H|].
  destruct (gemini_response_raises_only_two_errors _ _ _ _ _ _ _ _ _ H)
    as [Hm | [_ [_ Hp]]]; [discriminate Hm | exact Hp].
Defined.

(** X11.  When a valid key is configured and the provider answers every
    call with one and the same quota error, [generate_gemini_response] does
    not return its "All API keys quota exhausted" text: building that text
    calls the method the class does not have, and the [AttributeError]
    escapes. *)
Theorem quota_error_on_every_key_raises
        (google_api_keys : list string)
        (invoke : string -> string -> string -> result string)
        (w : World) (rnd rnd_retry : nat) (message model : string)
        (api_key_index : Z) (e : exn) :
  filter truthy_str google_api_keys <> [] ->
  (forall m k p, invoke m k p = Raise e) ->
  is_quota_message (str_exn e) = true ->
  api_key_index <> -1 \/ pool w <> [] ->
  fst (generate_gemini_response google_api_keys invoke w rnd rnd_retry
                                message model api_key_index) = Raise missing_method.
Proof.
  intros Hkeys Hinv Hq Hidx.
  destruct (acquire_bound w rnd api_key_index Hidx) as [i [w1 Ha]].
  assert (Hllm : forall j, exists k,
             create_gemini_llm google_api_keys invoke model j = Ok (invoke model k)).
  { intros j. destruct (get_api_key_ok google_api_keys j Hkeys) as [k Hk].
    exists k. unfold create_gemini_llm. rewrite Hk. reflexivity. }
  unfold generate_gemini_response, gemini_try. rewrite Ha. simpl.
  destruct (Hllm i) as [k Hk]. rewrite Hk, Hinv. simpl. rewrite Hq.
  unfold gemini_retry.
  destruct (get_api_key_with_fallback _ rnd_retry _) as [sel|e'].
  - destruct (negb (sel_index sel =? i)); [|reflexivity].
    destruct (Hllm (sel_index sel)) as [k' Hk']. rewrite Hk', Hinv. reflexivity.
  - reflexivity.
Qed.

Lemma quota_error_on_every_key_raises_witness :
  let e := OtherError "429 ResourceExhausted: quota exceeded" in
  let invoke := fun _ _ _ : string => @Raise string e in
  let w := mkWorld (_initialize_api_keys ["key-a"; "key-b"]) 100%Q in
  filter truthy_str ["key-a"; "key-b"] <> [] /\
  is_quota_message (str_exn e) = true /\
  fst (generate_gemini_response ["key-a"; "key-b"] invoke w 0 1 "What is X?"
                                "gemini-1.5-flash" (-1)) = Raise missing_method.
Proof.
  intros e invoke w.
  assert (H1 : filter truthy_str ["key-a"; "key-b"] <> []) by discriminate.
  assert (H2 : is_quota_message (str_exn e) = true) by reflexivity.
  split; [exact H1|]. split; [exact H2|].
  apply (quota_error_on_every_key_raises ["key-a"; "key-b"] invoke w 0%nat 1%nat
           "What is X?" "gemini-1.5-flash" (-1) e H1 (fun _ _ _ => eq_refl) H2).
  right. discriminate.
Defined.

(** X10.  A quota error on the first key is retried once on another key:
    when the second selection hands out a key other than the failed one
    and the provider answers on it, [generate_gemini_response] returns that
    answer (stripped).  In the pool the failed key carries the quota mark
    of the time of the failure, the answering key is available with its
    marks cleared, and every other key is as the selection left it. *)
Theorem quota_error_is_retried_on_another_key
        (google_api_keys : list string)
        (invoke : string -> string -> string -> result string)
        (w : World) (rnd rnd_retry : nat) (message model : string)
        (api_key_index : Z) (k1 k2 : string) (e : exn) (sel : Selection)
        (content : string) :
  api_key_index <> -1 ->
  Config.get_api_key google_api_keys api_key_index = Ok k1 ->
  invoke model k1 message = Raise e ->
  is_quota_message (str_exn e) = true ->
  get_api_key_with_fallback (now w) rnd_retry
    (mark_api_result (now w) (pool w) api_key_index false true) = Ok sel ->
  sel_index sel <> api_key_index ->
  Config.get_api_key google_api_keys (sel_index sel) = Ok k2 ->
  invoke model k2 message = Ok content ->
  let r := generate_gemini_response google_api_keys invoke w rnd rnd_retry
                                    message model api_key_index in
  fst r = Ok (strip content) /\
  now (snd r) = sel_now sel /\
  (forall s, lookup (pool w) api_key_index = Some s ->
             lookup (pool (snd r)) api_key_index =
             Some (mark_quota_exhausted (now w) s)) /\
  (forall s, lookup (sel_pool sel) (sel_index sel) = Some s ->
             lookup (pool (snd r)) (sel_index sel) =
             Some (mark_success (sel_now sel) s)) /\
  (forall k, k <> sel_index sel ->
             lookup (pool (snd r)) k = lookup (sel_pool sel) k).
Proof.
  intros Hidx Hk1 He Hq Hsel Hne Hk2 Hc r.
  assert (Hr : r = (Ok (strip content),
                    report (mkWorld (sel_pool sel) (sel_now sel)) (sel_index sel)
                           true false)).
  { assert (Ht : gemini_try google_api_keys invoke w rnd message model api_key_index =
                 mkAttempt (Raise e) (Some api_key_index) w).
    { unfold gemini_try, acquire.
      destruct (Z.eqb_spec api_key_index (-1)) as [E|_]; [contradiction|].
      cbn [outcome bound_index world]. unfold create_gemini_llm. rewrite Hk1.
      cbn [bind]. rewrite He. reflexivity. }
    assert (Hretry : gemini_retry google_api_keys invoke
                       (report w api_key_index false true) rnd_retry message model
                       api_key_index =
                     (Some (strip content),
                      report (mkWorld (sel_pool sel) (sel_now sel)) (sel_index sel)
                             true false)).
    { unfold gemini_retry. unfold report at 1 2. cbn [pool now]. rewrite Hsel.
      destruct (Z.eqb_spec (sel_index sel) api_key_index) as [E|_]; [contradiction|].
      cbn [negb]. unfold create_gemini_llm. rewrite Hk2. cbn [bind]. rewrite Hc.
      reflexivity. }
    unfold r, generate_gemini_response. rewrite Ht.
    cbn [outcome bound_index world read_local]. rewrite Hq, Hretry. reflexivity. }
  rewrite Hr. unfold report. simpl.
  split; [reflexivity|]. split; [reflexivity|].
  pose proof (fun k => selection_lookup _ _ _ _ k Hsel) as Hkeep.
  split; [|split].
  - intros s Hs.
    rewrite mark_api_result_lookup.
    destruct (Z.eqb_spec (sel_index sel) api_key_index) as [E|_]; [congruence|].
    destruct (Hkeep api_key_index) as [H1 | [E _]]; [|congruence].
    rewrite H1, mark_api_result_lookup, Z.eqb_refl, Hs. reflexivity.
  - intros s Hs. rewrite mark_api_result_lookup, Z.eqb_refl, Hs. reflexivity.
  - intros k Hk. rewrite mark_api_result_lookup.
    destruct (Z.eqb_spec (sel_index sel) k) as [E|_]; [congruence | reflexivity].
Qed.

Lemma quota_error_is_retried_on_another_key_witness :
  let e := OtherError "429 ResourceExhausted: quota exceeded" in
  let invoke := fun (_ key _ : string) =>
                  if String.eqb key "key-a" then Raise e else Ok " X is a letter. " in
  let w := mkWorld (_initialize_api_keys ["key-a"; "key-b"]) 100%Q in
  let r := generate_gemini_response ["key-a"; "key-b"] invoke w 0 0 "What is X?"
                                    "gemini-1.5-flash" 0 in
  fst r = Ok "X is a letter." /\
  option_map quota_exhausted_at (lookup (pool (snd r)) 0) = Some (Some 100%Q) /\
  option_map quota_exhausted_at (lookup (pool (snd r)) 1) = Some None.
Proof.
  intros e invoke w r.
  set (sel := mkSelection 1 false (mark_api_result 100%Q (pool w) 0 false true) 100%Q).
  assert (H : fst r = Ok (strip " X is a letter. ") /\
              now (snd r) = sel_now sel /\
              (forall s, lookup (pool w) 0 = Some s ->
                         lookup (pool (snd r)) 0 = Some (mark_quota_exhausted (now w) s)) /\
              (forall s, lookup (sel_pool sel) (sel_index sel) = Some s ->
                         lookup (pool (snd r)) (sel_index sel) =
                         Some (mark_success (sel_now sel) s)) /\
              (forall k, k <> sel_index sel ->
                         lookup (pool (snd r)) k = lookup (sel_pool sel) k)).
  { apply (quota_error_is_retried_on_another_key
             ["key-a"; "key-b"] invoke w 0%nat 0%nat "What is X?" "gemini-1.5-flash"
             0 "key-a" "key-b" e sel " X is a letter. ").
    - discriminate.
    - reflexivity.
    - reflexivity.
    - reflexivity.
    - reflexivity.
    - discriminate.
    - reflexivity.
    - reflexivity. }
  destruct H as [H1 [_ [H2 [H3 _]]]].
  split; [exact H1|]. split.
  - rewrite (H2 _ eq_refl). reflexivity.
  - change 1 with (sel_index sel). rewrite (H3 _ eq_refl). reflexivity.
Defined.

End StrategyMore.

(* ================================================================== *)
(** * More about the session store *)
(* ================================================================== *)

Module StoreMore.

Import Sources SessionStore PyFacts.

Lemma messages_ensure_session (st : Store) (session_id : string) :
  messages (ensure_session st session_id) = messages st.
Proof.
  unfold ensure_session. destruct (existsb _ (sessions st)); reflexivity.
Qed.

Lemma sources_ensure_session (st : Store) (session_id : string) :
  sources (ensure_session st session_id) = sources st.
Proof.
  unfold ensure_session. destruct (existsb _ (sessions st)); reflexivity.
Qed.

Lemma usage_stats_ensure_session (st : Store) (session_id : string) :
  usage_stats (ensure_session st session_id) = usage_stats st.
Proof.
  unfold ensure_session. destruct (existsb _ (sessions st)); reflexivity.
Qed.

Lemma ensure_session_exists (st : Store) (session_id : string) :
  existsb (fun s => String.eqb (sess_id s) session_id)
          (sessions (ensure_session st session_id)) = true.
Proof.
  unfold ensure_session.
  destruct (existsb _ (sessions st)) eqn:E; [exact E|].
  simpl. rewrite existsb_app. simpl. rewrite String.eqb_refl.
  rewrite orb_true_r. reflexivity.
Qed.

Lemma messages_add_message (st : Store) (session_id role content : string)
      (ai_type : option string) (srcs : list SourceDict) :
  messages (add_message st session_id role content ai_type srcs) =
  (messages st ++
   [mkMessageRow session_id role content ai_type
                 (match srcs with [] => None | _ :: _ => Some srcs end)])%list.
Proof.
  unfold add_message.
  destruct ai_type as [t|]; [destruct (truthy_str t)|]; simpl;
    rewrite messages_ensure_session; reflexivity.
Qed.

Lemma sources_add_message (st : Store) (session_id role content : string)
      (ai_type : option string) (srcs : list SourceDict) :
  sources (add_message st session_id role content ai_type srcs) = sources st.
Proof.
  unfold add_message.
  destruct ai_type as [t|]; [destruct (truthy_str t)|]; simpl;
    apply sources_ensure_session.
Qed.

Lemma usage_stats_add_message (st : Store) (session_id role content : string)
      (ai_type : option string) (srcs : list SourceDict) :
  usage_stats (add_message st session_id role content ai_type srcs) =
  match ai_type with
  | Some t => if truthy_str t then bump (usage_stats st) t 1 else usage_stats st
  | None => usage_stats st
  end.
Proof.
  unfold add_message.
  destruct ai_type as [t|]; [destruct (truthy_str t)|]; simpl;
    rewrite usage_stats_ensure_session; reflexivity.
Qed.

Lemma sessions_add_message (st : Store) (session_id role content : string)
      (ai_type : option string) (srcs : list SourceDict) :
  sessions (add_message st session_id role content ai_type srcs) =
  sessions (ensure_session st session_id).
Proof.
  unfold add_message.
  destruct ai_type as [t|]; [destruct (truthy_str t)|]; reflexivity.
Qed.

(** X13.  [SessionManager.add_message] appends exactly one turn: the
    session's transcript gets the new turn at its end, the transcript of
    every other session is as it was, no stored source is touched and the
    session exists afterwards. *)
Theorem add_message_appends_one_turn
        (st : Store) (session_id role content : string)
        (ai_type : option string) (srcs : list SourceDict) :
  let st' := add_message st session_id role content ai_type srcs in
  session_messages st' session_id =
    (session_messages st session_id ++
     [mkMessageRow session_id role content ai_type
                   (match srcs with [] => None | _ :: _ => Some srcs end)])%list /\
  (forall other, other <> session_id ->
                 session_messages st' other = session_messages st other) /\
  sources st' = sources st /\
  existsb (fun s => String.eqb (sess_id s) session_id) (sessions st') = true.
Proof.
  intros st'. unfold st', session_messages.
  rewrite messages_add_message, sources_add_message, sessions_add_message.
  repeat split.
  - rewrite filter_app. simpl. rewrite String.eqb_refl. reflexivity.
  - intros other Hne. rewrite filter_app. simpl.
    destruct (String.eqb_spec session_id other) as [E|_]; [congruence|].
    apply app_nil_r.
  - apply ensure_session_exists.
Qed.

Lemma add_message_appends_one_turn_witness :
  let st := add_message Scenarios.empty_store "s2" "user" "Hello" None [] in
  let st' := add_message st "s1" "assistant" "X is a letter." (Some "Gemini") [] in
  List.length (session_messages st' "s1") = 1%nat /\
  session_messages st' "s2" = session_messages st "s2".
Proof.
  intros st st'.
  destruct (add_message_appends_one_turn st "s1" "assistant" "X is a letter."
                                         (Some "Gemini") [])
    as [H1 [H2 _]].
  split.
  - unfold st'. rewrite H1. reflexivity.
  - apply H2. discriminate.
Defined.

(** The key under which [add_sources] compares. *)
Local Abbreviation row_key :=
  (fun r : SourceRow => (src_name r, slice_to 100 (src_content r))).

Local Abbreviation incoming_content :=
  (fun source : SourceDict =>
     if truthy_str (Sources.content source) then Sources.content source
     else Sources.preview source).

Local Abbreviation incoming_key :=
  (fun source : SourceDict =>
     (Sources.name source, slice_to 100 (incoming_content source))).

Lemma source_key_eqb_spec (a b : source_key) : reflect (a = b) (source_key_eqb a b).
Proof.
  destruct a as [n1 c1], b as [n2 c2]. unfold source_key_eqb. simpl.
  destruct (pyval_eqb_spec n1 n2) as [E1|E1]; simpl.
  - destruct (String.eqb_spec c1 c2) as [E2|E2]; constructor; congruence.
  - constructor. congruence.
Qed.

Lemma column_string_text (v : pyval) :
  (forall n, v <> PInt n) -> column_string v = v.
Proof.
  intros H. destruct v as [|t|n]; try reflexivity. exfalso. apply (H n). reflexivity.
Qed.

(** The rows one call adds belong to the session. *)
Lemma add_source_rows_session (session_id : string) (srcs : list SourceDict) :
  forall (existing : list source_key) r,
    In r (add_source_rows session_id srcs existing) -> src_session_id r = session_id.
Proof.
  induction srcs as [|source rest IH]; intros existing r; cbn [add_source_rows].
  - intros [].
  - destruct (mem source_key_eqb (incoming_key source) existing).
    + apply IH.
    + intros [E | Hin]; [subst r; reflexivity | apply (IH _ _ Hin)].
Qed.

(** For sources whose names are strings or [None]: the keys of the added
    rows are new, pairwise distinct, and cover every incoming source that
    was not known. *)
Lemma add_source_rows_spec (session_id : string) (srcs : list SourceDict) :
  (forall source, In source srcs -> forall n, Sources.name source <> PInt n) ->
  forall existing : list source_key,
    let rows := add_source_rows session_id srcs existing in
    NoDup (map row_key rows) /\
    (forall r, In r rows -> ~ In (row_key r) existing) /\
    (forall source, In source srcs ->
                    In (incoming_key source) existing \/
                    In (incoming_key source) (map row_key rows)).
Proof.
  induction srcs as [|source rest IH]; intros Htext existing; cbv zeta.
  - simpl. repeat split; try constructor; intros; contradiction.
  - assert (Hrest : forall x, In x rest -> forall n, Sources.name x <> PInt n)
      by (intros x Hx; apply Htext; right; exact Hx).
    assert (Hname : column_string (Sources.name source) = Sources.name source)
      by (apply column_string_text, Htext; left; reflexivity).
    cbn [add_source_rows].
    destruct (mem source_key_eqb (incoming_key source) existing) eqn:M.
    + destruct (IH Hrest existing) as [H1 [H2 H4]].
      apply (mem_In _ source_key_eqb_spec) in M.
      repeat split; auto.
      intros x [E | Hin]; [subst x; left; exact M | apply H4; exact Hin].
    + destruct (IH Hrest (incoming_key source :: existing)) as [H1 [H2 H4]].
      apply (mem_false_In _ source_key_eqb_spec) in M.
      repeat split.
      * cbn [map src_name src_content]. rewrite Hname. constructor; [|exact H1].
        intros Hin. apply in_map_iff in Hin. destruct Hin as [r [Er Hr]].
        apply (H2 r Hr). left. symmetry. exact Er.
      * intros r [E | Hin].
        -- subst r. cbn [src_name src_content]. rewrite Hname. exact M.
        -- intros Hex. apply (H2 r Hin). right. exact Hex.
      * intros x [E | Hin].
        -- subst x. right. cbn [map src_name src_content]. rewrite Hname.
           left. reflexivity.
        -- destruct (H4 x Hin) as [[E | Hex] | Hnew].
           ++ right. cbn [map src_name src_content]. rewrite Hname. left. exact E.
           ++ left. exact Hex.
           ++ right. right. exact Hnew.
Qed.

Lemma session_source_rows_add_sources (st : Store) (session_id : string)
      (srcs : list SourceDict) (sid : string) :
  session_source_rows (add_sources st session_id srcs) sid =
  (session_source_rows st sid ++
   if String.eqb session_id sid
   then add_source_rows session_id srcs
          (map row_key (session_source_rows st session_id))
   else [])%list.
Proof.
  unfold add_sources, session_source_rows. cbn [sources set_sources].
  rewrite !sources_ensure_session, filter_app. f_equal.
  pose proof (add_source_rows_session session_id srcs
                (map row_key
                     (filter (fun s => String.eqb (src_session_id s) session_id)
                             (sources st)))) as Hrows.
  revert Hrows.
  generalize (add_source_rows session_id srcs
                (map row_key
                     (filter (fun s => String.eqb (src_session_id s) session_id)
                             (sources st)))).
  intros rows Hrows.
  destruct (String.eqb_spec session_id sid) as [E|E].
  - subst sid. induction rows as [|r rows IH]; [reflexivity|].
    cbn [filter]. rewrite (Hrows r (or_introl eq_refl)), String.eqb_refl.
    f_equal. apply IH. intros r' Hr'. apply Hrows. right. exact Hr'.
  - induction rows as [|r rows IH]; [reflexivity|].
    cbn [filter]. rewrite (Hrows r (or_introl eq_refl)).
    destruct (String.eqb_spec session_id sid) as [E'|_]; [congruence|].
    apply IH. intros r' Hr'. apply Hrows. right. exact Hr'.
Qed.

(** With incoming names that are strings or [None], the keys of a
    session's stored sources stay pairwise distinct. *)
Lemma add_sources_keeps_NoDup (st : Store) (session_id : string)
      (srcs : list SourceDict) (sid : string) :
  (forall source, In source srcs -> forall n, Sources.name source <> PInt n) ->
  NoDup (map row_key (session_source_rows st sid)) ->
  NoDup (map row_key (session_source_rows (add_sources st session_id srcs) sid)).
Proof.
  intros Htext Hnd. rewrite session_source_rows_add_sources.
  destruct (String.eqb_spec session_id sid) as [E|E]; [|rewrite app_nil_r; exact Hnd].
  subst sid.
  destruct (add_source_rows_spec session_id srcs Htext
              (map row_key (session_source_rows st session_id)))
    as [H1 [H2 _]]. cbv zeta in H1, H2.
  rewrite map_app. revert H1 H2.
  generalize (add_source_rows session_id srcs
                (map row_key (session_source_rows st session_id))).
  intros rows H1 H2.
  generalize dependent (session_source_rows st session_id).
  intros old Hnd H2.
  induction old as [|r old IH]; [exact H1|].
  cbn [map app] in *. inversion Hnd as [|k ks Hk Hks]; subst.
  constructor.
  - rewrite in_app_iff. intros [Hin | Hin]; [exact (Hk Hin)|].
    apply in_map_iff in Hin. destruct Hin as [r' [Er' Hr']].
    apply (H2 r' Hr'). left. symmetry. exact Er'.
  - apply IH; [exact Hks|].
    intros r' Hr' Hin. apply (H2 r' Hr'). right. exact Hin.
Qed.

(** X14.  [SessionManager.add_sources], for dict sources whose names are
    strings or [None], keeps a session's stored sources free of duplicates
    under the key (name, first 100 characters of the content): if the keys
    were pairwise distinct before the call they are after it, and every
    incoming source has its key stored afterwards.  (A name that is a
    number is stored in its text form and is not recognised by a later
    call.)  Whatever the names, the rows already stored stay in place, in
    front of the added ones, and the sources of every other session are
    untouched. *)
Theorem add_sources_keeps_keys_distinct
        (st : Store) (session_id : string) (srcs : list SourceDict) :
  let st' := add_sources st session_id srcs in
  ((forall source, In source srcs -> forall n, Sources.name source <> PInt n) ->
   NoDup (map row_key (session_source_rows st session_id)) ->
   NoDup (map row_key (session_source_rows st' session_id)) /\
   (forall source, In source srcs ->
                   In (incoming_key source)
                      (map row_key (session_source_rows st' session_id)))) /\
  (exists added, session_source_rows st' session_id =
                 (session_source_rows st session_id ++ added)%list) /\
  (forall other, other <> session_id ->
                 session_source_rows st' other = session_source_rows st other).
Proof.
  intros st'. unfold st'. split; [|split].
  - intros Htext Hnd. split.
    + apply add_sources_keeps_NoDup; assumption.
    + intros source Hin. rewrite session_source_rows_add_sources, String.eqb_refl.
      rewrite map_app, in_app_iff.
      destruct (add_source_rows_spec session_id srcs Htext
                  (map row_key (session_source_rows st session_id)))
        as [_ [_ H4]]. cbv zeta in H4.
      destruct (H4 source Hin) as [H | H]; [left | right]; exact H.
  - rewrite session_source_rows_add_sources, String.eqb_refl.
    eexists. reflexivity.
  - intros other Hne. rewrite session_source_rows_add_sources.
    destruct (String.eqb_spec session_id other) as [E|_]; [congruence|].
    apply app_nil_r.
Qed.

Lemma add_sources_keeps_keys_distinct_witness :
  let a := mkSourceDict (PStr "a.pdf") "alpha" "alpha" "document" [] in
  let b := mkSourceDict (PStr "b.pdf") "" "beta" "document" [] in
  let st := add_sources Scenarios.empty_store "s1" [a] in
  let st' := add_sources st "s1" [a; b; b] in
  (forall source, In source [a; b; b] -> forall n, Sources.name source <> PInt n) /\
  NoDup (map row_key (session_source_rows st "s1")) /\
  List.length (session_source_rows st' "s1") = 2%nat /\
  NoDup (map row_key (session_source_rows st' "s1")).
Proof.
  intros a b st st'.
  assert (Ht : forall source, In source [a; b; b] ->
                              forall n, Sources.name source <> PInt n).
  { intros source [E | [E | [E | []]]] n; subst source; discriminate. }
  assert (H0 : NoDup (map row_key (session_source_rows st "s1"))).
  { simpl. constructor; [intros []|constructor]. }
  split; [exact Ht|]. split; [exact H0|]. split; [reflexivity|].
  destruct (add_sources_keeps_keys_distinct st "s1" [a; b; b]) as [H1 _].
  apply (H1 Ht H0).
Defined.

(** The case the hypothesis of X14 leaves out: a source named by the
    number 7 is stored under the name "7", a second call does not
    recognise it and writes the same row again. *)
Lemma numeric_name_is_stored_again :
  let seven := mkSourceDict (PInt 7) "alpha" "alpha" "document" [] in
  let st := add_sources Scenarios.empty_store "s1" [seven] in
  let st' := add_sources st "s1" [seven] in
  map row_key (session_source_rows st "s1") = [(PStr "7", "alpha")] /\
  map row_key (session_source_rows st' "s1") = [(PStr "7", "alpha"); (PStr "7", "alpha")].
Proof.
  intros seven st st'. split; reflexivity.
Qed.

End StoreMore.

(* ================================================================== *)
(** * More about the orchestrator: what a request leaves in the store *)
(* ================================================================== *)

Module OrchestratorMore.

Import ChatOrchestrator PyFacts.

Section Request.

Variable generate_gemini_response : string -> string -> Z -> result string.
Variable generate_meta_response : string -> result string.
Variable generate_rag_response : string -> string -> Z -> result (string * list raw_source).
Variable generate_meta_rag_response : string -> result (string * list raw_source).
Variable within_30s : string -> bool.
Variable done_by_deadline : nat -> bool.

Local Abbreviation generate :=
  (_generate_response_for_mode generate_gemini_response generate_meta_response
                               generate_rag_response generate_meta_rag_response within_30s).
Local Abbreviation single_mode :=
  (process_single_mode generate_gemini_response generate_meta_response
                       generate_rag_response generate_meta_rag_response within_30s).
Local Abbreviation process :=
  (process_chat_request generate_gemini_response generate_meta_response
                        generate_rag_response generate_meta_rag_response
                        within_30s done_by_deadline).

(** The answer and the formatted sources of one strategy, and the turn the
    aggregation loop stores for it. *)
Local Abbreviation answer_of := (fun (req : ChatRequest) mode => fst (generate mode req)).
Local Abbreviation formatted :=
  (fun (req : ChatRequest) mode =>
     _safely_format_sources (snd (generate mode req)) (lower mode)).
Local Abbreviation turn :=
  (fun (req : ChatRequest) s mode =>
     SessionStore.add_assistant_message s (session_id req) (answer_of req mode) mode
                                        (formatted req mode)).
Local Abbreviation assistant_row :=
  (fun (req : ChatRequest) mode =>
     SessionStore.mkMessageRow (session_id req) "assistant" (answer_of req mode)
                               (Some mode)
                               (match formatted req mode with
                                | [] => None
                                | _ :: _ => Some (formatted req mode)
                                end)).
Local Abbreviation user_row :=
  (fun (req : ChatRequest) =>
     SessionStore.mkMessageRow (session_id req) "user" (message req) None None).
Local Abbreviation all_done :=
  (fun (req : ChatRequest) =>
     forallb done_by_deadline (seq 0 (List.length (ai_modes req)))).
Local Abbreviation count :=
  (fun (u : list (string * Z)) m =>
     match UsageService.stats_dict u m with Some n => n | None => 0 end).

Lemma validate_ai_modes_Forall (modes : list string) :
  SessionStore.validate_ai_modes modes = true <->
  Forall (fun mode => In mode Config.AI_MODES) modes.
Proof.
  unfold SessionStore.validate_ai_modes. rewrite forallb_forall, Forall_forall.
  split; intros H mode Hin; apply (mem_In String.eqb String.eqb_spec); apply H; exact Hin.
Qed.

(** The aggregation loop over tasks that all returned, with the store it
    leaves. *)
Lemma collect_trace (req : ChatRequest) (modes : list string) :
  forall (i : Z) (acc : Aggregate) (st : SessionStore.Store),
    collect req i (map (single_mode req) modes) acc st =
    (Ok (mkAggregate
           (agg_answers acc ++ map (answer_of req) modes)%list
           (agg_all_sources acc ++ List.concat (map (formatted req) modes))%list
           (agg_message_sources acc ++ map (formatted req) modes)%list),
     fold_left (turn req) modes st).
Proof.
  induction modes as [|mode modes IH]; intros i acc st; simpl.
  - destruct acc; simpl. rewrite !app_nil_r. reflexivity.
  - unfold process_single_mode at 1.
    destruct (generate mode req) as [answer_text srcs] eqn:E. simpl.
    rewrite IH. simpl. rewrite <- !app_assoc. reflexivity.
Qed.

(** A valid request, step by step. *)
Lemma process_valid (req : ChatRequest) (st : SessionStore.Store) :
  SessionStore.validate_ai_modes (ai_modes req) = true ->
  process req st =
  let st1 := SessionStore.add_user_message st (session_id req) (message req) in
  if all_done req then
    let st2 := fold_left (turn req) (ai_modes req) st1 in
    let st3 :=
      match List.concat (map (formatted req) (ai_modes req)) with
      | [] => st2
      | _ :: _ =>
          _add_unique_sources_to_session
            st2 (session_id req) (List.concat (map (formatted req) (ai_modes req)))
      end in
    let st4 := _update_usage_statistics st3 (ai_modes req) in
    (Ok (_create_safe_response
           (map (answer_of req) (ai_modes req))
           (SessionStore.get_session_sources st4 (session_id req))
           (map (formatted req) (ai_modes req))),
     st4)
  else
    let st4 := _update_usage_statistics st1 (ai_modes req) in
    (Ok (_create_safe_response
           (agg_answers (timeout_aggregate req))
           (SessionStore.get_session_sources st4 (session_id req))
           (agg_message_sources (timeout_aggregate req))),
     st4).
Proof.
  intros Hv. unfold process_chat_request. rewrite Hv. cbn [negb]. cbv iota.
  unfold join.
  destruct (forallb done_by_deadline (seq 0 (List.length (ai_modes req)))).
  - rewrite collect_trace.
    cbn [agg_answers agg_all_sources agg_message_sources app].
    destruct (List.concat (map (formatted req) (ai_modes req))); reflexivity.
  - reflexivity.
Qed.

Lemma process_invalid (req : ChatRequest) (st : SessionStore.Store) :
  SessionStore.validate_ai_modes (ai_modes req) = false ->
  exists msg, process req st = (Raise (ValueError msg), st).
Proof.
  intros Hv. unfold process_chat_request. rewrite Hv. cbn [negb]. cbv iota.
  eexists. reflexivity.
Qed.

(** ** What each step does to the three tables *)

Lemma messages_turns (req : ChatRequest) (modes : list string) :
  forall st,
    SessionStore.messages (fold_left (turn req) modes st) =
    (SessionStore.messages st ++ map (assistant_row req) modes)%list.
Proof.
  induction modes as [|mode modes IH]; intros st; cbn [fold_left map].
  - symmetry. apply app_nil_r.
  - rewrite IH. unfold SessionStore.add_assistant_message.
    cbn [SessionStore.messages SessionStore.set_service_usage_stats].
    rewrite StoreMore.messages_add_message, <- app_assoc. reflexivity.
Qed.

Lemma sources_turns (req : ChatRequest) (modes : list string) :
  forall st,
    SessionStore.sources (fold_left (turn req) modes st) = SessionStore.sources st.
Proof.
  induction modes as [|mode modes IH]; intros st; cbn [fold_left]; [reflexivity|].
  rewrite IH. unfold SessionStore.add_assistant_message.
  cbn [SessionStore.sources SessionStore.set_service_usage_stats].
  apply StoreMore.sources_add_message.
Qed.

Lemma usage_stats_turns (req : ChatRequest) (modes : list string) :
  forall st,
    SessionStore.usage_stats (fold_left (turn req) modes st) =
    fold_left (fun u mode => if truthy_str mode then SessionStore.bump u mode 1 else u)
              modes (SessionStore.usage_stats st).
Proof.
  induction modes as [|mode modes IH]; intros st; cbn [fold_left]; [reflexivity|].
  rewrite IH. unfold SessionStore.add_assistant_message.
  cbn [SessionStore.usage_stats SessionStore.set_service_usage_stats].
  rewrite StoreMore.usage_stats_add_message. reflexivity.
Qed.

Lemma increments_tables (modes : list string) :
  forall st,
    let st' := fold_left (fun s mode => SessionStore.increment_usage s (standardize mode))
                         modes st in
    SessionStore.messages st' = SessionStore.messages st /\
    SessionStore.sources st' = SessionStore.sources st /\
    SessionStore.usage_stats st' =
    fold_left (fun u mode => SessionStore.bump u (standardize mode) 1) modes
              (SessionStore.usage_stats st).
Proof.
  induction modes as [|mode modes IH]; intros st; cbv zeta; cbn [fold_left].
  - repeat split.
  - destruct (IH (SessionStore.increment_usage st (standardize mode))) as [H1 [H2 H3]].
    cbv zeta in H1, H2, H3. rewrite H1, H2, H3. repeat split.
Qed.

Lemma update_usage_tables (st : SessionStore.Store) (modes : list string) :
  let st' := _update_usage_statistics st modes in
  SessionStore.messages st' = SessionStore.messages st /\
  SessionStore.sources st' = SessionStore.sources st /\
  SessionStore.usage_stats st' =
  fold_left (fun u mode => SessionStore.bump u (standardize mode) 1) modes
            (SessionStore._initialize_stats (SessionStore.usage_stats st)).
Proof.
  cbv zeta. unfold _update_usage_statistics.
  destruct (increments_tables modes
              (SessionStore.set_usage_stats st
                 (SessionStore._initialize_stats (SessionStore.usage_stats st))))
    as [H1 [H2 H3]].
  cbv zeta in H1, H2, H3. rewrite H1, H2, H3. repeat split.
Qed.

Lemma add_unique_tables (st : SessionStore.Store) (sid : string)
      (new_sources : list SourceDict) :
  let st' := _add_unique_sources_to_session st sid new_sources in
  SessionStore.messages st' = SessionStore.messages st /\
  SessionStore.usage_stats st' = SessionStore.usage_stats st /\
  (st' = st \/
   exists u, (forall d, In d u -> In d new_sources) /\
             st' = SessionStore.add_sources st sid u).
Proof.
  cbv zeta. unfold _add_unique_sources_to_session.
  pose proof (fun d => DedupeFacts.filter_unique_In
                         new_sources
                         (map existing_identifier (SessionStore.get_session_sources st sid))
                         d) as Hsub.
  fold (unique_sources (SessionStore.get_session_sources st sid) new_sources) in Hsub.
  destruct (unique_sources _ new_sources) as [|s u]; [repeat split; left; reflexivity|].
  unfold SessionStore.add_sources_to_session, SessionStore.add_sources.
  cbn [SessionStore.messages SessionStore.usage_stats SessionStore.set_sources].
  rewrite StoreMore.messages_ensure_session, StoreMore.usage_stats_ensure_session.
  repeat split. right. eexists. split; [|reflexivity].
  intros d Hd. apply (Hsub d Hd).
Qed.

(** ** The usage counters *)

Lemma stats_dict_absent (u : list (string * Z)) (m : string) :
  ~ In m (map fst u) -> UsageService.stats_dict u m = None.
Proof.
  induction u as [|[k n] u IH]; intros Hni; simpl; [reflexivity|].
  rewrite IH by (intros H; apply Hni; right; exact H).
  destruct (String.eqb_spec k m) as [E|_]; [|reflexivity].
  exfalso. apply Hni. left. exact E.
Qed.

Lemma stats_dict_present (u : list (string * Z)) (m : string) :
  In m (map fst u) -> UsageService.stats_dict u m = Some (count u m).
Proof.
  induction u as [|[k n] u IH]; intros Hin; simpl in *; [contradiction|].
  destruct (UsageService.stats_dict u m) as [later|] eqn:E; [reflexivity|].
  destruct (String.eqb_spec k m) as [Ek|Ek]; [reflexivity|].
  destruct Hin as [H|H]; [congruence|]. apply IH in H. discriminate.
Qed.

Lemma bump_keys (u : list (string * Z)) (a : string) (i : Z) (x : string) :
  In x (map fst (SessionStore.bump u a i)) <-> x = a \/ In x (map fst u).
Proof.
  induction u as [|[k n] u IH]; simpl.
  - split; [intros [H|[]]; left; congruence | intros [H|[]]; left; congruence].
  - destruct (String.eqb_spec k a) as [E|E]; simpl.
    + subst. split; [intros H; right; exact H | intros [H|H]; [left; congruence | exact H]].
    + rewrite IH. split; intros H; intuition.
Qed.

Lemma bump_NoDup (u : list (string * Z)) (a : string) (i : Z) :
  NoDup (map fst u) -> NoDup (map fst (SessionStore.bump u a i)).
Proof.
  induction u as [|[k n] u IH]; intros Hnd; simpl.
  - constructor; [intros []|constructor].
  - inversion Hnd as [|k' ks Hk Hks]; subst.
    destruct (String.eqb_spec k a) as [E|E]; simpl.
    + constructor; assumption.
    + constructor; [|apply IH; exact Hks].
      rewrite bump_keys. intros [H|H]; [congruence | exact (Hk H)].
Qed.

Lemma bump_other (u : list (string * Z)) (a m : string) (i : Z) :
  a <> m ->
  UsageService.stats_dict (SessionStore.bump u a i) m = UsageService.stats_dict u m.
Proof.
  intros Hne. induction u as [|[k n] u IH]; simpl.
  - destruct (String.eqb_spec a m); [congruence | reflexivity].
  - destruct (String.eqb_spec k a) as [E|E]; simpl.
    + subst k. destruct (UsageService.stats_dict u m); [reflexivity|].
      destruct (String.eqb_spec a m); [congruence | reflexivity].
    + rewrite IH. reflexivity.
Qed.

Lemma bump_count (u : list (string * Z)) (a m : string) :
  NoDup (map fst u) ->
  count (SessionStore.bump u a 1) m =
  count u m + (if String.eqb a m then 1 else 0).
Proof.
  induction u as [|[k n] u IH]; intros Hnd.
  - simpl. destruct (String.eqb a m); reflexivity.
  - inversion Hnd as [|k' ks Hk Hks]; subst. cbn [SessionStore.bump].
    destruct (String.eqb_spec k a) as [E|E].
    + subst k. cbn [UsageService.stats_dict].
      destruct (String.eqb_spec a m) as [Em|Em].
      * subst m. rewrite (stats_dict_absent u a Hk). reflexivity.
      * destruct (UsageService.stats_dict u m); lia.
    + cbn [UsageService.stats_dict]. specialize (IH Hks).
      destruct (String.eqb_spec a m) as [Em|Em].
      * subst m.
        assert (Hb : In a (map fst (SessionStore.bump u a 1)))
          by (apply bump_keys; left; reflexivity).
        rewrite (stats_dict_present _ _ Hb), IH.
        destruct (String.eqb_spec k a) as [Ek|_]; [congruence|].
        destruct (UsageService.stats_dict u a); reflexivity.
      * rewrite (bump_other u a m 1 Em). lia.
Qed.

Lemma bumps_count (modes : list string) (m : string) :
  forall u,
    NoDup (map fst u) ->
    let u' := fold_left (fun u mode => SessionStore.bump u mode 1) modes u in
    NoDup (map fst u') /\
    (forall x, In x (map fst u) -> In x (map fst u')) /\
    count u' m = count u m + Z.of_nat (count_occ string_dec modes m).
Proof.
  induction modes as [|mode modes IH]; intros u Hnd; cbv zeta; cbn [fold_left count_occ].
  - repeat split; auto. lia.
  - destruct (IH (SessionStore.bump u mode 1) (bump_NoDup u mode 1 Hnd)) as [H1 [H2 H3]].
    cbv zeta in H1, H2, H3. split; [exact H1|]. split.
    + intros x Hx. apply H2. apply bump_keys. right. exact Hx.
    + rewrite H3, (bump_count u mode m Hnd).
      destruct (string_dec mode m) as [E|E].
      * subst. rewrite String.eqb_refl. lia.
      * destruct (String.eqb_spec mode m); [congruence | lia].
Qed.

Lemma stats_dict_app_one (u : list (string * Z)) (k m : string) (n : Z) :
  UsageService.stats_dict (u ++ [(k, n)]) m =
  if String.eqb k m then Some n else UsageService.stats_dict u m.
Proof.
  induction u as [|[k' n'] u IH]; simpl.
  - reflexivity.
  - rewrite IH. destruct (String.eqb k m); reflexivity.
Qed.

Lemma initialize_step (acc : list (string * Z)) (mode m : string) :
  NoDup (map fst acc) ->
  let acc' := if existsb (fun e => String.eqb (fst e) mode) acc then acc
              else (acc ++ [(mode, 0)])%list in
  NoDup (map fst acc') /\
  In mode (map fst acc') /\
  (forall x, In x (map fst acc) -> In x (map fst acc')) /\
  count acc' m = count acc m.
Proof.
  intros Hnd. cbv zeta.
  destruct (existsb (fun e => String.eqb (fst e) mode) acc) eqn:E.
  - repeat split; auto.
    apply existsb_exists in E. destruct E as [e [He Hk]].
    apply String.eqb_eq in Hk. subst mode. apply in_map. exact He.
  - assert (Hni : ~ In mode (map fst acc)).
    { intros Hin. apply in_map_iff in Hin. destruct Hin as [e [Ee He]].
      assert (existsb (fun e => String.eqb (fst e) mode) acc = true).
      { apply existsb_exists. exists e. split; [exact He|]. apply String.eqb_eq. exact Ee. }
      congruence. }
    rewrite map_app. cbn [map fst]. repeat split.
    + apply NoDup_app; [exact Hnd | constructor; [intros []|constructor] |].
      intros x Hx [Hm|[]]. subst. exact (Hni Hx).
    + apply in_or_app. right. left. reflexivity.
    + intros x Hx. apply in_or_app. left. exact Hx.
    + rewrite stats_dict_app_one.
      destruct (String.eqb_spec mode m) as [Em|_]; [|reflexivity].
      subst. rewrite (stats_dict_absent acc m Hni). reflexivity.
Qed.

Lemma initialize_stats_spec (u : list (string * Z)) (m : string) :
  NoDup (map fst u) ->
  let u' := SessionStore._initialize_stats u in
  NoDup (map fst u') /\
  (forall mode, In mode SessionStore.default_modes -> In mode (map fst u')) /\
  count u' m = count u m.
Proof.
  intros Hnd. cbv zeta. unfold SessionStore._initialize_stats.
  generalize dependent u.
  induction SessionStore.default_modes as [|mode modes IH]; intros u Hnd; cbn [fold_left].
  - repeat split; auto. intros mode [].
  - destruct (initialize_step u mode m Hnd) as [H1 [H2 [H3 H4]]]. cbv zeta in *.
    destruct (IH _ H1) as [G1 [G2 G3]].
    split; [exact G1|]. split; [|rewrite G3; exact H4].
    intros x [E|Hx]; [|apply G2; exact Hx].
    subst x. clear - H1 H2.
    revert H2. generalize (if existsb (fun e => String.eqb (fst e) mode) u then u
                           else (u ++ [(mode, 0)])%list).
    clear. induction modes as [|d modes IH]; intros acc Hin; cbn [fold_left]; [exact Hin|].
    apply IH. destruct (existsb (fun e => String.eqb (fst e) d) acc); [exact Hin|].
    rewrite map_app. apply in_or_app. left. exact Hin.
Qed.

Lemma known_mode_folds (modes : list string) :
  Forall (fun mode => In mode Config.AI_MODES) modes ->
  forall u,
    fold_left (fun u mode => if truthy_str mode then SessionStore.bump u mode 1 else u)
              modes u =
    fold_left (fun u mode => SessionStore.bump u mode 1) modes u /\
    fold_left (fun u mode => SessionStore.bump u (standardize mode) 1) modes u =
    fold_left (fun u mode => SessionStore.bump u mode 1) modes u.
Proof.
  induction 1 as [|mode modes Hm _ IH]; intros u; cbn [fold_left]; [split; reflexivity|].
  assert (E : truthy_str mode = true /\ standardize mode = mode).
  { simpl in Hm. destruct Hm as [E|[E|[E|[E|[]]]]]; subst mode; split; reflexivity. }
  destruct E as [E1 E2]. rewrite E1, E2. apply IH.
Qed.

(** X15.  A request with known modes extends the table of turns by the
    user's turn followed, when every task was done by the deadline, by one
    assistant turn per requested strategy in the order of the request
    (its answer, its mode as [ai_type], its formatted sources); on the
    timeout of the join only the user's turn is stored.  Nothing stored
    before is changed or removed. *)
Theorem request_appends_its_turns_in_order
        (req : ChatRequest) (st : SessionStore.Store) :
  Forall (fun mode => In mode Config.AI_MODES) (ai_modes req) ->
  SessionStore.messages (snd (process req st)) =
  (SessionStore.messages st ++
   user_row req ::
   (if all_done req then map (assistant_row req) (ai_modes req) else []))%list.
Proof.
  intros Hvalid. apply validate_ai_modes_Forall in Hvalid.
  rewrite (process_valid req st Hvalid). cbv zeta.
  assert (Huser : SessionStore.messages
                    (SessionStore.add_user_message st (session_id req) (message req)) =
                  (SessionStore.messages st ++ [user_row req])%list).
  { unfold SessionStore.add_user_message. apply StoreMore.messages_add_message. }
  destruct (forallb done_by_deadline (seq 0 (List.length (ai_modes req)))); cbn [snd].
  - destruct (update_usage_tables
                (match List.concat (map (formatted req) (ai_modes req)) with
                 | [] => fold_left (turn req) (ai_modes req)
                           (SessionStore.add_user_message st (session_id req) (message req))
                 | _ :: _ =>
                     _add_unique_sources_to_session
                       (fold_left (turn req) (ai_modes req)
                          (SessionStore.add_user_message st (session_id req) (message req)))
                       (session_id req)
                       (List.concat (map (formatted req) (ai_modes req)))
                 end) (ai_modes req)) as [H1 _].
    cbv zeta in H1. rewrite H1.
    assert (H3 : forall s l,
               SessionStore.messages
                 (match l with
                  | [] => s
                  | _ :: _ => _add_unique_sources_to_session s (session_id req) l
                  end) = SessionStore.messages s).
    { intros s [|x l]; [reflexivity|].
      destruct (add_unique_tables s (session_id req) (x :: l)) as [G _]. exact G. }
    rewrite H3, messages_turns, Huser, <- app_assoc. reflexivity.
  - destruct (update_usage_tables
                (SessionStore.add_user_message st (session_id req) (message req))
                (ai_modes req)) as [H1 _].
    cbv zeta in H1. rewrite H1. exact Huser.
Qed.

(** X16.  Every answered strategy is counted twice in the usage table:
    once by [SessionManager.add_message], which stores the assistant turn,
    and once more by [_update_usage_statistics].  After a request with
    known modes whose tasks were all done by the deadline, the count that
    [get_stats] reports for a mode has grown by twice the number of times
    the request names the mode; after the timeout of the join, where no
    assistant turn is stored, by that number once.  The rows of the table
    keep pairwise distinct types. *)
Theorem answered_strategy_is_counted_twice
        (req : ChatRequest) (st : SessionStore.Store) (m : string) :
  Forall (fun mode => In mode Config.AI_MODES) (ai_modes req) ->
  NoDup (map fst (SessionStore.usage_stats st)) ->
  In m Config.AI_MODES ->
  let st' := snd (process req st) in
  let asked := Z.of_nat (count_occ string_dec (ai_modes req) m) in
  UsageService.get_stats st' m =
    Some (count (SessionStore.usage_stats st) m +
          (if all_done req then 2 * asked else asked)) /\
  NoDup (map fst (SessionStore.usage_stats st')).
Proof.
  intros Hmodes Hnd Hm st' asked.
  pose proof Hmodes as Hvalid. apply validate_ai_modes_Forall in Hvalid.
  unfold st', UsageService.get_stats. rewrite (process_valid req st Hvalid). cbv zeta.
  assert (Huser : SessionStore.usage_stats
                    (SessionStore.add_user_message st (session_id req) (message req)) =
                  SessionStore.usage_stats st).
  { unfold SessionStore.add_user_message. apply StoreMore.usage_stats_add_message. }
  assert (Hfinal : forall u,
             NoDup (map fst u) ->
             let u' := fold_left (fun u mode => SessionStore.bump u (standardize mode) 1)
                                 (ai_modes req) (SessionStore._initialize_stats u) in
             UsageService.stats_dict u' m = Some (count u m + asked) /\
             NoDup (map fst u')).
  { intros u Hu. cbv zeta.
    destruct (known_mode_folds (ai_modes req) Hmodes (SessionStore._initialize_stats u))
      as [_ E]. rewrite E.
    destruct (initialize_stats_spec u m Hu) as [I1 [I2 I3]]. cbv zeta in I1, I2, I3.
    destruct (bumps_count (ai_modes req) m _ I1) as [B1 [B2 B3]]. cbv zeta in B1, B2, B3.
    split; [|exact B1].
    rewrite stats_dict_present by (apply B2, I2; exact Hm).
    rewrite B3, I3. reflexivity. }
  destruct (forallb done_by_deadline (seq 0 (List.length (ai_modes req)))); cbn [snd].
  - match goal with
    | |- context [_update_usage_statistics ?s (ai_modes req)] =>
        destruct (update_usage_tables s (ai_modes req)) as [_ [_ H3]];
        cbv zeta in H3; rewrite H3;
        assert (Hs : SessionStore.usage_stats s =
                     fold_left (fun u mode => SessionStore.bump u mode 1) (ai_modes req)
                               (SessionStore.usage_stats st))
    end.
    { destruct (known_mode_folds (ai_modes req) Hmodes (SessionStore.usage_stats st))
        as [E _].
      rewrite <- E, <- Huser,
        <- (usage_stats_turns req (ai_modes req)
              (SessionStore.add_user_message st (session_id req) (message req))).
      destruct (List.concat (map (formatted req) (ai_modes req))) as [|x l]; [reflexivity|].
      match goal with
      | |- context [_add_unique_sources_to_session ?s ?sid ?l] =>
          destruct (add_unique_tables s sid l) as [_ [G _]]; exact G
      end. }
    rewrite Hs.
    destruct (bumps_count (ai_modes req) m _ Hnd) as [B1 [_ B3]]. cbv zeta in B1, B3.
    destruct (Hfinal _ B1) as [F1 F2]. cbv zeta in F1, F2.
    split; [|exact F2]. rewrite F1, B3. f_equal. unfold asked. lia.
  - match goal with
    | |- context [_update_usage_statistics ?s (ai_modes req)] =>
        destruct (update_usage_tables s (ai_modes req)) as [_ [_ H3]];
        cbv zeta in H3; rewrite H3
    end.
    rewrite Huser. destruct (Hfinal _ Hnd) as [F1 F2]. cbv zeta in F1, F2.
    split; [exact F1 | exact F2].
Qed.

(** X17.  A request that names no strategy is accepted: the empty list of
    modes passes the validation, the user's turn is stored, and the
    response carries the empty list [answers], no [answer], and the
    sources the session already had. *)
Theorem request_without_strategy_is_accepted
        (req : ChatRequest) (st : SessionStore.Store) :
  ai_modes req = [] ->
  exists st',
    process req st =
    (Ok (mkChatResponse None (Some [])
                        (Some (SessionStore.get_session_sources st (session_id req)))
                        (Some [])),
     st') /\
    SessionStore.messages st' = (SessionStore.messages st ++ [user_row req])%list /\
    SessionStore.sources st' = SessionStore.sources st.
Proof.
  intros Hempty.
  assert (Hv : SessionStore.validate_ai_modes (ai_modes req) = true)
    by (rewrite Hempty; reflexivity).
  rewrite (process_valid req st Hv). rewrite Hempty. cbn [List.length seq forallb map fold_left List.concat].
  cbv zeta.
  destruct (update_usage_tables
              (SessionStore.add_user_message st (session_id req) (message req)) [])
    as [H1 [H2 _]]. cbv zeta in H1, H2.
  eexists. split; [|split].
  - unfold _create_safe_response. f_equal. f_equal. f_equal.
    unfold SessionStore.get_session_sources, SessionStore.session_source_rows.
    rewrite H2. unfold SessionStore.add_user_message.
    rewrite StoreMore.sources_add_message. reflexivity.
  - rewrite H1. unfold SessionStore.add_user_message.
    apply StoreMore.messages_add_message.
  - rewrite H2. unfold SessionStore.add_user_message.
    apply StoreMore.sources_add_message.
Qed.

(** X18.  The route [POST /chat/] answers a request that names an unknown
    mode with status 400: the validation is the first thing the
    orchestrator does, its [ValueError] passes the orchestrator's handlers
    and the route turns it into an [HTTPException] whose detail is the
    error's text, "Invalid AI modes: " followed by the list of the unknown
    modes in the order of the request.  Nothing has been stored. *)
Theorem unknown_mode_is_answered_400 (req : ChatRequest) (st : SessionStore.Store) :
  (exists mode, In mode (ai_modes req) /\ ~ In mode Config.AI_MODES) ->
  ChatRoutes.chat_endpoint process req st =
  (ChatRoutes.HTTPException
     400
     ("Invalid AI modes: " ++
      repr_list (filter (fun mode => negb (mem String.eqb mode Config.AI_MODES))
                        (ai_modes req))),
   st).
Proof.
  intros [mode [Hin Hbad]].
  assert (Hv : SessionStore.validate_ai_modes (ai_modes req) = false).
  { destruct (SessionStore.validate_ai_modes (ai_modes req)) eqn:E; [|reflexivity].
    apply validate_ai_modes_Forall in E. rewrite Forall_forall in E.
    exfalso. apply Hbad. apply E. exact Hin. }
  unfold ChatRoutes.chat_endpoint, process_chat_request. rewrite Hv. reflexivity.
Qed.

(** X19.  Whatever the request, the table of sources only grows: the rows
    stored before stay in place and every added row belongs to the session
    of the request.  When the formatted sources of the requested
    strategies are all named by strings or [None], every session whose
    stored sources had pairwise distinct keys (name, first 100 characters
    of the content) still has them afterwards. *)
Theorem request_only_adds_sources_of_its_session
        (req : ChatRequest) (st : SessionStore.Store) :
  exists added,
    SessionStore.sources (snd (process req st)) =
      (SessionStore.sources st ++ added)%list /\
    (forall r, In r added -> SessionStore.src_session_id r = session_id req) /\
    ((forall mode source,
         In mode (ai_modes req) -> In source (formatted req mode) ->
         forall n, Sources.name source <> PInt n) ->
     forall sid,
       NoDup (map (fun r => (SessionStore.src_name r,
                             slice_to 100 (SessionStore.src_content r)))
                  (SessionStore.session_source_rows st sid)) ->
       NoDup (map (fun r => (SessionStore.src_name r,
                             slice_to 100 (SessionStore.src_content r)))
                  (SessionStore.session_source_rows (snd (process req st)) sid))).
Proof.
  assert (Hsame : forall s s' : SessionStore.Store,
             SessionStore.sources s' = SessionStore.sources s ->
             forall sid, SessionStore.session_source_rows s' sid =
                         SessionStore.session_source_rows s sid).
  { intros s s' E sid. unfold SessionStore.session_source_rows. rewrite E. reflexivity. }
  assert (Hkeep : forall (P : Prop) s,
             SessionStore.sources s = SessionStore.sources st ->
             exists added,
               SessionStore.sources s = (SessionStore.sources st ++ added)%list /\
               (forall r, In r added ->
                          SessionStore.src_session_id r = session_id req) /\
               (P ->
                forall sid,
                  NoDup (map (fun r => (SessionStore.src_name r,
                                        slice_to 100 (SessionStore.src_content r)))
                             (SessionStore.session_source_rows st sid)) ->
                  NoDup (map (fun r => (SessionStore.src_name r,
                                        slice_to 100 (SessionStore.src_content r)))
                             (SessionStore.session_source_rows s sid)))).
  { intros P s E. exists []. rewrite app_nil_r. split; [exact E|]. split; [intros r []|].
    intros _ sid Hnd. rewrite (Hsame st s E sid). exact Hnd. }
  destruct (SessionStore.validate_ai_modes (ai_modes req)) eqn:Hv.
  - rewrite (process_valid req st Hv). cbv zeta.
    assert (Huser : SessionStore.sources
                      (SessionStore.add_user_message st (session_id req) (message req)) =
                    SessionStore.sources st).
    { unfold SessionStore.add_user_message. apply StoreMore.sources_add_message. }
    destruct (forallb done_by_deadline (seq 0 (List.length (ai_modes req)))); cbn [snd];
      match goal with
      | |- context [_update_usage_statistics ?s (ai_modes req)] =>
          destruct (update_usage_tables s (ai_modes req)) as [_ [H2 _]];
          cbv zeta in H2;
          rewrite H2;
          pose proof (Hsame s (_update_usage_statistics s (ai_modes req)) H2) as Hrows
      end.
    + pose proof (sources_turns req (ai_modes req)
                    (SessionStore.add_user_message st (session_id req) (message req)))
        as Hturns. rewrite Huser in Hturns.
      assert (Hall : forall d,
                 In d (List.concat (map (formatted req) (ai_modes req))) ->
                 exists mode, In mode (ai_modes req) /\ In d (formatted req mode)).
      { intros d Hd. apply in_concat in Hd. destruct Hd as [l [Hl Hd]].
        apply in_map_iff in Hl. destruct Hl as [mode [El Hmode]]. subst l.
        exists mode. split; assumption. }
      revert Hall.
      destruct (List.concat (map (formatted req) (ai_modes req))) as [|x l]; intros Hall.
      * destruct (Hkeep True _ Hturns) as [added [A1 [A2 A3]]].
        exists added. split; [exact A1|]. split; [exact A2|].
        intros _ sid Hnd. rewrite Hrows. apply (A3 I). exact Hnd.
      * match goal with
        | |- context [_add_unique_sources_to_session ?s ?sid ?l] =>
            destruct (add_unique_tables s sid l) as [_ [_ [G | [u [Hu G]]]]];
            cbv zeta in G; revert Hrows; rewrite G; intros Hrows
        end.
        -- destruct (Hkeep True _ Hturns) as [added [A1 [A2 A3]]].
           exists added. split; [exact A1|]. split; [exact A2|].
           intros _ sid Hnd. rewrite Hrows. apply (A3 I). exact Hnd.
        -- match goal with
           | |- context [SessionStore.add_sources ?s ?sid ?u] =>
               exists (SessionStore.add_source_rows
                         sid u
                         (map (fun r => (SessionStore.src_name r,
                                         slice_to 100 (SessionStore.src_content r)))
                              (SessionStore.session_source_rows
                                 (SessionStore.ensure_session s sid) sid)))
           end.
           split; [|split].
           ++ unfold SessionStore.add_sources at 1.
              cbn [SessionStore.sources SessionStore.set_sources].
              rewrite StoreMore.sources_ensure_session, Hturns. reflexivity.
           ++ intros r Hr. apply (StoreMore.add_source_rows_session _ _ _ _ Hr).
           ++ intros Htext sid Hnd. rewrite Hrows.
              apply StoreMore.add_sources_keeps_NoDup.
              ** intros source Hs. destruct (Hall source (Hu source Hs)) as [mode [Hm Hd]].
                 apply (Htext mode source Hm Hd).
              ** rewrite (Hsame st _ Hturns sid). exact Hnd.
    + destruct (Hkeep True _ Huser) as [added [A1 [A2 A3]]].
      exists added. split; [exact A1|]. split; [exact A2|].
      intros _ sid Hnd. rewrite Hrows. apply (A3 I). exact Hnd.
  - destruct (process_invalid req st Hv) as [msg Hp]. rewrite Hp. cbn [snd].
    destruct (Hkeep True st eq_refl) as [added [A1 [A2 A3]]].
    exists added. split; [exact A1|]. split; [exact A2|].
    intros _ sid Hnd. apply (A3 I). exact Hnd.
Qed.

End Request.

Lemma request_appends_its_turns_in_order_witness :
  let req := mkChatRequest "s1" "What is X?" ["Gemini"; "Meta"] 0 "gemini-1.5-flash" in
  let gemini := fun (_ _ : string) (_ : Z) => Ok "X is a letter." in
  let meta := fun _ : string => Ok "X marks the spot." in
  let rag := fun (_ _ : string) (_ : Z) => Ok ("unused", @nil raw_source) in
  let meta_rag := fun _ : string => Ok ("unused", @nil raw_source) in
  Forall (fun mode => In mode Config.AI_MODES) (ai_modes req) /\
  map (fun m => (SessionStore.msg_role m, SessionStore.msg_content m))
      (SessionStore.messages
         (snd (process_chat_request gemini meta rag meta_rag (fun _ => true) (fun _ => true)
                                    req Scenarios.empty_store))) =
  [("user", "What is X?"); ("assistant", "X is a letter.");
   ("assistant", "X marks the spot.")].
Proof.
  intros req gemini meta rag meta_rag.
  assert (H : Forall (fun mode => In mode Config.AI_MODES) (ai_modes req))
    by (repeat constructor; simpl; auto).
  split; [exact H|].
  rewrite (request_appends_its_turns_in_order gemini meta rag meta_rag
             (fun _ => true) (fun _ => true) req Scenarios.empty_store H).
  reflexivity.
Defined.

Lemma answered_strategy_is_counted_twice_witness :
  let req := mkChatRequest "s1" "What is X?" ["Gemini"; "Meta"] 0 "gemini-1.5-flash" in
  let gemini := fun (_ _ : string) (_ : Z) => Ok "X is a letter." in
  let meta := fun _ : string => Ok "X marks the spot." in
  let rag := fun (_ _ : string) (_ : Z) => Ok ("unused", @nil raw_source) in
  let meta_rag := fun _ : string => Ok ("unused", @nil raw_source) in
  Forall (fun mode => In mode Config.AI_MODES) (ai_modes req) /\
  NoDup (map fst (SessionStore.usage_stats Scenarios.empty_store)) /\
  In "Gemini" Config.AI_MODES /\
  UsageService.get_stats
    (snd (process_chat_request gemini meta rag meta_rag (fun _ => true) (fun _ => true)
                               req Scenarios.empty_store)) "Gemini" = Some 2.
Proof.
  intros req gemini meta rag meta_rag.
  assert (H1 : Forall (fun mode => In mode Config.AI_MODES) (ai_modes req))
    by (repeat constructor; simpl; auto).
  assert (H2 : NoDup (map fst (SessionStore.usage_stats Scenarios.empty_store)))
    by constructor.
  assert (H3 : In "Gemini" Config.AI_MODES) by (simpl; auto).
  split; [exact H1|]. split; [exact H2|]. split; [exact H3|].
  destruct (answered_strategy_is_counted_twice gemini meta rag meta_rag
              (fun _ => true) (fun _ => true) req Scenarios.empty_store "Gemini"
              H1 H2 H3) as [H _].
  rewrite H. reflexivity.
Defined.

Lemma unknown_mode_is_answered_400_witness :
  let req := mkChatRequest "s1" "What is X?" ["Gemini"; "GPT"; "RAG"; "Llama"] 0
                           "gemini-1.5-flash" in
  let gemini := fun (_ _ : string) (_ : Z) => Ok "unused" in
  let meta := fun _ : string => Ok "unused" in
  let rag := fun (_ _ : string) (_ : Z) => Ok ("unused", @nil raw_source) in
  let meta_rag := fun _ : string => Ok ("unused", @nil raw_source) in
  (exists mode, In mode (ai_modes req) /\ ~ In mode Config.AI_MODES) /\
  ChatRoutes.chat_endpoint
    (process_chat_request gemini meta rag meta_rag (fun _ => true) (fun _ => true))
    req Scenarios.empty_store =
  (ChatRoutes.HTTPException 400 "Invalid AI modes: ['GPT', 'Llama']",
   Scenarios.empty_store).
Proof.
  intros req gemini meta rag meta_rag.
  assert (H : exists mode, In mode (ai_modes req) /\ ~ In mode Config.AI_MODES).
  { exists "GPT". split; [simpl; auto|].
    simpl. intros [E | [E | [E | [E | []]]]]; discriminate E. }
  split; [exact H|].
  rewrite (unknown_mode_is_answered_400 gemini meta rag meta_rag
             (fun _ => true) (fun _ => true) req Scenarios.empty_store H).
  reflexivity.
Defined.

Lemma request_only_adds_sources_of_its_session_witness :
  let req := mkChatRequest "s1" "What is X?" ["RAG"] 0 "gemini-1.5-flash" in
  let gemini := fun (_ _ : string) (_ : Z) => Ok "unused" in
  let meta := fun _ : string => Ok "unused" in
  let rag :=
    fun (_ _ : string) (_ : Z) =>
      Ok ("X is described in the notes.",
          [RDoc "X is the 24th letter." (Some [("source", PStr "docs/abc.txt")])]) in
  let meta_rag := fun _ : string => Ok ("unused", @nil raw_source) in
  let st' := snd (process_chat_request gemini meta rag meta_rag (fun _ => true)
                                       (fun _ => true) req Scenarios.empty_store) in
  map (fun r => (SessionStore.src_session_id r, SessionStore.src_name r))
      (SessionStore.sources st') = [("s1", PStr "abc.txt")] /\
  NoDup (map (fun r => (SessionStore.src_name r,
                        slice_to 100 (SessionStore.src_content r)))
             (SessionStore.session_source_rows st' "s1")).
Proof.
  intros req gemini meta rag meta_rag st'.
  split; [reflexivity|].
  destruct (request_only_adds_sources_of_its_session
              gemini meta rag meta_rag (fun _ => true) (fun _ => true)
              req Scenarios.empty_store) as [added [_ [_ Hnd]]].
  apply Hnd.
  - intros mode source [E | []] Hs n. subst mode.
    destruct Hs as [E | []]. subst source. discriminate.
  - constructor.
Defined.

Lemma request_without_strategy_is_accepted_witness :
  let req := mkChatRequest "s1" "What is X?" [] 0 "gemini-1.5-flash" in
  let gemini := fun (_ _ : string) (_ : Z) => Ok "unused" in
  let meta := fun _ : string => Ok "unused" in
  let rag := fun (_ _ : string) (_ : Z) => Ok ("unused", @nil raw_source) in
  let meta_rag := fun _ : string => Ok ("unused", @nil raw_source) in
  ai_modes req = [] /\
  fst (process_chat_request gemini meta rag meta_rag (fun _ => true) (fun _ => false)
                            req Scenarios.empty_store) =
  Ok (mkChatResponse None (Some []) (Some []) (Some [])).
Proof.
  intros req gemini meta rag meta_rag.
  assert (H : ai_modes req = []) by reflexivity.
  split; [exact H|].
  destruct (request_without_strategy_is_accepted gemini meta rag meta_rag
              (fun _ => true) (fun _ => false) req Scenarios.empty_store H)
    as [st' [Hp _]].
  rewrite Hp. reflexivity.
Defined.

End OrchestratorMore.

(* ================================================================== *)
(** * The retrieval pipeline of the RAG strategy *)
(* ================================================================== *)

Module RagFacts.

Import RagPipeline.

Lemma In_firstn {A} (n : nat) (l : list A) (a : A) : In a (firstn n l) -> In a l.
Proof.
  intros H. rewrite <- (firstn_skipn n l). apply in_or_app. left. exact H.
Qed.

Lemma float_ge_refl (a : pyfloat) : float_ge a a = true.
Proof.
  destruct a as [x|]; simpl; [|reflexivity]. apply Qle_bool_iff. apply Qle_refl.
Qed.

Lemma float_ge_total (a b : pyfloat) : float_ge a b = false -> float_ge b a = true.
Proof.
  destruct a as [x|], b as [y|]; simpl; try congruence.
  intros H. apply Qle_bool_iff.
  destruct (Qlt_le_dec x y) as [Hlt|Hle].
  - apply Qlt_le_weak. exact Hlt.
  - apply Qle_bool_iff in Hle. congruence.
Qed.

Lemma float_ge_trans (a b c : pyfloat) :
  float_ge a b = true -> float_ge b c = true -> float_ge a c = true.
Proof.
  destruct a as [x|], b as [y|], c as [z|]; simpl; try congruence.
  rewrite !Qle_bool_iff. intros H1 H2. apply (Qle_trans _ _ _ H2 H1).
Qed.

Section Pipeline.

Variable Document : Type.
Variable scored : string -> Document -> result (option pyfloat).
Variable get_relevant_documents : string -> result (list Document).
Variable _generate_answer_from_docs : string -> list Document -> string.

Local Abbreviation score := (_score_document_relevance Document scored).
Local Abbreviation rerank := (_rerank_documents Document scored).
Local Abbreviation insert := (insert_by_score Document).
Local Abbreviation sort := (sort_descending Document).
Local Abbreviation descending :=
  (fun a b : Document * pyfloat => float_ge (snd a) (snd b) = true).

Lemma insert_Permutation (x : Document * pyfloat) (l : list (Document * pyfloat)) :
  Permutation (insert x l) (x :: l).
Proof.
  induction l as [|y l IH]; simpl; [apply Permutation_refl|].
  destruct (float_ge (snd x) (snd y)); [apply Permutation_refl|].
  apply (Permutation_trans (l' := y :: x :: l)); [|apply perm_swap].
  apply perm_skip. exact IH.
Qed.

Lemma insert_Descending (x : Document * pyfloat) (l : list (Document * pyfloat)) :
  Descending snd l -> Descending snd (insert x l).
Proof.
  induction 1 as [|y l Hy Hl IH]; simpl.
  - constructor; [intros b []|constructor].
  - destruct (float_ge (snd x) (snd y)) eqn:E.
    + constructor; [|constructor; assumption].
      intros b [Hb|Hb]; [subst; exact E|].
      apply (float_ge_trans _ (snd y)); [exact E | apply Hy; exact Hb].
    + constructor; [|exact IH].
      intros b Hb. apply (Permutation_in _ (insert_Permutation x l)) in Hb.
      destruct Hb as [Hb|Hb]; [subst; apply float_ge_total; exact E | apply Hy; exact Hb].
Qed.

Lemma sort_Permutation (l : list (Document * pyfloat)) : Permutation (sort l) l.
Proof.
  induction l as [|x l IH]; simpl; [constructor|].
  apply (Permutation_trans (insert_Permutation x _)). apply perm_skip. exact IH.
Qed.

Lemma sort_Descending (l : list (Document * pyfloat)) : Descending snd (sort l).
Proof.
  induction l as [|x l IH]; simpl; [constructor | apply insert_Descending; exact IH].
Qed.

Lemma Descending_split {A} (key : A -> pyfloat) (n : nat) (l : list A) :
  Descending key l ->
  Descending key (firstn n l) /\
  (forall a b, In a (firstn n l) -> In b (skipn n l) ->
               float_ge (key a) (key b) = true).
Proof.
  intros H. revert n. induction H as [|a l Ha Hl IH]; intros n.
  - rewrite firstn_nil. split; [constructor | intros a b []].
  - destruct n as [|n]; simpl.
    + split; [constructor | intros x b []].
    + destruct (IH n) as [H1 H2]. split.
      * constructor; [|exact H1].
        intros b Hb. apply Ha. apply (In_firstn n l). exact Hb.
      * intros x b [Hx|Hx] Hb.
        -- subst x. apply Ha.
           rewrite <- (firstn_skipn n l). apply in_or_app. right. exact Hb.
        -- apply H2; assumption.
Qed.

Lemma Descending_map {A B} (f : A -> B) (key : B -> pyfloat) (l : list A) :
  Descending (fun a => key (f a)) l -> Descending key (map f l).
Proof.
  induction 1 as [|a l Ha Hl IH]; simpl; constructor; [|exact IH].
  intros b Hb. apply in_map_iff in Hb. destruct Hb as [x [E Hx]]. subst b.
  apply Ha. exact Hx.
Qed.

Lemma Descending_ext {A} (key key' : A -> pyfloat) (l : list A) :
  (forall a, In a l -> key a = key' a) -> Descending key l -> Descending key' l.
Proof.
  intros Hext H. induction H as [|a l Ha Hl IH]; constructor.
  - intros b Hb. rewrite <- (Hext a (or_introl eq_refl)), <- (Hext b (or_intror Hb)).
    apply Ha. exact Hb.
  - apply IH. intros x Hx. apply Hext. right. exact Hx.
Qed.

Lemma scored_docs_spec (question : string) (docs : list Document) :
  map fst (scored_docs Document scored question docs) =
  filter (fun doc => float_ge (score question doc) relevance_threshold) docs /\
  (forall p, In p (scored_docs Document scored question docs) ->
             snd p = score question (fst p)).
Proof.
  unfold scored_docs. induction docs as [|doc docs [IH1 IH2]]; simpl.
  - split; [reflexivity | intros p []].
  - destruct (float_ge (score question doc) relevance_threshold); simpl.
    + split; [rewrite IH1; reflexivity|].
      intros p [E|Hp]; [subst p; reflexivity | apply IH2; exact Hp].
    + split; assumption.
Qed.

(** The reranked documents are at most ten, all of them among the given
    ones. *)
Lemma rerank_bounds (question : string) (docs : list Document) :
  (List.length (rerank question docs) <= 10)%nat /\
  (forall doc, In doc (rerank question docs) -> In doc docs).
Proof.
  unfold _rerank_documents. split.
  - rewrite length_map. apply firstn_le_length.
  - intros doc Hdoc. apply in_map_iff in Hdoc. destruct Hdoc as [p [E Hp]]. subst doc.
    apply In_firstn in Hp.
    apply (Permutation_in _ (sort_Permutation _)) in Hp.
    destruct (scored_docs_spec question docs) as [Hfst _].
    assert (Hf : In (fst p) (map fst (scored_docs Document scored question docs)))
      by (apply in_map; exact Hp).
    rewrite Hfst in Hf. apply filter_In in Hf. apply Hf.
Qed.

(** X20.  [_rerank_documents] returns the best of the relevant documents:
    at most ten; each one a retrieved document whose score reaches the
    threshold 6.0; in descending order of score; and the relevant
    documents it leaves out are there only because ten were returned, each
    of them scoring no more than each returned one.  A document whose
    scoring call failed, or whose scoring answer holds no number, gets the
    default 5.0 and is never returned. *)
Theorem rerank_returns_the_best_relevant_documents
        (question : string) (docs : list Document) :
  let result := rerank question docs in
  (List.length result <= 10)%nat /\
  (forall doc, In doc result ->
               In doc docs /\ float_ge (score question doc) relevance_threshold = true) /\
  Descending (score question) result /\
  (exists rest,
      Permutation (result ++ rest)
                  (filter (fun doc => float_ge (score question doc) relevance_threshold)
                          docs) /\
      (forall doc other, In doc result -> In other rest ->
                         float_ge (score question doc) (score question other) = true) /\
      (rest = [] \/ List.length result = 10%nat)) /\
  (forall doc, In doc result ->
               exists x, scored question doc = Ok (Some x)).
Proof.
  intros result. unfold result, _rerank_documents.
  destruct (scored_docs_spec question docs) as [Hfst Hsnd].
  set (pairs := scored_docs Document scored question docs) in *.
  pose proof (sort_Permutation pairs) as Hperm.
  pose proof (sort_Descending pairs) as Hdesc.
  assert (Hkey : forall p, In p (sort pairs) -> snd p = score question (fst p)).
  { intros p Hp. apply Hsnd. apply (Permutation_in _ Hperm). exact Hp. }
  destruct (Descending_split snd top_docs_count (sort pairs) Hdesc) as [Hfirst Hcross].
  assert (Hin : forall doc, In doc (map fst (firstn top_docs_count (sort pairs))) ->
                            In doc docs /\
                            float_ge (score question doc) relevance_threshold = true).
  { intros doc Hdoc. apply in_map_iff in Hdoc. destruct Hdoc as [p [E Hp]]. subst doc.
    apply In_firstn in Hp.
    apply (Permutation_in _ Hperm) in Hp.
    assert (Hf : In (fst p) (map fst pairs)) by (apply in_map; exact Hp).
    rewrite Hfst in Hf. apply filter_In in Hf. exact Hf. }
  split; [|split; [|split; [|split]]].
  - rewrite length_map. apply firstn_le_length.
  - exact Hin.
  - apply Descending_map.
    apply (Descending_ext snd); [|exact Hfirst].
    intros p Hp. apply Hkey. apply (In_firstn top_docs_count). exact Hp.
  - exists (map fst (skipn top_docs_count (sort pairs))). split; [|split].
    + rewrite <- map_app, firstn_skipn, <- Hfst. apply Permutation_map. exact Hperm.
    + intros doc other Hd Ho.
      apply in_map_iff in Hd. destruct Hd as [p [Ep Hp]].
      apply in_map_iff in Ho. destruct Ho as [o [Eo Ho]]. subst doc other.
      rewrite <- (Hkey p) by (apply (In_firstn top_docs_count); exact Hp).
      rewrite <- (Hkey o)
        by (rewrite <- (firstn_skipn top_docs_count (sort pairs));
            apply in_or_app; right; exact Ho).
      apply Hcross; assumption.
    + rewrite length_map.
      destruct (Nat.le_gt_cases (List.length (sort pairs)) top_docs_count) as [Hle|Hgt].
      * left. rewrite skipn_all2 by exact Hle. reflexivity.
      * right. apply firstn_length_le. unfold top_docs_count in *. lia.
  - intros doc Hdoc. destruct (Hin doc Hdoc) as [_ Hge].
    unfold _score_document_relevance in Hge.
    destruct (scored question doc) as [[x|]|e]; simpl in Hge.
    + exists x. reflexivity.
    + discriminate.
    + discriminate.
Qed.

(** X21.  [_process_rag_query] never raises.  A failing retrieval gives
    the error text and no source, an empty retrieval the "No relevant
    documents" text and no source.  Otherwise the answer is generated from
    the sources that are returned with it, and these are never empty: the
    reranked documents, or the first three retrieved documents when no
    document reaches the threshold; they are at most ten and all of them
    retrieved documents. *)
Theorem rag_query_sources
        (question : string) :
  let r := _process_rag_query Document scored get_relevant_documents
                              _generate_answer_from_docs question in
  match get_relevant_documents question with
  | Raise e => r = ("❌ Error processing RAG query: " ++ str_exn e, [])
  | Ok [] => r = ("No relevant documents found in the database.", [])
  | Ok (doc :: others) =>
      let docs := doc :: others in
      snd r <> [] /\
      (List.length (snd r) <= 10)%nat /\
      (forall d, In d (snd r) -> In d docs) /\
      fst r = _generate_answer_from_docs question (snd r) /\
      (snd r = rerank question docs \/
       rerank question docs = [] /\ snd r = firstn 3 docs)
  end.
Proof.
  intros r. unfold r, _process_rag_query.
  destruct (get_relevant_documents question) as [[|doc others]|e]; cbn [bind try_except];
    [reflexivity| |reflexivity].
  cbv zeta.
  destruct (rerank_bounds question (doc :: others)) as [Hlen Hin].
  destruct (rerank question (doc :: others)) as [|d ds] eqn:E; cbn [fst snd].
  - split; [discriminate|]. split; [|split; [|split]].
    + etransitivity; [apply firstn_le_length|]. lia.
    + intros x Hx. apply (In_firstn 3). exact Hx.
    + reflexivity.
    + right. split; reflexivity.
  - split; [discriminate|]. split; [exact Hlen|]. split; [|split].
    + intros x Hx. apply Hin. exact Hx.
    + reflexivity.
    + left. reflexivity.
Qed.

End Pipeline.

End RagFacts.

(* ================================================================== *)
(** * The retried call of the MetaRAG processor *)
(* ================================================================== *)

Module RetryFacts.

Import Sources MetaRAGProcessor.

Section RateLimited.

Variable prompt : nat -> result (option mapping).

Local Abbreviation once := (attempt_once prompt).

Lemma attempt_once_valid (attempt : nat) (response : option mapping) :
  once attempt = Ok response ->
  prompt attempt = Ok response /\ is_valid_response response = true.
Proof.
  unfold attempt_once. destruct (prompt attempt) as [r|e]; cbn [bind]; [|discriminate].
  destruct (is_valid_response r) eqn:V; [|discriminate].
  intros H. inversion H. subst. split; [reflexivity | exact V].
Qed.

(** The loop from attempt [a] on, with [n] attempts left, the last of
    which has the number [max_retries]. *)
Lemma retry_loop_spec (max_retries : Z) (n : nat) :
  forall (a calls : nat),
    (1 <= n)%nat ->
    Z.of_nat (a + n) = max_retries + 1 ->
    let r := retry_loop prompt (seq a n) max_retries calls in
    exists k,
      (k < n)%nat /\
      snd r = (calls + k + 1)%nat /\
      (forall j, (j < k)%nat -> exists e, once (a + j) = Raise e) /\
      match fst r with
      | Ok response => once (a + k) = Ok response
      | Raise e =>
          S k = n /\
          exists e0, once (a + k) = Raise e0 /\ e = exhausted_error max_retries e0
      end.
Proof.
  induction n as [|n IH]; intros a calls Hn Hmax; [lia|].
  cbv zeta. cbn [seq retry_loop].
  destruct (once a) as [response|e0] eqn:E.
  - exists 0%nat. cbn [fst snd]. rewrite !Nat.add_0_r.
    split; [lia|]. split; [lia|]. split; [intros j Hj; lia | exact E].
  - destruct (Z.ltb_spec (Z.of_nat a) max_retries) as [Hlt|Hge].
    + assert (Hn' : (1 <= n)%nat) by lia.
      assert (Hmax' : Z.of_nat (S a + n) = max_retries + 1) by lia.
      destruct (IH (S a) (S calls) Hn' Hmax') as [k [K1 [K2 [K3 K4]]]].
      cbv zeta in K2, K4.
      exists (S k). split; [lia|]. split; [rewrite K2; lia|]. split.
      * intros j Hj. destruct j as [|j].
        -- rewrite Nat.add_0_r. exists e0. exact E.
        -- replace (a + S j)%nat with (S a + j)%nat by lia. apply K3. lia.
      * replace (a + S k)%nat with (S a + k)%nat by lia.
        destruct (fst (retry_loop prompt (seq (S a) n) max_retries (S calls)))
          as [response|e].
        -- exact K4.
        -- destruct K4 as [K4 K5]. split; [lia | exact K5].
    + exists 0%nat. cbn [fst snd]. rewrite !Nat.add_0_r.
      split; [lia|]. split; [lia|]. split; [intros j Hj; lia|].
      split; [lia|]. exists e0. split; [exact E | reflexivity].
Qed.

(** X22.  [_rate_limited_api_call] with [max_retries >= 0] calls the API
    at least once and at most [max_retries + 1] times, and stops at the
    first attempt whose response is valid (not empty, with a "message"):
    every earlier attempt failed, and that response is returned.  It
    raises only when all [max_retries + 1] attempts failed, and then with
    the error of the last attempt under the heading of its class (HTTP
    422, rate limit, or other); the line "Unexpected end of retry loop" is
    never reached. *)
Theorem rate_limited_call_stops_at_first_valid_response (max_retries : Z) :
  0 <= max_retries ->
  let r := _rate_limited_api_call prompt max_retries in
  let calls := snd r in
  (1 <= calls <= Z.to_nat (max_retries + 1))%nat /\
  (forall j, (j < calls - 1)%nat -> exists e, once j = Raise e) /\
  match fst r with
  | Ok response =>
      prompt (calls - 1)%nat = Ok response /\ is_valid_response response = true
  | Raise e =>
      calls = Z.to_nat (max_retries + 1) /\
      exists e0, once (calls - 1)%nat = Raise e0 /\ e = exhausted_error max_retries e0
  end.
Proof.
  intros Hmax r calls. unfold calls, r, _rate_limited_api_call.
  destruct (retry_loop_spec max_retries (Z.to_nat (max_retries + 1)) 0%nat 0%nat)
    as [k [K1 [K2 [K3 K4]]]]; [lia | lia |].
  cbv zeta in K2, K4. cbn [Nat.add] in K2, K3, K4. rewrite K2.
  replace (k + 1 - 1)%nat with k by lia.
  split; [lia|]. split; [exact K3|].
  destruct (fst (retry_loop prompt (seq 0 (Z.to_nat (max_retries + 1))) max_retries 0))
    as [response|e].
  - apply attempt_once_valid. exact K4.
  - destruct K4 as [K4 K5]. split; [lia | exact K5].
Qed.

End RateLimited.

Lemma rate_limited_call_stops_at_first_valid_response_witness :
  let prompt := fun attempt : nat =>
                  match attempt with
                  | O => Raise (OtherError "HTTP 422 Unprocessable Entity")
                  | S O => Ok (Some [("status", PStr "ok")])
                  | _ => Ok (Some [("message", PStr "X is a letter.")])
                  end in
  0 <= 2 /\
  _rate_limited_api_call prompt 2 = (Ok (Some [("message", PStr "X is a letter.")]), 3%nat) /\
  (exists e, attempt_once prompt 1 = Raise e).
Proof.
  intros prompt.
  assert (H : 0 <= 2) by lia.
  split; [exact H|]. split; [reflexivity|].
  destruct (rate_limited_call_stops_at_first_valid_response prompt 2 H) as [_ [H2 _]].
  apply H2. vm_compute. lia.
Defined.

End RetryFacts.

(* ================================================================== *)
(** * The names of formatted documents *)
(* ================================================================== *)

Module NameFacts.

Import ChatOrchestrator.

(** [split_last] leaves no separator behind. *)
Lemma split_last_aux_contains (sep : ascii) (s : string) :
  forall acc,
    contains (String sep "") (split_last_aux sep s acc) =
    if contains (String sep "") s then false else contains (String sep "") acc.
Proof.
  induction s as [|c s IH]; intros acc.
  - reflexivity.
  - cbn [split_last_aux contains startswith]. rewrite andb_true_r.
    destruct (Ascii.eqb_spec c sep) as [E|E].
    + subst c. rewrite Ascii.eqb_refl. cbn [orb]. rewrite IH.
      destruct (contains (String sep "") s); reflexivity.
    + rewrite IH.
      destruct (Ascii.eqb_spec sep c) as [E'|_]; [congruence | reflexivity].
Qed.

(** Its result is the whole string, or what follows a separator. *)
Lemma split_last_aux_suffix (sep : ascii) (s : string) :
  forall acc,
    split_last_aux sep s acc = acc \/
    exists prefix, s = prefix ++ String sep (split_last_aux sep s acc).
Proof.
  induction s as [|c s IH]; intros acc.
  - left. reflexivity.
  - cbn [split_last_aux]. destruct (Ascii.eqb_spec c sep) as [E|E].
    + subst c. right. destruct (IH s) as [H | [prefix H]].
      * exists "". rewrite H. reflexivity.
      * exists (String sep prefix). cbn [append]. rewrite <- H. reflexivity.
    + destruct (IH acc) as [H | [prefix H]]; [left; exact H|].
      right. exists (String c prefix). cbn [append]. rewrite <- H. reflexivity.
Qed.

(** X23.  The name of a formatted document carries no directory part.
    When the metadata of a document give a path as its "source" (any
    string but the default "Source <index + 1>"), the formatted record is
    named by what follows the last "/" of the path, and, for a path
    without "/", by what follows its last backslash: the name is the path
    itself or the part of the path behind a separator, it contains no "/",
    and no backslash either when the path has no "/". *)
Theorem document_name_has_no_directory_part
        (page_content : string) (md : mapping) (path source_type : string) (index : Z) :
  get md "source" = Some (PStr path) ->
  path <> numbered "Source" index ->
  exists n,
    name (_format_single_source (RDoc page_content (Some md)) source_type index) = PStr n /\
    contains "/" n = false /\
    (contains "/" path = false -> contains "\" n = false) /\
    (n = path \/ exists prefix sep, path = prefix ++ String sep n /\
                                    (sep = "/"%char \/ sep = "\"%char)).
Proof.
  intros Hget Hne.
  unfold _format_single_source, format_body, document_name.
  rewrite Hget. cbn [get_default pyval_eqb].
  destruct (String.eqb_spec path (numbered "Source" index)) as [E|_]; [contradiction|].
  cbn [negb contains_in bind].
  destruct (contains "/" path) eqn:Hs; cbn [bind basename_after try_except name].
  - exists (split_last "/"%char path). split; [reflexivity|].
    unfold split_last. split; [|split].
    + rewrite split_last_aux_contains, Hs. reflexivity.
    + discriminate.
    + destruct (split_last_aux_suffix "/"%char path path) as [H | [prefix H]].
      * left. exact H.
      * right. exists prefix, "/"%char. split; [exact H | left; reflexivity].
  - destruct (contains "\" path) eqn:Hb; cbn [bind basename_after try_except name].
    + exists (split_last "\"%char path). split; [reflexivity|].
      unfold split_last.
      destruct (split_last_aux_suffix "\"%char path path) as [H | [prefix H]].
      * rewrite H. split; [exact Hs|]. split; [|left; reflexivity].
        intros _. rewrite <- H, split_last_aux_contains, Hb. reflexivity.
      * split; [|split].
        -- destruct (contains "/" (split_last_aux "\"%char path path)) eqn:C;
             [|reflexivity].
           exfalso. rewrite H in Hs. clear - Hs C.
           induction prefix as [|c prefix IH].
           ++ cbn [append contains startswith] in Hs.
              rewrite C in Hs. rewrite orb_true_r in Hs. discriminate.
           ++ cbn [append contains] in Hs. apply orb_false_iff in Hs.
              apply IH. apply Hs.
        -- intros _. rewrite split_last_aux_contains, Hb. reflexivity.
        -- right. exists prefix, "\"%char. split; [exact H | right; reflexivity].
    + exists path. split; [reflexivity|]. split; [exact Hs|].
      split; [intros _; exact Hb | left; reflexivity].
Qed.

Lemma document_name_has_no_directory_part_witness :
  let md := [("source", PStr "uploads/notes/abc.txt")] in
  get md "source" = Some (PStr "uploads/notes/abc.txt") /\
  "uploads/notes/abc.txt" <> numbered "Source" 0 /\
  exists n,
    name (_format_single_source (RDoc "X is the 24th letter." (Some md)) "rag" 0) = PStr n /\
    contains "/" n = false.
Proof.
  intros md.
  assert (H1 : get md "source" = Some (PStr "uploads/notes/abc.txt")) by reflexivity.
  assert (H2 : "uploads/notes/abc.txt" <> numbered "Source" 0) by discriminate.
  split; [exact H1|]. split; [exact H2|].
  destruct (document_name_has_no_directory_part
              "X is the 24th letter." md "uploads/notes/abc.txt" "rag" 0 H1 H2)
    as [n [Hn [Hc _]]].
  exists n. split; [exact Hn | exact Hc].
Defined.

End NameFacts.

(* ================================================================== *)
(** * More about the pooled RAG strategy *)
(* ================================================================== *)

Module RagStrategyFacts.

Import GeminiApiManager AIService PoolFacts.

Section Strategy.

Variable google_api_keys : list string.
Variable get_retriever : Z -> result unit.
Variable _process_rag_query : string -> string -> string -> string * list raw_source.

Local Abbreviation rag :=
  (generate_rag_response google_api_keys get_retriever _process_rag_query).
Local Abbreviation attempt :=
  (rag_try google_api_keys get_retriever _process_rag_query).

Lemma rag_try_bound_index (w : World) (rnd : nat) (message model : string)
      (api_key_index : Z) :
  bound_index (attempt w rnd message model api_key_index) =
  bound_index (acquire w rnd api_key_index).
Proof.
  unfold rag_try. destruct (outcome (acquire w rnd api_key_index)) as [i|e];
    [|reflexivity].
  destruct (Config.get_api_key google_api_keys i) as [k|e]; [|reflexivity].
  destruct (get_retriever i); reflexivity.
Qed.

(** X24.  In the RAG strategy the key is reported as a success whenever
    the retriever could be obtained, whatever became of the question:
    [_process_rag_query] turns every failure of the LLM into its answer
    text, so no quota error of the LLM reaches the handler of
    [generate_rag_response].  With an explicit key index, a key configured
    under it and a retriever, the function returns what
    [_process_rag_query] returns, the clock is as before, and the key (if
    the pool has it) is available at every later time with its failure
    counter at 0 and no quota stamp; every other key is untouched. *)
Theorem rag_reports_success_whatever_the_answer
        (w : World) (rnd rnd_retry : nat) (message model : string)
        (api_key_index : Z) (api_key : string) (retriever : unit) :
  api_key_index <> -1 ->
  Config.get_api_key google_api_keys api_key_index = Ok api_key ->
  get_retriever api_key_index = Ok retriever ->
  let r := rag w rnd rnd_retry message model api_key_index in
  fst r = Ok (_process_rag_query message api_key model) /\
  now (snd r) = now w /\
  (forall s, lookup (pool w) api_key_index = Some s ->
             lookup (pool (snd r)) api_key_index = Some (mark_success (now w) s) /\
             forall later, In api_key_index (get_available_keys later (pool (snd r)))) /\
  (forall k, k <> api_key_index -> lookup (pool (snd r)) k = lookup (pool w) k).
Proof.
  intros Hidx Hkey Hret r.
  assert (Hr : r = (Ok (_process_rag_query message api_key model),
                    report w api_key_index true false)).
  { unfold r, generate_rag_response, rag_try, acquire.
    destruct (Z.eqb_spec api_key_index (-1)) as [E|_]; [contradiction|].
    cbn [outcome bound_index world]. rewrite Hkey, Hret. reflexivity. }
  rewrite Hr. unfold report. cbn [fst snd pool now].
  split; [reflexivity|]. split; [reflexivity|]. split.
  - intros s Hs.
    assert (Hl : lookup (mark_api_result (now w) (pool w) api_key_index true false)
                        api_key_index = Some (mark_success (now w) s)).
    { rewrite mark_api_result_lookup, Z.eqb_refl, Hs. reflexivity. }
    split; [exact Hl|].
    intros later. apply (eligible_available later _ _ _ Hl); reflexivity.
  - intros k Hk. rewrite mark_api_result_lookup.
    destruct (Z.eqb_spec api_key_index k) as [E|_]; [congruence | reflexivity].
Qed.

(** X25.  [generate_rag_response] lets only two exceptions escape: the
    [AttributeError] of the missing method [_get_recovery_time_message],
    on its quota path, and the [UnboundLocalError] of [actual_api_index],
    which needs the automatic selection (index -1) on a pool without
    keys.  An unusable key index or a failing retriever is answered with a
    text and no source. *)
Theorem rag_response_raises_only_two_errors
        (w : World) (rnd rnd_retry : nat) (message model : string)
        (api_key_index : Z) (e : exn) :
  fst (rag w rnd rnd_retry message model api_key_index) = Raise e ->
  e = AttributeError "'AIService' object has no attribute '_get_recovery_time_message'" \/
  (e = UnboundLocalError
         "cannot access local variable 'actual_api_index' where it is not associated with a value" /\
   api_key_index = -1 /\ pool w = []).
Proof.
  unfold generate_rag_response.
  pose proof (rag_try_bound_index w rnd message model api_key_index) as Hb.
  destruct (outcome (attempt w rnd message model api_key_index)) as [a|e0];
    [discriminate|].
  destruct (bound_index (attempt w rnd message model api_key_index)) as [i|] eqn:Hi;
    cbn [read_local].
  - destruct (is_quota_message (str_exn e0)).
    + destruct (rag_retry _ _ _ _ _ _ _ _) as [[a|] w2]; cbn [fst bind];
        [discriminate|].
      unfold _get_recovery_time_message. cbn [bind fst].
      intros H; inversion H. left. reflexivity.
    + destruct (is_timeout_message (str_exn e0)); discriminate.
  - cbn [fst]. intros H; inversion H. right. split; [reflexivity|].
    apply (StrategyMore.acquire_unbound w rnd api_key_index). symmetry. exact Hb.
Qed.

End Strategy.

Lemma rag_reports_success_whatever_the_answer_witness :
  let keys := ["key-a"; "key-b"] in
  let retriever := fun _ : Z => Ok tt in
  let query := fun _ _ _ : string =>
                 ("❌ Error processing RAG query: 429 quota exceeded", @nil raw_source) in
  let w := mkWorld (report_failures 3 0 50%Q (_initialize_api_keys keys)) 100%Q in
  let r := generate_rag_response keys retriever query w 0 0 "What is X?"
                                 "gemini-1.5-flash" 0 in
  get_available_keys 100%Q (pool w) = [1] /\
  In 0 (get_available_keys 100%Q (pool (snd r))).
Proof.
  intros keys retriever query w r.
  split; [reflexivity|].
  assert (H1 : 0 <> -1) by discriminate.
  assert (H2 : Config.get_api_key keys 0 = Ok "key-a") by reflexivity.
  assert (H3 : retriever 0 = Ok tt) by reflexivity.
  destruct (rag_reports_success_whatever_the_answer
              keys retriever query w 0%nat 0%nat "What is X?" "gemini-1.5-flash"
              0 "key-a" tt H1 H2 H3) as [_ [_ [H _]]].
  destruct (lookup (pool w) 0) as [s|] eqn:Hs; [|discriminate Hs].
  destruct (H s eq_refl) as [_ Hav]. apply Hav.
Defined.

Lemma rag_response_raises_only_two_errors_witness :
  let w := mkWorld [] 100%Q in
  let retriever := fun _ : Z => Ok tt in
  let query := fun _ _ _ : string => ("unused", @nil raw_source) in
  let e := UnboundLocalError
             "cannot access local variable 'actual_api_index' where it is not associated with a value" in
  fst (generate_rag_response ["key-a"] retriever query w 0 0 "What is X?"
                             "gemini-1.5-flash" (-1)) = Raise e /\
  pool w = [].
Proof.
  intros w retriever query e.
  assert (H : fst (generate_rag_response ["key-a"] retriever query w 0 0 "What is X?"
                                         "gemini-1.5-flash" (-1)) = Raise e)
    by reflexivity.
  split; [exact H|].
  destruct (rag_response_raises_only_two_errors _ _ _ _ _ _ _ _ _ _ H)
    as [Hm | [_ [_ Hp]]]; [discriminate Hm | exact Hp].
Defined.

End RagStrategyFacts.
